(** * cline-core: the context manager, the streaming parser, the task loop
      and the capability hub, embedded from the TypeScript sources.

    Strings are Rocq strings (sequences of code units), JavaScript numbers
    that hold array indices and counters are integers of [Z], a division
    followed by [Math.floor] is a rational division followed by [Qfloor],
    a [Map] is a [gmap], arrays are lists; prices and the factor of the
    context window are the doubles they are. *)

From Stdlib Require Import ZArith QArith Qround Lia.
From Stdlib Require Import Strings.String Strings.Ascii.
From Stdlib Require Floats.
From stdpp Require Import base option list gmap strings.

Local Open Scope Z_scope.

(** ** JavaScript arrays: indexing and [slice] *)

Module JsArray.

Section Ops.
Context {A : Type}.

(** [a[i]]: [undefined] (here [None]) outside [0 .. length-1]. *)
Definition get (a : list A) (i : Z) : option A :=
  if i <? 0 then None else a !! Z.to_nat i.

(** The relative index normalisation of [Array.prototype.slice]. *)
Definition clampIndex (len k : Z) : Z :=
  if k <? 0 then Z.max (len + k) 0 else Z.min k len.

(** [a.slice(start)] *)
Definition sliceFrom (a : list A) (start : Z) : list A :=
  drop (Z.to_nat (clampIndex (Z.of_nat (length a)) start)) a.

(** [a.slice(start, end)] *)
Definition slice (a : list A) (start end_ : Z) : list A :=
  let len := Z.of_nat (length a) in
  let k := clampIndex len start in
  let final := clampIndex len end_ in
  take (Z.to_nat (final - k)) (drop (Z.to_nat k) a).
End Ops.

End JsArray.

(** ** JavaScript strings: the [String.prototype] methods the sources use *)

Module JsString.

(** [\s] of a regular expression and the characters [trim] removes, among
    the code units a Rocq character can hold (tab, line feed, vertical
    tab, form feed, carriage return, space, no-break space). *)
Definition isWhiteSpace (c : ascii) : bool :=
  let n := nat_of_ascii c in
  ((9 <=? n)%nat && (n <=? 13)%nat) || (n =? 32)%nat || (n =? 160)%nat.

Fixpoint allWhiteSpace (s : string) : bool :=
  match s with
  | EmptyString => true
  | String c s' => isWhiteSpace c && allWhiteSpace s'
  end.

Definition isEmpty (s : string) : bool :=
  match s with EmptyString => true | String _ _ => false end.

Fixpoint dropStr (n : nat) (s : string) : string :=
  match n, s with
  | O, _ => s
  | S _, EmptyString => EmptyString
  | S n', String _ s' => dropStr n' s'
  end.

Fixpoint takeStr (n : nat) (s : string) : string :=
  match n, s with
  | O, _ => EmptyString
  | S _, EmptyString => EmptyString
  | S n', String c s' => String c (takeStr n' s')
  end.

(** [s.slice(start, end)] and [s.slice(start)] for the non-negative
    indices the parser passes. *)
Definition slice (s : string) (start end_ : nat) : string :=
  takeStr (end_ - start) (dropStr start s).

Definition sliceFrom (s : string) (start : nat) : string := dropStr start s.

Fixpoint trimStart (s : string) : string :=
  match s with
  | EmptyString => EmptyString
  | String c s' => if isWhiteSpace c then trimStart s' else s
  end.

Fixpoint trimEnd (s : string) : string :=
  match s with
  | EmptyString => EmptyString
  | String c s' =>
      match trimEnd s' with
      | EmptyString => if isWhiteSpace c then EmptyString else String c EmptyString
      | t => String c t
      end
  end.

Definition trim (s : string) : string := trimEnd (trimStart s).

(** [s.includes(sub)] *)
Fixpoint includes (s sub : string) : bool :=
  String.prefix sub s ||
  match s with
  | EmptyString => false
  | String _ s' => includes s' sub
  end.

(** [s.split(sep)] for a one-character separator: the pieces between the
    occurrences of [sep], as many as occurrences plus one. *)
Fixpoint split (s : string) (sep : ascii) : list string :=
  match s with
  | EmptyString => [EmptyString]
  | String c s' =>
      if Ascii.eqb c sep then EmptyString :: split s' sep
      else match split s' sep with
           | piece :: pieces => String c piece :: pieces
           | [] => [String c EmptyString]
           end
  end.

(** [s.split(sep, limit)]: the first [limit] pieces, the rest dropped. *)
Definition splitLimit (s : string) (sep : ascii) (limit : nat) : list string :=
  List.firstn limit (split s sep).

(** The double quote character, as a string. *)
Definition quote : string := String "034" EmptyString.

(** [pieces.join(sep)] *)
Definition join (pieces : list string) (sep : string) : string :=
  String.concat sep pieces.

End JsString.

(** ** Values decoded by [JSON.parse] *)

#[local] Unset Elimination Schemes.
Inductive Json :=
| JNull
| JBool (b : bool)
| JNumber (n : Q)
| JString (s : string)
| JArray (items : list Json)
| JObject (fields : list (string * Json)).
#[local] Set Elimination Schemes.

(** JavaScript truthiness of a decoded value: [null], [false], [0] and the
    empty string are falsy, every array and object is truthy. *)
Definition truthy (v : Json) : bool :=
  match v with
  | JNull => false
  | JBool b => b
  | JNumber n => negb (Qeq_bool n 0)
  | JString s => negb (JsString.isEmpty s)
  | JArray _ | JObject _ => true
  end.

(** ** src/context/ContextManager.ts *)

Module ContextManager.

Inductive Role := user | assistant.

Inductive ContentBlock :=
| TextBlock (text : string)
| ImageBlock
| OtherBlock.

Inductive MessageContent :=
| StringContent (s : string)
| ArrayContent (blocks : list ContentBlock).

Record MessageParam := { role : Role; content : MessageContent }.

(** Messages by role. *)
Definition userMsg (c : MessageContent) : MessageParam := {| role := user; content := c |}.
Definition assistantMsg (c : MessageContent) : MessageParam :=
  {| role := assistant; content := c |}.

Inductive Keep := none | lastTwo | half | quarter.

(** [ContextUpdate] of types.ts, without its unused metadata. *)
Record ContextUpdate := {
  timestamp : Z;
  updateType : string;
  updateContent : list string
}.

(** [contextHistoryUpdates : Map<number, [number, Map<number, ContextUpdate[]>]>] *)
Abbreviation HistoryUpdates := (gmap Z (Z * gmap Z (list ContextUpdate))).

Definition Role_eqb (a b : Role) : bool :=
  match a, b with
  | user, user | assistant, assistant => true
  | _, _ => false
  end.

(** [apiMessages[i]?.role !== "assistant"] *)
Definition roleIsNotAssistant (apiMessages : list MessageParam) (i : Z) : bool :=
  match JsArray.get apiMessages i with
  | Some m => negb (Role_eqb (role m) assistant)
  | None => true
  end.

(** The local [messagesToRemove] of [getNextTruncationRange]. *)
Definition messagesToRemove (len startOfRest : Z) (keep : Keep) : Z :=
  match keep with
  | none => Z.max (len - startOfRest) 0
  | lastTwo => Z.max (len - startOfRest - 2) 0
  | half => Qfloor (inject_Z (len - startOfRest) / 4) * 2
  | quarter => Qfloor (inject_Z ((len - startOfRest) * 3) / 4 / 2) * 2
  end.

Definition startOfRest (currentDeletedRange : option (Z * Z)) : Z :=
  match currentDeletedRange with
  | Some r => snd r + 1
  | None => 2
  end.

Definition getNextTruncationRange (apiMessages : list MessageParam)
    (currentDeletedRange : option (Z * Z)) (keep : Keep) : Z * Z :=
  let rangeStartIndex := 2 in
  let startOfRest := startOfRest currentDeletedRange in
  let messagesToRemove :=
    messagesToRemove (Z.of_nat (length apiMessages)) startOfRest keep in
  let rangeEndIndex := startOfRest + messagesToRemove - 1 in
  let rangeEndIndex :=
    if roleIsNotAssistant apiMessages rangeEndIndex
    then rangeEndIndex - 1 else rangeEndIndex in
  (rangeStartIndex, rangeEndIndex).

(** The function never looks inside a message, so it is stated for any
    element type; the task uses it at [MessageParam]. *)
Definition getTruncatedMessages {A : Type} (messages : list A)
    (deletedRange : option (Z * Z)) : list A :=
  match deletedRange with
  | None => messages
  | Some r =>
      if Z.of_nat (length messages) <=? 1 then messages
      else
        let firstChunk := JsArray.slice messages 0 2 in
        let secondChunk := JsArray.sliceFrom messages (snd r + 1) in
        firstChunk ++ secondChunk
  end.

Definition truncationNotice : string :=
  "[NOTE] Some previous conversation history has been removed to manage context length.".

Definition addTruncationNotice (updates : HistoryUpdates) (ts : Z) : HistoryUpdates :=
  match updates !! 1 with
  | Some _ => updates
  | None =>
      let innerMap : gmap Z (list ContextUpdate) :=
        {[ 0 := [ {| timestamp := ts; updateType := "text";
                     updateContent := [truncationNotice] |} ] ]} in
      <[ 1 := (0, innerMap) ]> updates
  end.

(** [Math.ceil(n / 4)] *)
Definition ceilDiv4 (n : nat) : Z := Qceiling (inject_Z (Z.of_nat n) / 4).

Definition blockTokens (b : ContentBlock) : Z :=
  match b with
  | TextBlock t => ceilDiv4 (String.length t)
  | ImageBlock => 1000
  | OtherBlock => 0
  end.

Definition estimateTokenCount (messages : list MessageParam) : Z :=
  foldl (fun totalTokens message =>
           match content message with
           | StringContent s => totalTokens + ceilDiv4 (String.length s)
           | ArrayContent blocks =>
               foldl (fun t b => t + blockTokens b) totalTokens blocks
           end) 0 messages.

(** [getContextWindowInfo] multiplies the model's window by the float 0.8;
    the task model takes the resulting [maxAllowedSize] as given. *)
Definition shouldCompactContextWindow (maxAllowedSize estimatedTokens : Z) : bool :=
  maxAllowedSize <=? estimatedTokens.

Record ContextMetadata := {
  truncatedMessages : list MessageParam;
  estimatedTokens : Z;
  shouldTruncate : bool
}.

Definition getContextMetadata (apiMessages : list MessageParam)
    (maxAllowedSize : Z) (deletedRange : option (Z * Z)) : ContextMetadata :=
  let truncated := getTruncatedMessages apiMessages deletedRange in
  let estimated := estimateTokenCount truncated in
  {| truncatedMessages := truncated;
     estimatedTokens := estimated;
     shouldTruncate := shouldCompactContextWindow maxAllowedSize estimated |}.

(** A history in which user and assistant messages alternate, from a user
    message at index 0: what the comments of [getNextTruncationRange]
    have in mind. *)
Definition alternates (msgs : list MessageParam) : Prop :=
  forall (i : nat) m, msgs !! i = Some m ->
    role m = if Nat.even i then user else assistant.

End ContextManager.

(** ** Errors, tool results and the collaborators outside the sources *)

(** A thrown [Error]: its [name] and its [message]. *)
Record JsError := { errName : string; errMessage : string }.

(** [ToolResult] of types.ts (the optional images are never set here). *)
Record ToolResult := { success : bool; resultContent : string }.

(** One item of [McpToolCallResponse.content]. *)
Record McpContentItem := { itemText : option string }.

Record McpToolCallResponse := {
  responseContent : list McpContentItem;
  isError : bool
}.

(** [ApiStreamChunk] of api/types.ts. *)
Inductive ApiStreamChunk :=
| TextChunk (text : option string)
| UsageChunk (inputTokens outputTokens : Z)
| ReasoningChunk.

(** What iterating the stream of [createMessage] does: the chunks it
    yields, then either its end or the error it throws. *)
Record StreamScript := {
  chunks : list ApiStreamChunk;
  thrown : option JsError
}.

(** [McpServerConfig] of mcp/types.ts; [env] and [headers] are objects with
    string values, compared regardless of key order. *)
Record McpServerConfig := {
  cfgType : string;
  cfgCommand : option string;
  cfgArgs : option (list string);
  cfgEnv : option (gmap string string);
  cfgCwd : option string;
  cfgUrl : option string;
  cfgHeaders : option (gmap string string);
  cfgDisabled : option bool;
  cfgTimeout : option Z;
  cfgAutoApprove : option (list string)
}.

Record McpTool := { toolName : string; autoApprove : bool }.

(** What a transport reports to the handlers set on it: [onerror], with
    the message of the error, and [onclose]. *)
Inductive TransportEvent :=
| TransportError (message : string)
| TransportClose.

(** What [await client.connect(transport)] comes to: the events the
    transport reports while the connect is pending, then the error the
    connect rejects with, if any; and, after a connect that succeeded, the
    events the transport reports until [connectToServer] returns. *)
Record ConnectResult := {
  fired : list TransportEvent;
  rejection : option JsError;
  firedAfter : list TransportEvent
}.

(** The runtime and the libraries the sources call: [JSON], the provider
    behind [ApiHandler.createMessage], the implementations behind
    [Tool.execute], the MCP client and transport. [World] is the state of
    everything they depend on.

    For the MCP SDK: [transportStart n c] is [new StdioClientTransport]
    with [await transport.start()] for the server [n], and [newTransport c]
    is [new URL(config.url!)] with the constructor of the SSE or HTTP
    transport, each with the error it throws, if any;
    [clientConnect n c started] is [await client.connect(transport)], on a
    transport the hub has started already or not;
    [toolsListRequest n config] is the request [tools/list] to the client
    of the server [n] connected with the serialised [config]: the [tools]
    of the response, if it has any, or the error thrown. *)
Class Runtime := {
  World : Type;
  JSON_parse : string -> option Json;
  JSON_stringify_config : McpServerConfig -> string;
  JSON_parse_config : string -> McpServerConfig;
  Date_now : World -> Z;
  maxAllowedSize : Z;
  createMessage : list ContextManager.MessageParam -> World -> StreamScript * World;
  toolExecute : string -> Json -> World -> (ToolResult + JsError) * World;
  clientRequest : string -> string -> Json -> World ->
                  (McpToolCallResponse + JsError) * World;
  transportStart : string -> McpServerConfig -> option JsError;
  newTransport : McpServerConfig -> option JsError;
  clientConnect : string -> McpServerConfig -> bool -> ConnectResult;
  toolsListRequest : string -> string -> option (list McpTool) + JsError
}.

(** ** The tool registry ([ToolRegistry] of tools/index.ts) *)

Module ToolRegistry.

Section WithRuntime.
Context `{Runtime}.

(** The [Tool] interface. *)
Record Tool := {
  name : string;
  description : string;
  execute : Json -> World -> (ToolResult + JsError) * World
}.

Definition registerTool (tools : gmap string Tool) (tool : Tool) : gmap string Tool :=
  <[ name tool := tool ]> tools.

Definition builtin (n d : string) : Tool :=
  {| name := n; description := d; execute := toolExecute n |}.

Definition registerBuiltinTools : gmap string Tool :=
  foldl registerTool ∅
    [ builtin "read_file" "Read the contents of a file";
      builtin "write_to_file" "Write content to a file, creating it if it doesn't exist";
      builtin "replace_in_file" "Replace text in a file";
      builtin "list_files" "List files and directories";
      builtin "execute_command" "Execute a shell command";
      builtin "attempt_completion" "Indicate that the task has been completed" ].

Definition getTool (tools : gmap string Tool) (n : string) : option Tool :=
  tools !! n.

Definition executeTool (tools : gmap string Tool) (n : string) (args : Json)
    (w : World) : ToolResult * World :=
  match getTool tools n with
  | None =>
      ({| success := false; resultContent := "Unknown tool: " +:+ n |}, w)
  | Some tool =>
      match execute tool args w with
      | (inl result, w') => (result, w')
      | (inr error, w') =>
          ({| success := false;
              resultContent := "Error executing tool " +:+ n +:+ ": " +:+ errMessage error |},
           w')
      end
  end.
End WithRuntime.

End ToolRegistry.

(** ** The capability hub (mcp/McpHub.ts) *)

Module McpHub.

Inductive Status := connected | connecting | disconnected.

Record McpServer := {
  name : string;
  config : string;
  status : Status;
  disabled : option bool;
  error : option string;
  tools : option (list McpTool)
}.

(** A connection; a placeholder for a disabled server has neither client
    nor transport ([null] in the source). *)
Record McpConnection := {
  server : McpServer;
  hasClient : bool;
  hasTransport : bool
}.

(** What the hub did to its connections, in order: [Closed n] when
    [deleteConnection] found the connection of [n], closed it and removed
    it; [Connecting n c] when [connectToServer] was entered for [n]. *)
Inductive HubAction :=
| Closed (n : string)
| Connecting (n : string) (c : McpServerConfig).

Record Hub := {
  connections : list McpConnection;
  isConnecting : bool;
  actions : list HubAction
}.

#[global] Instance McpServerConfig_eq_dec : EqDecision McpServerConfig.
Proof. solve_decision. Defined.

(** [deepEqual] of fast-deep-equal on two configurations. *)
Definition deepEqual (a b : McpServerConfig) : bool := bool_decide (a = b).

Definition isTrue (b : option bool) : bool := default false b.

Definition nameIs (n : string) (conn : McpConnection) : bool :=
  String.eqb (name (server conn)) n.

Definition findConnection (hub : Hub) (n : string) : option McpConnection :=
  List.find (nameIs n) (connections hub).

Definition withoutName (n : string) (conns : list McpConnection) : list McpConnection :=
  List.filter (fun conn => negb (nameIs n conn)) conns.

(** The hub as its constructor leaves it. *)
Definition newHub : Hub :=
  {| connections := []; isConnecting := false; actions := [] |}.

Definition setConnections (hub : Hub) (conns : list McpConnection) : Hub :=
  {| connections := conns; isConnecting := isConnecting hub; actions := actions hub |}.

Definition setIsConnecting (hub : Hub) (b : bool) : Hub :=
  {| connections := connections hub; isConnecting := b; actions := actions hub |}.

Definition record (hub : Hub) (a : HubAction) : Hub :=
  {| connections := connections hub; isConnecting := isConnecting hub;
     actions := actions hub ++ [a] |}.

(** Closing the transport and the client may fail; the failure is logged
    and the connection is removed all the same. *)
Definition deleteConnection (hub : Hub) (n : string) : Hub :=
  match findConnection hub n with
  | Some _ => setConnections (record hub (Closed n)) (withoutName n (connections hub))
  | None => hub
  end.

Definition appendErrorMessage (s : McpServer) (e : string) : McpServer :=
  let newError :=
    match error s with
    | Some old => if JsString.isEmpty old then e else old +:+ String "010" e
    | None => e
    end in
  {| name := name s; config := config s; status := status s;
     disabled := disabled s; error := Some newError; tools := tools s |}.

Definition setStatus (s : McpServer) (st : Status) : McpServer :=
  {| name := name s; config := config s; status := st;
     disabled := disabled s; error := error s; tools := tools s |}.

(** [connection.server.status = "disconnected"; appendErrorMessage(...)]
    on the connection [findConnection] returns: the first of that name. *)
Fixpoint markFailed (n e : string) (conns : list McpConnection) : list McpConnection :=
  match conns with
  | [] => []
  | conn :: rest =>
      if nameIs n conn
      then {| server := appendErrorMessage (setStatus (server conn) disconnected) e;
              hasClient := hasClient conn; hasTransport := hasTransport conn |} :: rest
      else conn :: markFailed n e rest
  end.

(** [new Set(names)] as it is iterated: every name once, in the order of
    the first occurrences. *)
Fixpoint setOf (names : list string) : list string :=
  match names with
  | [] => []
  | n :: rest => n :: List.filter (fun m => negb (String.eqb m n)) (setOf rest)
  end.

Definition setError (s : McpServer) (e : option string) : McpServer :=
  {| name := name s; config := config s; status := status s;
     disabled := disabled s; error := e; tools := tools s |}.

Definition setTools (s : McpServer) (ts : list McpTool) : McpServer :=
  {| name := name s; config := config s; status := status s;
     disabled := disabled s; error := error s; tools := Some ts |}.

(** An assignment to the server of the connection [findConnection]
    returns for [n]: the first of that name. *)
Fixpoint updateFirst (n : string) (f : McpServer -> McpServer) (conns : list McpConnection)
    : list McpConnection :=
  match conns with
  | [] => []
  | conn :: rest =>
      if nameIs n conn
      then {| server := f (server conn);
              hasClient := hasClient conn; hasTransport := hasTransport conn |} :: rest
      else conn :: updateFirst n f rest
  end.

(** What the connection [connectToServer] pushes for [n] keeps while it
    is worked on: its name, its configuration, its [disabled] and its
    client. *)
Definition connectionOf (n : string) (configText : string) (isDisabled : option bool)
    (conn : McpConnection) : Prop :=
  name (server conn) = n /\ config (server conn) = configText /\
  disabled (server conn) = isDisabled /\ hasClient conn = true.

(** The messages of the errors among the events of a transport. *)
Definition reportedErrors (events : list TransportEvent) : list string :=
  omap (fun event => match event with
                     | TransportError message => Some message
                     | TransportClose => None
                     end) events.

(** The handlers [connectToServer] sets on the transport of [n]:
    [onerror], on every transport, marks the connection disconnected and
    appends the message; [onclose], on the stdio transport only, marks it
    disconnected. *)
Definition transportEvent (n : string) (closeHandled : bool) (conns : list McpConnection)
    (event : TransportEvent) : list McpConnection :=
  match event with
  | TransportError message => markFailed n message conns
  | TransportClose =>
      if closeHandled then updateFirst n (fun s => setStatus s disconnected) conns
      else conns
  end.

Section WithRuntime.
Context `{Runtime}.

(** The [switch] on [config.type]: the transport is created, and the
    stdio transport is started; the error thrown on the way, or whether
    the transport has been started when [client.connect] gets it. *)
Definition setupTransport (n : string) (c : McpServerConfig) : JsError + bool :=
  if String.eqb (cfgType c) "stdio" then
    match transportStart n c with
    | Some e => inl e
    | None => inr true
    end
  else if String.eqb (cfgType c) "sse" then
    match newTransport c with
    | Some e => inl e
    | None => inr false
    end
  else if String.eqb (cfgType c) "http" then
    match newTransport c with
    | Some e => inl e
    | None => inr false
    end
  else inl {| errName := "Error";
              errMessage := "Unknown transport type: " +:+ cfgType c |}.

(** [fetchToolsList]: the tools the server lists, each with
    [autoApprove: false]; none when the request fails or the response has
    no tools. *)
Definition fetchToolsList (hub : Hub) (serverName : string) : list McpTool :=
  match findConnection hub serverName with
  | None => []
  | Some connection =>
      if isTrue (disabled (server connection)) || negb (hasClient connection) then []
      else
        match toolsListRequest serverName (config (server connection)) with
        | inl (Some listed) =>
            (fun tool => {| toolName := toolName tool; autoApprove := false |}) <$> listed
        | inl None => []
        | inr _ => []
        end
  end.

(** [connectToServer]. The connection is pushed before [client.connect]
    is awaited; it is the only one of its name, so the assignments to
    [connection.server] are assignments to the connection
    [findConnection] returns. Before the push neither the [catch] nor a
    handler of the transport finds a connection of the name. The events
    reported after the connect meet the handlers while the notification
    handler is set and the catalogs are fetched; none of these reads or
    writes what the handlers write, so the events are applied at the end.
    The catalogs of resources, which the model of a server does not hold,
    are left out. *)
Definition connectToServer (hub : Hub) (n : string) (c : McpServerConfig)
    : option JsError * Hub :=
  let hub := record hub (Connecting n c) in
  let hub := setConnections hub (withoutName n (connections hub)) in
  if isTrue (cfgDisabled c) then
    let disabledConnection :=
      {| server := {| name := n; config := JSON_stringify_config c;
                      status := disconnected; disabled := Some true;
                      error := None; tools := None |};
         hasClient := false; hasTransport := false |} in
    (None, setConnections hub (connections hub ++ [disabledConnection]))
  else
    match setupTransport n c with
    | inl e => (Some e, hub)
    | inr started =>
        let connection :=
          {| server := {| name := n; config := JSON_stringify_config c;
                          status := connecting; disabled := cfgDisabled c;
                          error := None; tools := None |};
             hasClient := true; hasTransport := true |} in
        let hub := setConnections hub (connections hub ++ [connection]) in
        let result := clientConnect n c started in
        let closeHandled := String.eqb (cfgType c) "stdio" in
        let hub :=
          setConnections hub
            (foldl (transportEvent n closeHandled) (connections hub) (fired result)) in
        match rejection result with
        | Some e =>
            (Some e, setConnections hub (markFailed n (errMessage e) (connections hub)))
        | None =>
            let hub :=
              setConnections hub
                (updateFirst n (fun s => setError (setStatus s connected) (Some EmptyString))
                             (connections hub)) in
            let listed := fetchToolsList hub n in
            let hub :=
              setConnections hub
                (updateFirst n (fun s => setTools s listed) (connections hub)) in
            (None, setConnections hub
                     (foldl (transportEvent n closeHandled) (connections hub)
                            (firedAfter result)))
        end
    end.

(** One entry of [Object.entries(newServers)] in the second loop; the
    errors of [connectToServer] are caught and logged. *)
Definition updateEntry (hub : Hub) (entry : string * McpServerConfig) : Hub :=
  let '(n, c) := entry in
  match findConnection hub n with
  | None => snd (connectToServer hub n c)
  | Some currentConnection =>
      if negb (deepEqual (JSON_parse_config (config (server currentConnection))) c)
      then snd (connectToServer (deleteConnection hub n) n c)
      else hub
  end.


(** [newServers] is an object: its entries in enumeration order. *)
Definition updateServerConnections (hub : Hub)
    (newServers : list (string * McpServerConfig)) : Hub :=
  let hub := setIsConnecting hub true in
  let currentNames := setOf ((fun conn => name (server conn)) <$> connections hub) in
  let newNames := newServers.*1 in
  let hub :=
    foldl (fun hub n => if bool_decide (n ∈ newNames) then hub else deleteConnection hub n)
          hub currentNames in
  let hub := foldl updateEntry hub newServers in
  setIsConnecting hub false.

Definition callTool (hub : Hub) (serverName tool : string) (toolArguments : Json)
    (w : World) : (McpToolCallResponse + JsError) * World :=
  match findConnection hub serverName with
  | None =>
      (inr {| errName := "Error";
              errMessage := "No connection found for server: " +:+ serverName |}, w)
  | Some connection =>
      if isTrue (disabled (server connection)) then
        (inr {| errName := "Error";
                errMessage := "Server " +:+ JsString.quote +:+ serverName +:+ JsString.quote
                              +:+ " is disabled and cannot be used" |}, w)
      else clientRequest serverName tool toolArguments w
  end.
End WithRuntime.

(** [this.connections.map((conn) => conn.server.name)] *)
Definition connectionNames (hub : Hub) : list string :=
  (fun conn => name (server conn)) <$> connections hub.

(** [getServers]: the servers of the connections that are not disabled. *)
Definition getServers (hub : Hub) : list McpServer :=
  server <$> List.filter (fun conn => negb (isTrue (disabled (server conn))))
                         (connections hub).

(** [dispose]: the loop runs over the array [this.connections] held when
    it starts, while [deleteConnection] replaces the field by a filtered
    copy. *)
Definition dispose (hub : Hub) : Hub :=
  let hub := foldl (fun hub connection => deleteConnection hub (name (server connection)))
                   hub (connections hub) in
  setConnections hub [].

End McpHub.

(** ** The task orchestrator (task/Task.ts) *)

Module Task.

Import ContextManager.

(** [AssistantMessageContent] of types.ts: a text block or a tool use. *)
Inductive AssistantMessageContent :=
| TextContent (content : string) (partial : bool)
| ToolUse (name : string) (input : Json) (partial : bool).

Definition partialOf (c : AssistantMessageContent) : bool :=
  match c with
  | TextContent _ p => p
  | ToolUse _ _ p => p
  end.

Record ClineMessage := { say : string; text : string }.

(** The payloads of the events of [emitEvent], without their timestamps. *)
Inductive MessageData :=
| assistant_text (content : string) (partial : bool)
| tool_execution_started (toolName : string) (args : Json)
| token_usage (inputTokens outputTokens : Z)
| task_aborted.

Inductive TaskEvent :=
| task_started (task : string)
| task_completed
| tool_executed (toolName : string) (args : Json) (result : ToolResult)
| error (message : string)
| message (data : MessageData).

(** The calls [executeTool] makes to its two collaborators. *)
Inductive DispatchCall :=
| HubCallTool (serverName toolName : string) (args : Json)
| RegistryExecuteTool (name : string) (args : Json).

(** *** The regular expression of [parseAssistantMessage]

    [/<tool_use>\s*<name>(.*?)<\/name>\s*<input>(.*?)<\/input>\s*<\/tool_use>/gs]
    written as the backtracking matcher it denotes. A greedy [\s*] in
    front of a literal that starts with [<] never gives a space back; a
    lazy [(.*?)] (with flag [s] the dot takes every character) tries the
    rest of the pattern after 0, 1, 2, ... characters and stops at the
    first success. *)

Fixpoint literal (l s : string) : option string :=
  match l, s with
  | EmptyString, _ => Some s
  | String a l', String b s' => if Ascii.eqb a b then literal l' s' else None
  | String _ _, EmptyString => None
  end.

Fixpoint skipSpaces (s : string) : string :=
  match s with
  | String c s' => if JsString.isWhiteSpace c then skipSpaces s' else s
  | EmptyString => s
  end.

Fixpoint lazyAny {R : Type} (rest : string -> option R) (s : string)
    : option (string * R) :=
  match rest s with
  | Some r => Some (EmptyString, r)
  | None =>
      match s with
      | EmptyString => None
      | String c s' =>
          match lazyAny rest s' with
          | Some (captured, r) => Some (String c captured, r)
          | None => None
          end
      end
  end.

(** A literal, [\s*], a second literal, then the rest of the pattern: the
    shape the expression has three times. *)
Definition literalSpacesLiteral {R : Type} (l1 l2 : string)
    (rest : string -> option R) (s : string) : option R :=
  s ← literal l1 s;
  s ← literal l2 (skipSpaces s);
  rest s.

(** [<\/input>\s*<\/tool_use>]: what is left of the string after it. *)
Definition closeInput : string -> option string :=
  literalSpacesLiteral "</input>" "</tool_use>" Some.

(** [<\/name>\s*<input>(.*?)<\/input>\s*<\/tool_use>] *)
Definition closeName : string -> option (string * string) :=
  literalSpacesLiteral "</name>" "<input>" (lazyAny closeInput).

(** The whole pattern at the head of [s]: the two groups and the rest. *)
Definition matchHere : string -> option (string * (string * string)) :=
  literalSpacesLiteral "<tool_use>" "<name>" (lazyAny closeName).

(** What is left after a match, when [x] is appended to the string. *)
Definition extendRest (x : string) (r : string) : string := r +:+ x.
Definition extendInput (x : string) (r : string * string) : string * string :=
  (fst r, snd r +:+ x).
Definition extendMatch (x : string) (r : string * (string * string))
    : string * (string * string) :=
  (fst r, extendInput x (snd r)).

(** A string the whole expression matches: the tags around a name and a
    payload, with white space where the pattern has [\s*]. *)
Definition toolUseTag (ws1 n ws2 i ws3 : string) : string :=
  "<tool_use>" +:+ ws1 +:+ "<name>" +:+ n +:+ "</name>" +:+ ws2 +:+
  "<input>" +:+ i +:+ "</input>" +:+ ws3 +:+ "</tool_use>".

(** The result of [exec]: [index], [match[0]], [match[1]], [match[2]]. *)
Record RegExpMatch := {
  index : nat;
  whole : string;
  group1 : string;
  group2 : string
}.

Fixpoint search (s : string) (pos : nat) : option RegExpMatch :=
  match matchHere s with
  | Some (g1, (g2, rest)) =>
      Some {| index := pos;
              whole := JsString.takeStr (String.length s - String.length rest) s;
              group1 := g1; group2 := g2 |}
  | None =>
      match s with
      | EmptyString => None
      | String _ s' => search s' (S pos)
      end
  end.

(** [toolUseRegex.exec(message)] with the expression's [lastIndex]. *)
Definition exec (message : string) (lastIndex : nat) : option RegExpMatch :=
  if (String.length message <? lastIndex)%nat then None
  else search (JsString.dropStr lastIndex message) lastIndex.

Section WithRuntime.
Context `{Runtime}.

(** The [while] loop of [parseAssistantMessage]; every match is at least
    as long as the literals of the pattern, so the loop runs at most
    once per character of the message. *)
Fixpoint parseLoop (fuel : nat) (message : string) (lastIndex : nat)
    (content : list AssistantMessageContent)
    : list AssistantMessageContent * nat :=
  match fuel with
  | O => (content, lastIndex)
  | S fuel' =>
      match exec message lastIndex with
      | None => (content, lastIndex)
      | Some m =>
          let content :=
            if (lastIndex <? index m)%nat then
              let textContent :=
                JsString.trim (JsString.slice message lastIndex (index m)) in
              if JsString.isEmpty textContent then content
              else content ++ [TextContent textContent false]
            else content in
          let content :=
            match JSON_parse (group2 m) with
            | Some input => content ++ [ToolUse (group1 m) input false]
            | None => content ++ [TextContent (whole m) false]
            end in
          parseLoop fuel' message (index m + String.length (whole m)) content
      end
  end.

(** The blocks one pass of the loop pushes for the match [m]. *)
Definition blocksOfMatch (message : string) (lastIndex : nat) (m : RegExpMatch)
    : list AssistantMessageContent :=
  (if (lastIndex <? index m)%nat then
     let textContent := JsString.trim (JsString.slice message lastIndex (index m)) in
     if JsString.isEmpty textContent then [] else [TextContent textContent false]
   else []) ++
  [match JSON_parse (group2 m) with
   | Some input => ToolUse (group1 m) input false
   | None => TextContent (whole m) false
   end].

(** The blocks the loop has pushed when it ends: all of the parse but its
    partial last block. *)
Definition completedBlocks (message : string) : list AssistantMessageContent :=
  fst (parseLoop (S (String.length message)) message 0 []).

Definition parseAssistantMessage (message : string) : list AssistantMessageContent :=
  let '(content, lastIndex) := parseLoop (S (String.length message)) message 0 [] in
  let content :=
    if (lastIndex <? String.length message)%nat then
      let remainingText := JsString.trim (JsString.sliceFrom message lastIndex) in
      if JsString.isEmpty remainingText then content
      else content ++ [TextContent remainingText true]
    else content in
  if (length content =? 0)%nat && negb (JsString.isEmpty (JsString.trim message))
  then content ++ [TextContent message true]
  else content.

Record TaskState := {
  abort : bool;
  apiRequestCount : Z;
  didEditFile : bool;
  conversationHistoryDeletedRange : option (Z * Z);
  apiConversationHistory : list MessageParam;
  clineMessages : list ClineMessage;
  assistantMessageContent : list AssistantMessageContent;
  currentStreamingContentIndex : nat;
  isStreaming : bool;
  userMessageContentReady : bool;
  contextHistoryUpdates : HistoryUpdates;
  mcpHub : option McpHub.Hub;
  toolRegistry : gmap string ToolRegistry.Tool;
  events : list TaskEvent;
  dispatched : list DispatchCall;
  world : World
}.

Definition set_abort (st : TaskState) (v : bool) : TaskState :=
  {| abort := v;
     apiRequestCount := apiRequestCount st;
     didEditFile := didEditFile st;
     conversationHistoryDeletedRange := conversationHistoryDeletedRange st;
     apiConversationHistory := apiConversationHistory st;
     clineMessages := clineMessages st;
     assistantMessageContent := assistantMessageContent st;
     currentStreamingContentIndex := currentStreamingContentIndex st;
     isStreaming := isStreaming st;
     userMessageContentReady := userMessageContentReady st;
     contextHistoryUpdates := contextHistoryUpdates st;
     mcpHub := mcpHub st;
     toolRegistry := toolRegistry st;
     events := events st;
     dispatched := dispatched st;
     world := world st |}.

Definition set_apiRequestCount (st : TaskState) (v : Z) : TaskState :=
  {| abort := abort st;
     apiRequestCount := v;
     didEditFile := didEditFile st;
     conversationHistoryDeletedRange := conversationHistoryDeletedRange st;
     apiConversationHistory := apiConversationHistory st;
     clineMessages := clineMessages st;
     assistantMessageContent := assistantMessageContent st;
     currentStreamingContentIndex := currentStreamingContentIndex st;
     isStreaming := isStreaming st;
     userMessageContentReady := userMessageContentReady st;
     contextHistoryUpdates := contextHistoryUpdates st;
     mcpHub := mcpHub st;
     toolRegistry := toolRegistry st;
     events := events st;
     dispatched := dispatched st;
     world := world st |}.

Definition set_didEditFile (st : TaskState) (v : bool) : TaskState :=
  {| abort := abort st;
     apiRequestCount := apiRequestCount st;
     didEditFile := v;
     conversationHistoryDeletedRange := conversationHistoryDeletedRange st;
     apiConversationHistory := apiConversationHistory st;
     clineMessages := clineMessages st;
     assistantMessageContent := assistantMessageContent st;
     currentStreamingContentIndex := currentStreamingContentIndex st;
     isStreaming := isStreaming st;
     userMessageContentReady := userMessageContentReady st;
     contextHistoryUpdates := contextHistoryUpdates st;
     mcpHub := mcpHub st;
     toolRegistry := toolRegistry st;
     events := events st;
     dispatched := dispatched st;
     world := world st |}.

Definition set_conversationHistoryDeletedRange (st : TaskState) (v : option (Z * Z)) : TaskState :=
  {| abort := abort st;
     apiRequestCount := apiRequestCount st;
     didEditFile := didEditFile st;
     conversationHistoryDeletedRange := v;
     apiConversationHistory := apiConversationHistory st;
     clineMessages := clineMessages st;
     assistantMessageContent := assistantMessageContent st;
     currentStreamingContentIndex := currentStreamingContentIndex st;
     isStreaming := isStreaming st;
     userMessageContentReady := userMessageContentReady st;
     contextHistoryUpdates := contextHistoryUpdates st;
     mcpHub := mcpHub st;
     toolRegistry := toolRegistry st;
     events := events st;
     dispatched := dispatched st;
     world := world st |}.

Definition set_apiConversationHistory (st : TaskState) (v : list MessageParam) : TaskState :=
  {| abort := abort st;
     apiRequestCount := apiRequestCount st;
     didEditFile := didEditFile st;
     conversationHistoryDeletedRange := conversationHistoryDeletedRange st;
     apiConversationHistory := v;
     clineMessages := clineMessages st;
     assistantMessageContent := assistantMessageContent st;
     currentStreamingContentIndex := currentStreamingContentIndex st;
     isStreaming := isStreaming st;
     userMessageContentReady := userMessageContentReady st;
     contextHistoryUpdates := contextHistoryUpdates st;
     mcpHub := mcpHub st;
     toolRegistry := toolRegistry st;
     events := events st;
     dispatched := dispatched st;
     world := world st |}.

Definition set_clineMessages (st : TaskState) (v : list ClineMessage) : TaskState :=
  {| abort := abort st;
     apiRequestCount := apiRequestCount st;
     didEditFile := didEditFile st;
     conversationHistoryDeletedRange := conversationHistoryDeletedRange st;
     apiConversationHistory := apiConversationHistory st;
     clineMessages := v;
     assistantMessageContent := assistantMessageContent st;
     currentStreamingContentIndex := currentStreamingContentIndex st;
     isStreaming := isStreaming st;
     userMessageContentReady := userMessageContentReady st;
     contextHistoryUpdates := contextHistoryUpdates st;
     mcpHub := mcpHub st;
     toolRegistry := toolRegistry st;
     events := events st;
     dispatched := dispatched st;
     world := world st |}.

Definition set_assistantMessageContent (st : TaskState) (v : list AssistantMessageContent) : TaskState :=
  {| abort := abort st;
     apiRequestCount := apiRequestCount st;
     didEditFile := didEditFile st;
     conversationHistoryDeletedRange := conversationHistoryDeletedRange st;
     apiConversationHistory := apiConversationHistory st;
     clineMessages := clineMessages st;
     assistantMessageContent := v;
     currentStreamingContentIndex := currentStreamingContentIndex st;
     isStreaming := isStreaming st;
     userMessageContentReady := userMessageContentReady st;
     contextHistoryUpdates := contextHistoryUpdates st;
     mcpHub := mcpHub st;
     toolRegistry := toolRegistry st;
     events := events st;
     dispatched := dispatched st;
     world := world st |}.

Definition set_currentStreamingContentIndex (st : TaskState) (v : nat) : TaskState :=
  {| abort := abort st;
     apiRequestCount := apiRequestCount st;
     didEditFile := didEditFile st;
     conversationHistoryDeletedRange := conversationHistoryDeletedRange st;
     apiConversationHistory := apiConversationHistory st;
     clineMessages := clineMessages st;
     assistantMessageContent := assistantMessageContent st;
     currentStreamingContentIndex := v;
     isStreaming := isStreaming st;
     userMessageContentReady := userMessageContentReady st;
     contextHistoryUpdates := contextHistoryUpdates st;
     mcpHub := mcpHub st;
     toolRegistry := toolRegistry st;
     events := events st;
     dispatched := dispatched st;
     world := world st |}.

Definition set_isStreaming (st : TaskState) (v : bool) : TaskState :=
  {| abort := abort st;
     apiRequestCount := apiRequestCount st;
     didEditFile := didEditFile st;
     conversationHistoryDeletedRange := conversationHistoryDeletedRange st;
     apiConversationHistory := apiConversationHistory st;
     clineMessages := clineMessages st;
     assistantMessageContent := assistantMessageContent st;
     currentStreamingContentIndex := currentStreamingContentIndex st;
     isStreaming := v;
     userMessageContentReady := userMessageContentReady st;
     contextHistoryUpdates := contextHistoryUpdates st;
     mcpHub := mcpHub st;
     toolRegistry := toolRegistry st;
     events := events st;
     dispatched := dispatched st;
     world := world st |}.

Definition set_userMessageContentReady (st : TaskState) (v : bool) : TaskState :=
  {| abort := abort st;
     apiRequestCount := apiRequestCount st;
     didEditFile := didEditFile st;
     conversationHistoryDeletedRange := conversationHistoryDeletedRange st;
     apiConversationHistory := apiConversationHistory st;
     clineMessages := clineMessages st;
     assistantMessageContent := assistantMessageContent st;
     currentStreamingContentIndex := currentStreamingContentIndex st;
     isStreaming := isStreaming st;
     userMessageContentReady := v;
     contextHistoryUpdates := contextHistoryUpdates st;
     mcpHub := mcpHub st;
     toolRegistry := toolRegistry st;
     events := events st;
     dispatched := dispatched st;
     world := world st |}.

Definition set_contextHistoryUpdates (st : TaskState) (v : HistoryUpdates) : TaskState :=
  {| abort := abort st;
     apiRequestCount := apiRequestCount st;
     didEditFile := didEditFile st;
     conversationHistoryDeletedRange := conversationHistoryDeletedRange st;
     apiConversationHistory := apiConversationHistory st;
     clineMessages := clineMessages st;
     assistantMessageContent := assistantMessageContent st;
     currentStreamingContentIndex := currentStreamingContentIndex st;
     isStreaming := isStreaming st;
     userMessageContentReady := userMessageContentReady st;
     contextHistoryUpdates := v;
     mcpHub := mcpHub st;
     toolRegistry := toolRegistry st;
     events := events st;
     dispatched := dispatched st;
     world := world st |}.

Definition set_mcpHub (st : TaskState) (v : option McpHub.Hub) : TaskState :=
  {| abort := abort st;
     apiRequestCount := apiRequestCount st;
     didEditFile := didEditFile st;
     conversationHistoryDeletedRange := conversationHistoryDeletedRange st;
     apiConversationHistory := apiConversationHistory st;
     clineMessages := clineMessages st;
     assistantMessageContent := assistantMessageContent st;
     currentStreamingContentIndex := currentStreamingContentIndex st;
     isStreaming := isStreaming st;
     userMessageContentReady := userMessageContentReady st;
     contextHistoryUpdates := contextHistoryUpdates st;
     mcpHub := v;
     toolRegistry := toolRegistry st;
     events := events st;
     dispatched := dispatched st;
     world := world st |}.

Definition set_toolRegistry (st : TaskState) (v : gmap string ToolRegistry.Tool) : TaskState :=
  {| abort := abort st;
     apiRequestCount := apiRequestCount st;
     didEditFile := didEditFile st;
     conversationHistoryDeletedRange := conversationHistoryDeletedRange st;
     apiConversationHistory := apiConversationHistory st;
     clineMessages := clineMessages st;
     assistantMessageContent := assistantMessageContent st;
     currentStreamingContentIndex := currentStreamingContentIndex st;
     isStreaming := isStreaming st;
     userMessageContentReady := userMessageContentReady st;
     contextHistoryUpdates := contextHistoryUpdates st;
     mcpHub := mcpHub st;
     toolRegistry := v;
     events := events st;
     dispatched := dispatched st;
     world := world st |}.

Definition set_events (st : TaskState) (v : list TaskEvent) : TaskState :=
  {| abort := abort st;
     apiRequestCount := apiRequestCount st;
     didEditFile := didEditFile st;
     conversationHistoryDeletedRange := conversationHistoryDeletedRange st;
     apiConversationHistory := apiConversationHistory st;
     clineMessages := clineMessages st;
     assistantMessageContent := assistantMessageContent st;
     currentStreamingContentIndex := currentStreamingContentIndex st;
     isStreaming := isStreaming st;
     userMessageContentReady := userMessageContentReady st;
     contextHistoryUpdates := contextHistoryUpdates st;
     mcpHub := mcpHub st;
     toolRegistry := toolRegistry st;
     events := v;
     dispatched := dispatched st;
     world := world st |}.

Definition set_dispatched (st : TaskState) (v : list DispatchCall) : TaskState :=
  {| abort := abort st;
     apiRequestCount := apiRequestCount st;
     didEditFile := didEditFile st;
     conversationHistoryDeletedRange := conversationHistoryDeletedRange st;
     apiConversationHistory := apiConversationHistory st;
     clineMessages := clineMessages st;
     assistantMessageContent := assistantMessageContent st;
     currentStreamingContentIndex := currentStreamingContentIndex st;
     isStreaming := isStreaming st;
     userMessageContentReady := userMessageContentReady st;
     contextHistoryUpdates := contextHistoryUpdates st;
     mcpHub := mcpHub st;
     toolRegistry := toolRegistry st;
     events := events st;
     dispatched := v;
     world := world st |}.

Definition set_world (st : TaskState) (v : World) : TaskState :=
  {| abort := abort st;
     apiRequestCount := apiRequestCount st;
     didEditFile := didEditFile st;
     conversationHistoryDeletedRange := conversationHistoryDeletedRange st;
     apiConversationHistory := apiConversationHistory st;
     clineMessages := clineMessages st;
     assistantMessageContent := assistantMessageContent st;
     currentStreamingContentIndex := currentStreamingContentIndex st;
     isStreaming := isStreaming st;
     userMessageContentReady := userMessageContentReady st;
     contextHistoryUpdates := contextHistoryUpdates st;
     mcpHub := mcpHub st;
     toolRegistry := toolRegistry st;
     events := events st;
     dispatched := dispatched st;
     world := v |}.

Definition emitEvent (st : TaskState) (e : TaskEvent) : TaskState :=
  set_events st (events st ++ [e]).

Definition userText (t : string) : MessageParam :=
  {| role := user; content := ArrayContent [TextBlock t] |}.

Definition pushHistory (st : TaskState) (m : MessageParam) : TaskState :=
  set_apiConversationHistory st (apiConversationHistory st ++ [m]).

Definition pushClineMessage (st : TaskState) (m : ClineMessage) : TaskState :=
  set_clineMessages st (clineMessages st ++ [m]).

(** The message [executeTool] appends for a result, and for a failure. *)
Definition toolResultMessage (toolName resultText : string) : MessageParam :=
  userText ("Tool " +:+ JsString.quote +:+ toolName +:+ JsString.quote
            +:+ " result: " +:+ resultText).

Definition toolFailedMessage (toolName errorMessage : string) : MessageParam :=
  userText ("Tool " +:+ JsString.quote +:+ toolName +:+ JsString.quote
            +:+ " failed: " +:+ errorMessage).

(** [mcpResult.content.map(c => c.text || "").join("\n")] *)
Definition mcpResultText (r : McpToolCallResponse) : string :=
  JsString.join (List.map (fun c => default EmptyString (itemText c)) (responseContent r))
                (String "010" EmptyString).

(** The body of the [try] of [executeTool] up to [result]: the branch
    taken, the call made, and the result or the error thrown. *)
Definition dispatch (st : TaskState) (toolName : string) (args : Json)
    : (ToolResult + JsError) * TaskState :=
  match mcpHub st with
  | Some hub =>
      if JsString.includes toolName "/" then
        match JsString.splitLimit toolName "/" 2 with
        | serverName :: mcpToolName :: _ =>
            let st := set_dispatched st
                        (dispatched st ++ [HubCallTool serverName mcpToolName args]) in
            match McpHub.callTool hub serverName mcpToolName args (world st) with
            | (inl mcpResult, w) =>
                (inl {| success := negb (isError mcpResult);
                        resultContent := mcpResultText mcpResult |},
                 set_world st w)
            | (inr e, w) => (inr e, set_world st w)
            end
        | _ =>
            (* not reached: a name that includes the separator has two pieces *)
            (inr {| errName := "Error";
                    errMessage := "No connection found for server: undefined" |}, st)
        end
      else
        let st := set_dispatched st (dispatched st ++ [RegistryExecuteTool toolName args]) in
        let '(result, w) :=
          ToolRegistry.executeTool (toolRegistry st) toolName args (world st) in
        (inl result, set_world st w)
  | None =>
      let st := set_dispatched st (dispatched st ++ [RegistryExecuteTool toolName args]) in
      let '(result, w) :=
        ToolRegistry.executeTool (toolRegistry st) toolName args (world st) in
      (inl result, set_world st w)
  end.

Definition executeTool (st : TaskState) (toolName : string) (args : Json) : TaskState :=
  let st := emitEvent st (message (tool_execution_started toolName args)) in
  match dispatch st toolName args with
  | (inl result, st) =>
      let st := pushHistory st (toolResultMessage toolName (resultContent result)) in
      let st := pushClineMessage st
                  {| say := "tool_result";
                     text := toolName +:+ ": " +:+ resultContent result |} in
      let st := emitEvent st (tool_executed toolName args result) in
      if String.eqb toolName "write_to_file" || String.eqb toolName "replace_in_file"
      then set_didEditFile st true else st
  | (inr e, st) =>
      let errorMessage := errMessage e in
      let st := emitEvent st (error errorMessage) in
      pushHistory st (toolFailedMessage toolName errorMessage)
  end.

(** What [executeTool] appends to the history, from the result or the
    error of the dispatch. *)
Definition outcomeMessage (toolName : string) (r : ToolResult + JsError)
    : MessageParam :=
  match r with
  | inl result => toolResultMessage toolName (resultContent result)
  | inr e => toolFailedMessage toolName (errMessage e)
  end.

(** A block the parser will not extend any more. *)
Definition complete (c : AssistantMessageContent) : Prop := partialOf c = false.

Definition toolNameOf (c : AssistantMessageContent) : string :=
  match c with
  | ToolUse n _ _ => n
  | TextContent _ _ => EmptyString
  end.

(** [m] is the message [executeTool] appends for the tool use [c]: the
    result of the tool, or its failure, under the name of [c]. *)
Definition answers (c : AssistantMessageContent) (m : MessageParam) : Prop :=
  exists r, m = outcomeMessage (toolNameOf c) r.

(** The fields that only the loop itself writes: neither [executeTool] nor
    [presentAssistantMessage] assigns them. *)
Definition loopFields (st : TaskState) :=
  (abort st, apiRequestCount st, conversationHistoryDeletedRange st,
   contextHistoryUpdates st, mcpHub st, toolRegistry st, isStreaming st).

(** [content.name && content.input] *)
Definition executable (c : AssistantMessageContent) : bool :=
  match c with
  | ToolUse n input _ => negb (JsString.isEmpty n) && truthy input
  | TextContent _ _ => false
  end.

(** What the tools of a task are looked up in and run in, and the calls
    made so far. *)
Definition toolFields (st : TaskState) :=
  (mcpHub st, toolRegistry st, world st, dispatched st).

(** The tool uses [blocks] dispatched one after the other from the state
    [st]: for each block the message [executeTool] makes from the result
    or the failure of dispatching its name with its input, in the state
    the blocks before it left; and the state after the last. *)
Fixpoint runTools (st : TaskState) (blocks : list AssistantMessageContent)
    : list MessageParam * TaskState :=
  match blocks with
  | [] => ([], st)
  | TextContent _ _ :: rest => runTools st rest
  | ToolUse n input _ :: rest =>
      let '(outcome, st) := dispatch st n input in
      let '(msgs, st) := runTools st rest in
      (outcomeMessage n outcome :: msgs, st)
  end.

(** The [switch] of [presentAssistantMessage] on one block. *)
Definition presentBlock (st : TaskState) (c : AssistantMessageContent) : TaskState :=
  match c with
  | TextContent t p => emitEvent st (message (assistant_text t p))
  | ToolUse n input _ =>
      if executable c then executeTool st n input else st
  end.

(** [presentAssistantMessage] calls itself once per block it gets past:
    [fuel] bounds the depth of these calls. *)
Fixpoint presentAssistantMessageN (fuel : nat) (st : TaskState) : TaskState :=
  match fuel with
  | O => st
  | S fuel' =>
      if (length (assistantMessageContent st) <=? currentStreamingContentIndex st)%nat
      then set_userMessageContentReady st true
      else
        match assistantMessageContent st !! currentStreamingContentIndex st with
        | None => st
        | Some c =>
            let st := presentBlock st c in
            if partialOf c then st
            else
              let st := set_currentStreamingContentIndex st
                          (S (currentStreamingContentIndex st)) in
              if (currentStreamingContentIndex st <? length (assistantMessageContent st))%nat
              then presentAssistantMessageN fuel' st
              else set_userMessageContentReady st true
        end
  end.

Definition presentAssistantMessage (st : TaskState) : TaskState :=
  presentAssistantMessageN (S (length (assistantMessageContent st))) st.

(** The [for await] over the stream: the error the stream throws when
    asked for the chunk after its last (none when the loop was left by
    [break] before), the text so far and the state. *)
Fixpoint consumeChunks (cs : list ApiStreamChunk) (thrown : option JsError)
    (assistantMessage : string) (st : TaskState)
    : option JsError * string * TaskState :=
  match cs with
  | [] => (thrown, assistantMessage, st)
  | chunk :: rest =>
      if abort st then (None, assistantMessage, st)
      else
        match chunk with
        | TextChunk t =>
            let assistantMessage := assistantMessage +:+ default EmptyString t in
            let st := set_assistantMessageContent st
                        (parseAssistantMessage assistantMessage) in
            consumeChunks rest thrown assistantMessage (presentAssistantMessage st)
        | UsageChunk i o =>
            consumeChunks rest thrown assistantMessage
              (emitEvent st (message (token_usage i o)))
        | ReasoningChunk => consumeChunks rest thrown assistantMessage st
        end
  end.

(** The texts the loop takes from the chunks of a stream:
    [chunk.text || ""] of each text chunk. *)
Definition chunkTexts (cs : list ApiStreamChunk) : list string :=
  omap (fun c => match c with
                 | TextChunk t => Some (default EmptyString t)
                 | _ => None
                 end) cs.

(** A chunk the [switch] of the loop takes no text from. *)
Definition carriesNoText (chunk : ApiStreamChunk) : Prop :=
  match chunk with TextChunk _ => False | _ => True end.

(** [isContextWindowExceededError] of api/index.ts. *)
Definition isContextWindowExceededError (e : JsError) : bool :=
  String.eqb (errName e) "ContextWindowExceededError"
  || (negb (JsString.isEmpty (errMessage e))
      && JsString.includes (errMessage e) "maximum context length")
  || (negb (JsString.isEmpty (errMessage e))
      && JsString.includes (errMessage e) "context window").

(** The compaction both paths of the loop apply: a new range from the
    whole history and the current range, and the notice. *)
Definition compact (st : TaskState) (keep : Keep) : TaskState :=
  let truncationRange :=
    getNextTruncationRange (apiConversationHistory st)
      (conversationHistoryDeletedRange st) keep in
  let st := set_conversationHistoryDeletedRange st (Some truncationRange) in
  set_contextHistoryUpdates st
    (addTruncationNotice (contextHistoryUpdates st) (Date_now (world st))).

(** The error [pWaitFor] throws when the condition is still false. *)
Definition timeoutError : JsError :=
  {| errName := "TimeoutError";
     errMessage := "Promise timed out after 300000 milliseconds" |}.

Definition hasCompletionTool (content : list AssistantMessageContent) : bool :=
  existsb (fun c => match c with
                    | ToolUse n _ _ => String.eqb n "attempt_completion"
                    | TextContent _ _ => false
                    end) content.

(** How the body of the [while] ends. *)
Inductive Step :=
| Continue
| Break
| Throw (e : JsError).

(** The [try] block of one iteration. *)
Definition tryIteration (st : TaskState) : Step * TaskState :=
  let contextMetadata :=
    getContextMetadata (apiConversationHistory st) maxAllowedSize
      (conversationHistoryDeletedRange st) in
  let st := if shouldTruncate contextMetadata then compact st half else st in
  let messages := truncatedMessages contextMetadata in
  let st := set_apiRequestCount st (apiRequestCount st + 1) in
  let st := set_isStreaming st true in
  let st := set_assistantMessageContent st [] in
  let st := set_currentStreamingContentIndex st 0%nat in
  let st := set_userMessageContentReady st false in
  let '(stream, w) := createMessage messages (world st) in
  let st := set_world st w in
  let '(failure, assistantMessage, st) :=
    consumeChunks (chunks stream) (thrown stream) EmptyString st in
  match failure with
  | Some e => (Throw e, st)
  | None =>
      let st := set_isStreaming st false in
      if abort st then (Break, st)
      else
        let st :=
          if JsString.isEmpty assistantMessage then st
          else
            let st := pushHistory st
                        {| role := assistant;
                           content := ArrayContent [TextBlock assistantMessage] |} in
            pushClineMessage st {| say := "assistant_message"; text := assistantMessage |} in
        if negb (userMessageContentReady st) then (Throw timeoutError, st)
        else if hasCompletionTool (assistantMessageContent st)
        then (Break, emitEvent st task_completed)
        else (Continue, st)
  end.

(** One iteration with its [catch]. *)
Definition iteration (st : TaskState) : Step * TaskState :=
  match tryIteration st with
  | (Throw e, st) =>
      if isContextWindowExceededError e then (Continue, compact st quarter)
      else (Throw e, emitEvent st (error (errMessage e)))
  | other => other
  end.

(** How [executeTaskLoop] ends: it returns, or it throws. *)
Inductive LoopEnd :=
| Returned
| Threw (e : JsError)
| StillRunning.

(** [executeTaskLoop], for at most [fuel] iterations. *)
Fixpoint executeTaskLoop (fuel : nat) (st : TaskState) : LoopEnd * TaskState :=
  match fuel with
  | O => (StillRunning, st)
  | S fuel' =>
      if abort st then (Returned, st)
      else
        match iteration st with
        | (Continue, st) => executeTaskLoop fuel' st
        | (Break, st) => (Returned, st)
        | (Throw e, st) => (Threw e, st)
        end
  end.

(** [startTask] without images. *)
Definition startTask (fuel : nat) (st : TaskState) (task : string)
    : LoopEnd * TaskState :=
  let st := emitEvent st (task_started task) in
  let st := pushHistory st
              (userText ("<task>" +:+ String "010" task +:+ String "010" "</task>")) in
  let st := pushClineMessage st {| say := "task_started"; text := task |} in
  match executeTaskLoop fuel st with
  | (Threw e, st) => (Threw e, emitEvent st (error (errMessage e)))
  | other => other
  end.
(** [abort()]; the name [abort] is the one of the state's field. *)
Definition abortTask (st : TaskState) : TaskState :=
  let st := set_abort st true in
  let st := set_isStreaming st false in
  emitEvent st (message task_aborted).

(** [continueTask] without images. *)
Definition continueTask (fuel : nat) (st : TaskState) (userMessage : string)
    : LoopEnd * TaskState :=
  let st := pushHistory st (userText userMessage) in
  let st := pushClineMessage st {| say := "user_message"; text := userMessage |} in
  executeTaskLoop fuel st.
End WithRuntime.

End Task.

(** ** The provider side (api/index.ts, api/types.ts, api/providers/anthropic.ts) *)

Module Api.

Import PrimFloat.

(** A JavaScript number that holds an integer, as the double it is, for
    the integers below 2^53 in magnitude, which a double holds exactly. *)
Definition toNumber (z : Z) : float :=
  if z <? 0 then PrimFloat.opp (PrimFloat.of_uint63 (Uint63.of_Z (- z)))
  else PrimFloat.of_uint63 (Uint63.of_Z z).

(** The doubles 0.8 and 0.1 are written in hexadecimal: 0x1.999999999999ap-1
    and 0x1.999999999999ap-4. *)

(** [Math.floor] of a double, as an integer; none for NaN and the
    infinities. *)
Definition Math_floor (x : float) : option Z :=
  match FloatOps.Prim2SF x with
  | SpecFloat.S754_zero _ => Some 0
  | SpecFloat.S754_finite negative m e =>
      let magnitude := if 0 <=? e then Z.pos m * 2 ^ e else Z.pos m / 2 ^ (- e) in
      let whole := (0 <=? e) || (Z.pos m mod 2 ^ (- e) =? 0) in
      Some (if negative then (if whole then - magnitude else - magnitude - 1)
            else magnitude)
  | _ => None
  end.

(** [ModelInfo] of api/types.ts. *)
Record ModelInfo := {
  id : string;
  modelName : string;
  maxTokens : Z;
  supportsImages : bool;
  inputPrice : float;
  outputPrice : float
}.

(** The properties an object literal inherits from [Object.prototype].
    [modelMap[modelId]] finds them for a model id of that name; what it
    finds, a function or for [__proto__] the prototype itself, is truthy
    and has none of the fields of a [ModelInfo]. *)
Definition objectPrototypeMembers : list string :=
  ["constructor"; "hasOwnProperty"; "isPrototypeOf"; "propertyIsEnumerable";
   "toLocaleString"; "toString"; "valueOf"; "__proto__";
   "__defineGetter__"; "__defineSetter__"; "__lookupGetter__"; "__lookupSetter__"].

(** What [modelMap[modelId] || {...}] is: an entry of the table or the
    default, or a member the table inherits. *)
Inductive ModelValue :=
| Entry (info : ModelInfo)
| Inherited (member : string).

(** [model.maxTokens], [undefined] on an inherited member. *)
Definition maxTokensOf (model : ModelValue) : option Z :=
  match model with
  | Entry info => Some (maxTokens info)
  | Inherited _ => None
  end.

(** [model.inputPrice!] and [model.outputPrice!] in arithmetic, where
    [undefined] is NaN. *)
Definition inputPriceOf (model : ModelValue) : float :=
  match model with
  | Entry info => inputPrice info
  | Inherited _ => nan
  end.

Definition outputPriceOf (model : ModelValue) : float :=
  match model with
  | Entry info => outputPrice info
  | Inherited _ => nan
  end.

(** [AnthropicHandler.getModelInfo]: the table, what the table inherits,
    and the entry of a model the table does not have. *)
Definition getModelInfo (modelId : string) : ModelValue :=
  if String.eqb modelId "claude-3-5-sonnet-20241022" then
    Entry {| id := "claude-3-5-sonnet-20241022"; modelName := "Claude 3.5 Sonnet";
             maxTokens := 200000; supportsImages := true;
             inputPrice := 3.0; outputPrice := 15.0 |}
  else if String.eqb modelId "claude-3-5-haiku-20241022" then
    Entry {| id := "claude-3-5-haiku-20241022"; modelName := "Claude 3.5 Haiku";
             maxTokens := 200000; supportsImages := true;
             inputPrice := 0x1.999999999999ap-1; outputPrice := 4.0 |}
  else if String.eqb modelId "claude-3-opus-20240229" then
    Entry {| id := "claude-3-opus-20240229"; modelName := "Claude 3 Opus";
             maxTokens := 200000; supportsImages := true;
             inputPrice := 15.0; outputPrice := 75.0 |}
  else if existsb (String.eqb modelId) objectPrototypeMembers then Inherited modelId
  else
    Entry {| id := modelId; modelName := modelId;
             maxTokens := 200000; supportsImages := true;
             inputPrice := 3.0; outputPrice := 15.0 |}.

(** [getContextWindowInfo]: [model.maxTokens] and
    [Math.floor(contextWindow * 0.8)]; the first is none for [undefined],
    the second for NaN. *)
Definition getContextWindowInfo (model : ModelValue) : option Z * option Z :=
  let contextWindow := maxTokensOf model in
  let maxAllowedSize :=
    Math_floor ((match contextWindow with
                 | Some tokens => toNumber tokens
                 | None => nan
                 end) * 0x1.999999999999ap-1)%float in
  (contextWindow, maxAllowedSize).

(** [AnthropicHandler.calculateCost] *)
Definition calculateCost (model : ModelValue)
    (inputTokens outputTokens cacheWriteTokens cacheReadTokens : Z) : float :=
  let inputCost := ((toNumber inputTokens / 1000000) * inputPriceOf model)%float in
  let outputCost := ((toNumber outputTokens / 1000000) * outputPriceOf model)%float in
  let cacheWriteCost := ((toNumber cacheWriteTokens / 1000000) * inputPriceOf model)%float in
  let cacheReadCost :=
    ((toNumber cacheReadTokens / 1000000)
     * (inputPriceOf model * 0x1.999999999999ap-4))%float in
  (inputCost + outputCost + cacheWriteCost + cacheReadCost)%float.

(** *** Errors (api/types.ts) *)

(** [ApiError] and its subclasses [ContextWindowExceededError] and
    [RateLimitError]: the subclass is the [name]. *)
Record ApiError := {
  name : string;
  message : string;
  statusCode : option Z;
  provider : option string;
  model : option string
}.

Definition newApiError (message : string) (statusCode : option Z)
    (provider model : option string) : ApiError :=
  {| name := "ApiError"; message := message; statusCode := statusCode;
     provider := provider; model := model |}.

Definition ContextWindowExceededError (provider model : string) : ApiError :=
  {| name := "ContextWindowExceededError";
     message := "Context window exceeded for " +:+ provider +:+ "/" +:+ model;
     statusCode := Some 400; provider := Some provider; model := Some model |}.

(** The error as the task loop sees it thrown. *)
Definition toJsError (e : ApiError) : JsError :=
  {| errName := name e; errMessage := message e |}.

(** [isRateLimitError] of api/index.ts. *)
Definition isRateLimitError (e : ApiError) : bool :=
  String.eqb (name e) "RateLimitError"
  || bool_decide (statusCode e = Some 429)
  || (negb (JsString.isEmpty (message e)) && JsString.includes (message e) "rate limit").

(** What the SDK throws: an [Anthropic.APIError] with its status, message
    and [retry-after] header, another value with the [message] it has (if
    any, and a string), or [null] / [undefined]. *)
Inductive Thrown :=
| APIError (status : option Z) (message : string) (retryAfter : option string)
| OtherValue (message : option string)
| Nullish (isUndefined : bool).

(** The events of the stream of the SDK that [createMessage] looks at. *)
Inductive Delta := text_delta (text : string) | other_delta.

Inductive StreamEvent :=
| message_start (input_tokens : Z)
| content_block_delta (delta : Delta)
| message_delta (output_tokens : option Z)
| message_stop
| other_event.

(** The chunks [createMessage] yields. *)
Inductive Chunk :=
| text (text : string)
| usage (inputTokens outputTokens cacheWriteTokens cacheReadTokens : Z) (totalCost : float).

(** As the task loop reads them. *)
Definition toApiStreamChunk (c : Chunk) : ApiStreamChunk :=
  match c with
  | text t => TextChunk (Some t)
  | usage i o _ _ _ => UsageChunk i o
  end.

Section Numbers.
(** [parseInt] (none for NaN) and the conversion of a number to a string
    in a template literal. *)
Context (parseInt : string -> option Z) (Number_toString : Z -> string).

Definition RateLimitError (provider : string) (retryAfter : option Z) : ApiError :=
  {| name := "RateLimitError";
     message := "Rate limit exceeded for " +:+ provider +:+
                match retryAfter with
                | Some seconds =>
                    if seconds =? 0 then EmptyString
                    else ", retry after " +:+ Number_toString seconds +:+ "s"
                | None => EmptyString
                end;
     statusCode := Some 429; provider := Some provider; model := None |}.

(** [AnthropicHandler.handleError]; reading [message] of [null] or
    [undefined] throws a [TypeError] instead. *)
Definition handleError (configModel : string) (error : Thrown) : ApiError + JsError :=
  match error with
  | APIError status errorMessage retryAfterHeader =>
      let message := if JsString.isEmpty errorMessage then "Unknown API error"
                     else errorMessage in
      if bool_decide (status = Some 400) && JsString.includes message "maximum context length"
      then inl (ContextWindowExceededError "anthropic" configModel)
      else if bool_decide (status = Some 429) then
        let retryAfter :=
          match retryAfterHeader with
          | Some header => if JsString.isEmpty header then None else parseInt header
          | None => None
          end in
        inl (RateLimitError "anthropic" retryAfter)
      else inl (newApiError message status (Some "anthropic") (Some configModel))
  | OtherValue errorMessage =>
      let message :=
        match errorMessage with
        | Some m => if JsString.isEmpty m then "Unknown error occurred" else m
        | None => "Unknown error occurred"
        end in
      inl (newApiError message None (Some "anthropic") (Some configModel))
  | Nullish isUndefined =>
      inr {| errName := "TypeError";
             errMessage := "Cannot read properties of "
                           +:+ (if isUndefined then "undefined" else "null")
                           +:+ " (reading 'message')" |}
  end.

(** The loop of [createMessage] over the events: the chunks it yields,
    with the counters it keeps. *)
Fixpoint yieldChunks (modelInfo : ModelValue) (inputTokens outputTokens : Z)
    (events : list StreamEvent) : list Chunk :=
  match events with
  | [] => []
  | event :: rest =>
      match event with
      | message_start input_tokens => yieldChunks modelInfo input_tokens outputTokens rest
      | content_block_delta (text_delta t) =>
          text t :: yieldChunks modelInfo inputTokens outputTokens rest
      | content_block_delta other_delta => yieldChunks modelInfo inputTokens outputTokens rest
      | message_delta (Some output_tokens) =>
          yieldChunks modelInfo inputTokens output_tokens rest
      | message_delta None => yieldChunks modelInfo inputTokens outputTokens rest
      | message_stop =>
          usage inputTokens outputTokens 0 0
                (calculateCost modelInfo inputTokens outputTokens 0 0)
          :: yieldChunks modelInfo inputTokens outputTokens rest
      | other_event => yieldChunks modelInfo inputTokens outputTokens rest
      end
  end.

(** [AnthropicHandler.createMessage] on a stream of the SDK that delivers
    [events] and then ends, or throws [failure]: the chunks yielded, and
    what the generator throws after them. *)
Definition createMessage (configModel : string) (events : list StreamEvent)
    (failure : option Thrown) : list Chunk * option (ApiError + JsError) :=
  (yieldChunks (getModelInfo configModel) 0 0 events,
   handleError configModel <$> failure).

(** The generator as the task loop iterates it. *)
Definition toStreamScript (result : list Chunk * option (ApiError + JsError)) : StreamScript :=
  {| chunks := toApiStreamChunk <$> fst result;
     thrown := (fun e => match e with inl apiError => toJsError apiError | inr other => other end)
               <$> snd result |}.
End Numbers.

(** *** [buildApiHandler] (api/index.ts) *)

Record ApiConfiguration := {
  apiProvider : string;
  anthropicApiKey : option string;
  configuredModel : option string;
  configuredMaxTokens : option Z;
  temperature : option Q;
  baseUrl : option string
}.

(** [ClineError] of types.ts: its message and its code. *)
Record ClineError := { clineMessage : string; code : string }.

(** The configuration [AnthropicHandler] is built with. *)
Record AnthropicConfig := {
  base : ApiConfiguration;
  apiKey : string;
  handlerModel : string
}.

Definition notImplemented (providerName : string) : ClineError :=
  {| clineMessage := providerName +:+ " provider not yet implemented";
     code := "PROVIDER_NOT_IMPLEMENTED" |}.

Definition buildApiHandler (config : ApiConfiguration) : AnthropicConfig + ClineError :=
  if String.eqb (apiProvider config) "anthropic" then
    match anthropicApiKey config with
    | Some key =>
        if JsString.isEmpty key
        then inr {| clineMessage := "Anthropic API key is required"; code := "MISSING_API_KEY" |}
        else inl {| base := config; apiKey := key;
                    handlerModel :=
                      match configuredModel config with
                      | Some m => if JsString.isEmpty m then "claude-3-5-sonnet-20241022" else m
                      | None => "claude-3-5-sonnet-20241022"
                      end |}
    | None => inr {| clineMessage := "Anthropic API key is required"; code := "MISSING_API_KEY" |}
    end
  else if String.eqb (apiProvider config) "openai" then inr (notImplemented "OpenAI")
  else if String.eqb (apiProvider config) "openrouter" then inr (notImplemented "OpenRouter")
  else if String.eqb (apiProvider config) "ollama" then inr (notImplemented "Ollama")
  else if String.eqb (apiProvider config) "gemini" then inr (notImplemented "Gemini")
  else inr {| clineMessage := "Unsupported API provider: " +:+ apiProvider config;
              code := "UNSUPPORTED_PROVIDER" |}.
End Api.

(** ** More of [String.prototype]: [replace] *)

Module JsReplace.
Import JsString.

(** The first occurrence of [sub] in [s]: what is before it and what is
    after it. *)
Fixpoint cut (sub s : string) : option (string * string) :=
  if String.prefix sub s then Some (EmptyString, dropStr (String.length sub) s)
  else
    match s with
    | EmptyString => None
    | String c s' =>
        match cut sub s' with
        | Some (before, after) => Some (String c before, after)
        | None => None
        end
    end.

(** [GetSubstitution] for a pattern that is a string, so without
    captures: [$$] is a dollar sign, [$&] the matched text, [$`] the text
    before the match and [$'] the text after it; a dollar sign in front of
    anything else stands for itself. *)
Fixpoint getSubstitution (matched before after replacement : string) : string :=
  match replacement with
  | EmptyString => EmptyString
  | String "$" (String "$" rest) => String "$" (getSubstitution matched before after rest)
  | String "$" (String "&" rest) => matched +:+ getSubstitution matched before after rest
  | String "$" (String "`" rest) => before +:+ getSubstitution matched before after rest
  | String "$" (String "'" rest) => after +:+ getSubstitution matched before after rest
  | String c rest => String c (getSubstitution matched before after rest)
  end.

(** [s.replace(searchValue, replaceValue)] with two strings: the first
    occurrence only. *)
Definition replace (s searchValue replaceValue : string) : string :=
  match cut searchValue s with
  | Some (before, after) =>
      before +:+ getSubstitution searchValue before after replaceValue +:+ after
  | None => s
  end.

(** [s.replace(/\s+/g, " ")]: every run of white space becomes one space. *)
Fixpoint collapseWhiteSpace (s : string) : string :=
  match s with
  | EmptyString => EmptyString
  | String c s' =>
      if isWhiteSpace c then
        match s' with
        | String d _ =>
            if isWhiteSpace d then collapseWhiteSpace s'
            else String " " (collapseWhiteSpace s')
        | EmptyString => String " " EmptyString
        end
      else String c (collapseWhiteSpace s')
  end.

(** [s.replace(/[...]/g, "")] for a class of characters. *)
Fixpoint removeAll (inClass : ascii -> bool) (s : string) : string :=
  match s with
  | EmptyString => EmptyString
  | String c s' => if inClass c then removeAll inClass s' else String c (removeAll inClass s')
  end.
End JsReplace.

(** ** tools/command-execution.ts *)

Module CommandExecution.

(** The class [[;&|`$(){}[\]]] of [sanitizeCommand]. *)
Definition isShellMetacharacter (c : ascii) : bool :=
  existsb (Ascii.eqb c) [";"; "&"; "|"; "`"; "$"; "("; ")"; "{"; "}"; "["; "]"]%char.

Definition sanitizeCommand (command : string) : string :=
  JsString.trim
    (JsReplace.collapseWhiteSpace (JsReplace.removeAll isShellMetacharacter command)).

End CommandExecution.

(** ** tools/file-operations.ts *)

Module FileOperations.

(** [fs/promises] and [path], as far as [FileOperations] calls them;
    [Disk] is the state of the file system. Reading does not change it. *)
Class FileSystem := {
  Disk : Type;
  path_isAbsolute : string -> bool;
  path_resolve : string -> string -> string;
  path_dirname : string -> string;
  fs_readFile : string -> Disk -> string + JsError;
  fs_writeFile : string -> string -> Disk -> option JsError * Disk;
  fs_mkdir : string -> Disk -> option JsError * Disk;
  fs_access : string -> Disk -> bool
}.

Section WithFileSystem.
Context `{FileSystem}.
Variable workingDirectory : string.

Definition resolveFilePath (filePath : string) : string :=
  if path_isAbsolute filePath then filePath
  else path_resolve workingDirectory filePath.

Definition newline : string := String "010" EmptyString.

Definition readFile (filePath : string) (disk : Disk) : ToolResult :=
  match fs_readFile (resolveFilePath filePath) disk with
  | inl content =>
      {| success := true;
         resultContent := "File content of " +:+ filePath +:+ ":" +:+ newline +:+ newline
                          +:+ content |}
  | inr error =>
      {| success := false;
         resultContent := "Error reading file " +:+ filePath +:+ ": " +:+ errMessage error |}
  end.

Definition writeToFile (filePath content : string) (disk : Disk) : ToolResult * Disk :=
  let absolutePath := resolveFilePath filePath in
  let failed (error : JsError) :=
    {| success := false;
       resultContent := "Error writing to file " +:+ filePath +:+ ": " +:+ errMessage error |} in
  match fs_mkdir (path_dirname absolutePath) disk with
  | (Some error, disk) => (failed error, disk)
  | (None, disk) =>
      match fs_writeFile absolutePath content disk with
      | (Some error, disk) => (failed error, disk)
      | (None, disk) =>
          ({| success := true;
              resultContent := "Successfully wrote to file " +:+ filePath |}, disk)
      end
  end.

Definition replaceInFile (filePath searchText replaceText : string) (disk : Disk)
    : ToolResult * Disk :=
  let absolutePath := resolveFilePath filePath in
  let failed (error : JsError) :=
    {| success := false;
       resultContent := "Error replacing text in file " +:+ filePath +:+ ": "
                        +:+ errMessage error |} in
  match fs_readFile absolutePath disk with
  | inr error => (failed error, disk)
  | inl currentContent =>
      if negb (JsString.includes currentContent searchText) then
        ({| success := false;
            resultContent := "Search text not found in file " +:+ filePath |}, disk)
      else
        let newContent := JsReplace.replace currentContent searchText replaceText in
        match fs_writeFile absolutePath newContent disk with
        | (Some error, disk) => (failed error, disk)
        | (None, disk) =>
            ({| success := true;
                resultContent := "Successfully replaced text in file " +:+ filePath |}, disk)
        end
  end.

Definition fileExists (filePath : string) (disk : Disk) : bool :=
  fs_access (resolveFilePath filePath) disk.
End WithFileSystem.

End FileOperations.

(** ** A small runtime, to run the definitions on concrete inputs *)

Module Demo.

(** A decoder for the few payloads the examples use. *)
Definition parseLiteral (s : string) : option Json :=
  if String.eqb s "{}" then Some (JObject [])
  else if String.eqb s "null" then Some JNull
  else if String.eqb s "0" then Some (JNumber 0)
  else if String.eqb s "true" then Some (JBool true)
  else None.

(** The configuration of a server reached over SSE at [url]; the demo
    serialises it by its url. *)
Definition sse (url : string) : McpServerConfig :=
  {| cfgType := "sse"; cfgCommand := None; cfgArgs := None;
     cfgEnv := None; cfgCwd := None; cfgUrl := Some url; cfgHeaders := None;
     cfgDisabled := None; cfgTimeout := None; cfgAutoApprove := None |}.

(** The error of the SDK when [start] is called on a stdio transport that
    has been started. *)
Definition alreadyStarted : JsError :=
  {| errName := "Error";
     errMessage := "StdioClientTransport already started! If using Client class, "
                   +:+ "note that connect() calls start() automatically." |}.

(** [client.connect] starts the transport it is given, so it rejects a
    transport that has been started. *)
Definition connectUnlessStarted (started : bool) : ConnectResult :=
  {| fired := []; rejection := if started then Some alreadyStarted else None;
     firedAfter := [] |}.

(** Every server lists one tool, which it marks as approved. *)
Definition listed : list McpTool := [ {| toolName := "search"; autoApprove := true |} ].

(** The world is the list of the streams the provider will answer with;
    every tool call succeeds with the text "ok"; every transport can be
    set up. *)
Definition runtime : Runtime :=
  {| World := list StreamScript;
     JSON_parse := parseLiteral;
     JSON_stringify_config := fun c => default EmptyString (cfgUrl c);
     JSON_parse_config := sse;
     Date_now := fun _ => 0;
     maxAllowedSize := 160000;
     createMessage := fun _ w =>
       match w with
       | script :: rest => (script, rest)
       | [] => ({| chunks := []; thrown := None |}, [])
       end;
     toolExecute := fun _ _ w => (inl {| success := true; resultContent := "ok" |}, w);
     clientRequest := fun _ _ _ w =>
       (inl {| responseContent := [ {| itemText := Some "ok" |} ]; isError := false |}, w);
     transportStart := fun _ _ => None;
     newTransport := fun _ => None;
     clientConnect := fun _ _ started => connectUnlessStarted started;
     toolsListRequest := fun _ _ => inl (Some listed) |}.

(** A task as its constructor leaves it, with or without a hub. *)
Definition newTask (hub : option McpHub.Hub) (w : list StreamScript)
    : @Task.TaskState runtime :=
  {| Task.abort := false;
     Task.apiRequestCount := 0;
     Task.didEditFile := false;
     Task.conversationHistoryDeletedRange := None;
     Task.apiConversationHistory := [];
     Task.clineMessages := [];
     Task.assistantMessageContent := [];
     Task.currentStreamingContentIndex := 0%nat;
     Task.isStreaming := false;
     Task.userMessageContentReady := false;
     Task.contextHistoryUpdates := ∅;
     Task.mcpHub := hub;
     Task.toolRegistry := @ToolRegistry.registerBuiltinTools runtime;
     Task.events := [];
     Task.dispatched := [];
     Task.world := w |}.

(** A live connection to the server at [url]. *)
Definition sseConnection (n url : string) : McpHub.McpConnection :=
  {| McpHub.server :=
       {| McpHub.name := n; McpHub.config := url; McpHub.status := McpHub.connected;
          McpHub.disabled := None; McpHub.error := Some EmptyString;
          McpHub.tools := Some [] |};
     McpHub.hasClient := true; McpHub.hasTransport := true |}.

(** A hub connected to the servers fs and git. *)
Definition twoServerHub : McpHub.Hub :=
  {| McpHub.connections := [sseConnection "fs" "http://localhost:3001/sse";
                            sseConnection "git" "http://localhost:3002/sse"];
     McpHub.isConnecting := false; McpHub.actions := [] |}.

Definition emptyHub : McpHub.Hub :=
  {| McpHub.connections := []; McpHub.isConnecting := false; McpHub.actions := [] |}.

(** The error of the provider handler for a full context window. *)
Definition overflow : JsError :=
  {| errName := "ContextWindowExceededError";
     errMessage := "Context window exceeded for anthropic/claude-3-5-sonnet-20241022" |}.

(** A provider that reports a full context window at every request, with a
    window of one token, so that every history is over the limit. *)
Definition alwaysOverflows : Runtime :=
  {| World := unit;
     JSON_parse := Demo.parseLiteral;
     JSON_stringify_config := fun c => default EmptyString (cfgUrl c);
     JSON_parse_config := Demo.sse;
     Date_now := fun _ => 0;
     maxAllowedSize := 1;
     createMessage := fun _ w => ({| chunks := []; thrown := Some overflow |}, w);
     toolExecute := fun _ _ w => (inl {| success := true; resultContent := "ok" |}, w);
     clientRequest := fun _ _ _ w =>
       (inl {| responseContent := []; isError := false |}, w);
     transportStart := fun _ _ => None;
     newTransport := fun _ => None;
     clientConnect := fun _ _ started => connectUnlessStarted started;
     toolsListRequest := fun _ _ => inl (Some listed) |}.

Definition overflowingTask : @Task.TaskState alwaysOverflows :=
  {| Task.abort := false;
     Task.apiRequestCount := 0;
     Task.didEditFile := false;
     Task.conversationHistoryDeletedRange := None;
     Task.apiConversationHistory := [Task.userText "task"];
     Task.clineMessages := [];
     Task.assistantMessageContent := [];
     Task.currentStreamingContentIndex := 0%nat;
     Task.isStreaming := false;
     Task.userMessageContentReady := false;
     Task.contextHistoryUpdates := ∅;
     Task.mcpHub := None;
     Task.toolRegistry := @ToolRegistry.registerBuiltinTools alwaysOverflows;
     Task.events := [];
     Task.dispatched := [];
     Task.world := tt |}.

Definition refused : JsError := {| errName := "Error"; errMessage := "connect ECONNREFUSED" |}.

(** A runtime in which no server can be reached: the url of the server
    named "broken" is refused, and the connect to every other server fails,
    the transport reporting the error before the connect rejects with it. *)
Definition offline : Runtime :=
  {| World := unit;
     JSON_parse := Demo.parseLiteral;
     JSON_stringify_config := fun c => default EmptyString (cfgUrl c);
     JSON_parse_config := Demo.sse;
     Date_now := fun _ => 0;
     maxAllowedSize := 160000;
     createMessage := fun _ w => ({| chunks := []; thrown := None |}, w);
     toolExecute := fun _ _ w => (inl {| success := true; resultContent := "ok" |}, w);
     clientRequest := fun _ _ _ w =>
       (inl {| responseContent := []; isError := false |}, w);
     transportStart := fun _ _ => None;
     newTransport := fun c =>
       if String.eqb (default EmptyString (cfgUrl c)) "broken"
       then Some {| errName := "TypeError"; errMessage := "Invalid URL" |}
       else None;
     clientConnect := fun _ _ _ =>
       {| fired := [TransportError (errMessage refused)]; rejection := Some refused;
          firedAfter := [] |};
     toolsListRequest := fun _ _ => inl None |}.

Definition disabledServer : McpServerConfig :=
  {| cfgType := "stdio"; cfgCommand := Some "fs-server"; cfgArgs := None;
     cfgEnv := None; cfgCwd := None; cfgUrl := None; cfgHeaders := None;
     cfgDisabled := Some true; cfgTimeout := None; cfgAutoApprove := None |}.

(** A file system that is a map from absolute paths to contents, in
    which directories need not be made. *)
Definition mapFs : FileOperations.FileSystem :=
  {| FileOperations.Disk := gmap string string;
     FileOperations.path_isAbsolute := String.prefix "/";
     FileOperations.path_resolve := fun dir p => dir +:+ "/" +:+ p;
     FileOperations.path_dirname := fun p => p;
     FileOperations.fs_readFile := fun p disk =>
       match disk !! p with
       | Some content => inl content
       | None => inr {| errName := "Error";
                        errMessage := "ENOENT: no such file or directory, open '" +:+ p +:+ "'" |}
       end;
     FileOperations.fs_writeFile := fun p content disk => (None, <[ p := content ]> disk);
     FileOperations.fs_mkdir := fun _ disk => (None, disk);
     FileOperations.fs_access := fun p disk => bool_decide (is_Some (disk !! p)) |}.
End Demo.

(** * Properties *)

(** ** The context manager *)

Module ContextFacts.

Import ContextManager.

Lemma floor_div4 (x : Z) : Qfloor (inject_Z x / 4) = x / 4.
Proof.
  unfold Qdiv, Qmult, Qinv, inject_Z. simpl. rewrite Z.mul_1_r. reflexivity.
Qed.

Lemma floor_div4_div2 (x : Z) : Qfloor (inject_Z x / 4 / 2) = x / 8.
Proof.
  unfold Qdiv, Qmult, Qinv, inject_Z. simpl. rewrite !Z.mul_1_r. reflexivity.
Qed.

Lemma messagesToRemove_Z len s keep :
  messagesToRemove len s keep =
  match keep with
  | none => Z.max (len - s) 0
  | lastTwo => Z.max (len - s - 2) 0
  | half => (len - s) / 4 * 2
  | quarter => (len - s) * 3 / 8 * 2
  end.
Proof. destruct keep; unfold messagesToRemove; rewrite ?floor_div4_div2, ?floor_div4; reflexivity. Qed.

Lemma messagesToRemove_bounds len s keep :
  s <= len -> 0 <= messagesToRemove len s keep <= len - s.
Proof.
  intros Hs. rewrite messagesToRemove_Z. destruct keep; try lia.
  - Z.to_euclidean_division_equations. lia.
  - Z.to_euclidean_division_equations. lia.
Qed.

Lemma get_length {A} (a : list A) (i : Z) :
  Z.of_nat (length a) <= i -> JsArray.get a i = None.
Proof.
  intros Hi. unfold JsArray.get. destruct (i <? 0) eqn:E; [reflexivity|].
  apply lookup_ge_None_2. lia.
Qed.

Lemma roleIsNotAssistant_out msgs i :
  Z.of_nat (length msgs) <= i -> roleIsNotAssistant msgs i = true.
Proof. intros Hi. unfold roleIsNotAssistant. rewrite get_length; auto. Qed.

(** C4 (as amended). The start of every returned range is 2. When the
    prior range ends below the length of the history, the new end stays
    below it and is never more than one position before the prior end;
    it is at least the prior end as soon as the message at the prior end
    has the assistant role or at least one more message is removed. *)
Theorem next_range_start_and_end (msgs : list MessageParam) (keep : Keep) (s e : Z) :
  e < Z.of_nat (length msgs) ->
  let r := getNextTruncationRange msgs (Some (s, e)) keep in
  fst r = 2 /\ snd r < Z.of_nat (length msgs) /\ e - 1 <= snd r /\
  (roleIsNotAssistant msgs e = false \/
   0 < messagesToRemove (Z.of_nat (length msgs)) (e + 1) keep -> e <= snd r).
Proof.
  intros He. unfold getNextTruncationRange, startOfRest. cbn [fst snd].
  pose proof (messagesToRemove_bounds (Z.of_nat (length msgs)) (e + 1) keep ltac:(lia)) as Hb.
  set (n := messagesToRemove _ _ _) in *.
  split; [reflexivity|].
  destruct (roleIsNotAssistant msgs (e + 1 + n - 1)) eqn:Hrole; cbn [snd].
  - repeat split; try lia.
    intros [Hassist | Hpos]; [|lia].
    destruct (Z.eq_dec n 0) as [Hn | Hn]; [|lia].
    replace (e + 1 + n - 1) with e in Hrole by lia. congruence.
  - repeat split; lia.
Qed.

Lemma next_range_start msgs cur keep : fst (getNextTruncationRange msgs cur keep) = 2.
Proof. reflexivity. Qed.

Lemma first_range_below_length msgs keep :
  (1 <= length msgs)%nat ->
  snd (getNextTruncationRange msgs None keep) < Z.of_nat (length msgs).
Proof.
  intros Hlen. unfold getNextTruncationRange, startOfRest. cbn [snd].
  set (len := Z.of_nat (length msgs)).
  assert (Hn : messagesToRemove len 2 keep <= Z.max (len - 2) 0).
  { rewrite messagesToRemove_Z. destruct keep; try lia;
      Z.to_euclidean_division_equations; lia. }
  set (n := messagesToRemove _ _ _) in *.
  destruct (roleIsNotAssistant msgs (2 + n - 1)) eqn:Hrole; [lia|].
  destruct (Z_lt_le_dec (2 + n - 1) len) as [Hlt | Hge]; [lia|].
  rewrite roleIsNotAssistant_out in Hrole; [discriminate | exact Hge].
Qed.

Section GetTruncated.
Context {A : Type}.
Implicit Types (msgs : list A).

Lemma slice_0_2 msgs : JsArray.slice msgs 0 2 = take 2 msgs.
Proof.
  unfold JsArray.slice, JsArray.clampIndex. cbn [Z.ltb Z.compare].
  rewrite (Z.min_l 0) by lia. rewrite Z.sub_0_r. cbn [Z.to_nat drop].
  destruct msgs as [|a [|b l]]; try reflexivity.
  replace (Z.to_nat (Z.min 2 (Z.of_nat (length (a :: b :: l))))) with 2%nat; [reflexivity|].
  cbn [length]. lia.
Qed.

Lemma sliceFrom_drop msgs (start : Z) :
  exists k : nat, start <= Z.of_nat k /\ JsArray.sliceFrom msgs start = drop k msgs.
Proof.
  unfold JsArray.sliceFrom, JsArray.clampIndex.
  destruct (start <? 0) eqn:E.
  - exists (Z.to_nat (Z.max (Z.of_nat (length msgs) + start) 0)). split; [lia | reflexivity].
  - apply Z.ltb_ge in E.
    destruct (Z_le_gt_dec start (Z.of_nat (length msgs))).
    + exists (Z.to_nat start). rewrite Z.min_l by lia. split; [lia | reflexivity].
    + exists (Z.to_nat start). split; [lia|].
      rewrite Z.min_r by lia. rewrite Nat2Z.id.
      rewrite !drop_ge; [reflexivity | lia | lia].
Qed.

Lemma truncated_view msgs (s e : Z) :
  (1 < length msgs)%nat ->
  exists k : nat, e < Z.of_nat k /\
    getTruncatedMessages msgs (Some (s, e)) = take 2 msgs ++ drop k msgs.
Proof.
  intros Hlen. unfold getTruncatedMessages. cbn [snd].
  destruct (Z.of_nat (length msgs) <=? 1) eqn:E; [apply Z.leb_le in E; lia|].
  destruct (sliceFrom_drop msgs (e + 1)) as (k & Hk & ->).
  exists k. split; [lia|]. rewrite slice_0_2. reflexivity.
Qed.
End GetTruncated.

Lemma next_range_start_and_end_witness :
  let msgs := [userMsg (StringContent "task"); assistantMsg (StringContent "ok");
               userMsg (StringContent "more"); assistantMsg (StringContent "done")] in
  1 < Z.of_nat (length msgs) /\
  (let r := getNextTruncationRange msgs (Some (2, 1)) none in
   fst r = 2 /\ snd r < Z.of_nat (length msgs) /\ 1 - 1 <= snd r /\
   (roleIsNotAssistant msgs 1 = false \/
    0 < messagesToRemove (Z.of_nat (length msgs)) (1 + 1) none -> 1 <= snd r)).
Proof.
  intros msgs. split; [simpl; lia|].
  apply (next_range_start_and_end msgs none 2 1). simpl; lia.
Defined.

(** C4 (as stated) fails: on a history whose tail holds user messages only,
    a second compaction with keep = half returns an end index below the one
    of the first. *)
Lemma range_end_moves_back :
  let msgs := [userMsg (StringContent "task"); assistantMsg (StringContent "ok");
               userMsg (StringContent "r1"); userMsg (StringContent "r2");
               userMsg (StringContent "r3"); userMsg (StringContent "r4")] in
  let first := getNextTruncationRange msgs None half in
  let second := getNextTruncationRange msgs (Some first) half in
  first = (2, 2) /\ second = (2, 1) /\ snd second < snd first.
Proof. vm_compute. repeat split. Qed.

(** C3. The two scenarios on a history of ten messages that alternate
    user and assistant from index 0, whatever the messages hold. *)
Theorem ten_message_scenarios (c0 c1 c2 c3 c4 c5 c6 c7 c8 c9 : MessageContent) :
  let msgs := [userMsg c0; assistantMsg c1; userMsg c2; assistantMsg c3; userMsg c4;
               assistantMsg c5; userMsg c6; assistantMsg c7; userMsg c8; assistantMsg c9] in
  messagesToRemove 10 2 half = 4 /\
  getNextTruncationRange msgs None half = (2, 5) /\
  getTruncatedMessages msgs (Some (2, 5)) =
    [userMsg c0; assistantMsg c1; userMsg c6; assistantMsg c7; userMsg c8; assistantMsg c9] /\
  startOfRest (Some (2, 5)) = 6 /\
  messagesToRemove 10 6 quarter = 2 /\
  getNextTruncationRange msgs (Some (2, 5)) quarter = (2, 7) /\
  getTruncatedMessages msgs (Some (2, 7)) =
    [userMsg c0; assistantMsg c1; userMsg c8; assistantMsg c9].
Proof. intros msgs. repeat split. Qed.

(** C10. With a range that ends at 0 the view is the first two messages
    followed by everything from index 1 on, so the message at index 1 is in
    the view twice; and [getNextTruncationRange] returns such a range when
    there is no prior range, nothing to remove and no assistant message at
    index 1. *)
Theorem range_end_zero_duplicates_index_1 (msgs : list MessageParam) :
  (2 <= length msgs)%nat ->
  (forall s : Z,
     let view := getTruncatedMessages msgs (Some (s, 0)) in
     view = take 2 msgs ++ drop 1 msgs /\
     view !! 1%nat = msgs !! 1%nat /\ view !! 2%nat = msgs !! 1%nat) /\
  (forall keep,
     messagesToRemove (Z.of_nat (length msgs)) 2 keep = 0 ->
     roleIsNotAssistant msgs 1 = true ->
     getNextTruncationRange msgs None keep = (2, 0)).
Proof.
  intros Hlen. split.
  - intros s view.
    assert (Hview : view = take 2 msgs ++ drop 1 msgs).
    { subst view. unfold getTruncatedMessages. cbn [snd].
      destruct (Z.of_nat (length msgs) <=? 1) eqn:E; [apply Z.leb_le in E; lia|].
      rewrite slice_0_2. unfold JsArray.sliceFrom, JsArray.clampIndex.
      cbn [Z.add Z.ltb Z.compare]. rewrite Z.min_l by lia. reflexivity. }
    split; [exact Hview|]. rewrite Hview.
    destruct msgs as [|a [|b l]]; cbn [length] in Hlen; try lia. split; reflexivity.
  - intros keep Hzero Hrole. unfold getNextTruncationRange, startOfRest.
    rewrite Hzero. change (2 + 0 - 1) with 1.
    rewrite Hrole. reflexivity.
Qed.

Lemma range_end_zero_duplicates_index_1_witness :
  let msgs := [userMsg (StringContent "task"); userMsg (StringContent "result")] in
  getNextTruncationRange msgs None half = (2, 0) /\
  getTruncatedMessages msgs (Some (2, 0)) =
    [userMsg (StringContent "task"); userMsg (StringContent "result");
     userMsg (StringContent "result")].
Proof.
  intros msgs.
  destruct (range_end_zero_duplicates_index_1 msgs ltac:(simpl; lia)) as [Hview Hreach].
  split.
  - apply Hreach; reflexivity.
  - destruct (Hview 2) as [-> _]. reflexivity.
Defined.

End ContextFacts.

(** ** Strings *)

Module StringFacts.
Import JsString.

Lemma str_app_nil_l (s : string) : EmptyString +:+ s = s.
Proof. reflexivity. Qed.

Lemma str_app_cons (c : ascii) (s t : string) : String c s +:+ t = String c (s +:+ t).
Proof. reflexivity. Qed.

(** Appending to a string literal, one character at a time. *)
Ltac app_literal := rewrite ?str_app_cons, ?str_app_nil_l.
Tactic Notation "app_literal" "in" hyp(H) := rewrite ?str_app_cons, ?str_app_nil_l in H.

Lemma str_app_nil_r (s : string) : s +:+ EmptyString = s.
Proof. induction s as [|c s IH]; app_literal; [reflexivity | now rewrite IH]. Qed.

Lemma str_app_assoc (a b c : string) : (a +:+ b) +:+ c = a +:+ (b +:+ c).
Proof. induction a as [|x a IH]; app_literal; [reflexivity | now rewrite IH]. Qed.

Lemma str_length_app (a b : string) :
  String.length (a +:+ b) = (String.length a + String.length b)%nat.
Proof. induction a as [|x a IH]; app_literal; simpl; [reflexivity | now rewrite IH]. Qed.

Lemma prefix_char (x c : ascii) (s : string) :
  String.prefix (String x EmptyString) (String c s) = Ascii.eqb x c.
Proof.
  simpl. destruct (ascii_dec x c) as [-> | Hne].
  - rewrite Ascii.eqb_refl. now destruct s.
  - symmetry. now apply Ascii.eqb_neq.
Qed.

Lemma includes_char_cons (x c : ascii) (s : string) :
  includes (String c s) (String x EmptyString)
  = Ascii.eqb x c || includes s (String x EmptyString).
Proof. cbn [includes]. now rewrite prefix_char. Qed.

Lemma split_not_nil (s : string) (sep : ascii) : split s sep <> [].
Proof.
  induction s as [|c s IH]; simpl; [discriminate|].
  destruct (Ascii.eqb c sep); [discriminate|].
  destruct (split s sep); discriminate.
Qed.

Lemma split_no_sep (a : string) (sep : ascii) :
  includes a (String sep EmptyString) = false -> split a sep = [a].
Proof.
  induction a as [|c a IH]; [reflexivity|].
  rewrite includes_char_cons. intros [Hc Ha]%orb_false_elim.
  simpl. rewrite Ascii.eqb_sym, Hc, (IH Ha). reflexivity.
Qed.

Lemma split_app_sep (a r : string) (sep : ascii) :
  includes a (String sep EmptyString) = false ->
  split (a +:+ String sep r) sep = a :: split r sep.
Proof.
  induction a as [|c a IH].
  - intros _. app_literal. simpl. now rewrite Ascii.eqb_refl.
  - rewrite includes_char_cons. intros [Hc Ha]%orb_false_elim.
    app_literal. simpl. rewrite Ascii.eqb_sym, Hc, (IH Ha). reflexivity.
Qed.

Lemma includes_app_sep (a r : string) (sep : ascii) :
  includes (a +:+ String sep r) (String sep EmptyString) = true.
Proof.
  induction a as [|c a IH]; app_literal; rewrite includes_char_cons.
  - now rewrite Ascii.eqb_refl.
  - rewrite IH. apply orb_true_r.
Qed.

(** [name.split("/", 2)] keeps the first two pieces. *)
Lemma splitLimit_two (a b : string) (sep : ascii) :
  includes a (String sep EmptyString) = false ->
  includes b (String sep EmptyString) = false ->
  splitLimit (a +:+ String sep b) sep 2 = [a; b].
Proof.
  intros Ha Hb. unfold splitLimit. rewrite (split_app_sep _ _ _ Ha), (split_no_sep _ _ Hb).
  reflexivity.
Qed.

Lemma splitLimit_three (a b c : string) (sep : ascii) :
  includes a (String sep EmptyString) = false ->
  includes b (String sep EmptyString) = false ->
  splitLimit (a +:+ String sep (b +:+ String sep c)) sep 2 = [a; b].
Proof.
  intros Ha Hb. unfold splitLimit.
  rewrite (split_app_sep _ _ _ Ha), (split_app_sep _ _ _ Hb). reflexivity.
Qed.

End StringFacts.

(** ** Tool dispatch *)

Module DispatchFacts.
Import JsString Task StringFacts.

Section WithRuntime.
Context `{Runtime}.
Implicit Types (st : TaskState) (args : Json).

Lemma executeTool_history st toolName args :
  apiConversationHistory (executeTool st toolName args)
  = apiConversationHistory st ++
    [outcomeMessage toolName
       (fst (dispatch (emitEvent st (message (tool_execution_started toolName args)))
               toolName args))].
Proof.
  unfold executeTool.
  set (st1 := emitEvent st _).
  assert (Hh : apiConversationHistory (snd (dispatch st1 toolName args))
               = apiConversationHistory st).
  { unfold dispatch.
    destruct (mcpHub st1) as [hub|].
    - destruct (includes toolName "/").
      + destruct (splitLimit toolName "/" 2) as [|a [|b l]]; try reflexivity.
        destruct (McpHub.callTool _ _ _ _ _) as [[r|e] w]; reflexivity.
      + destruct (ToolRegistry.executeTool _ _ _ _) as [r w]. reflexivity.
    - destruct (ToolRegistry.executeTool _ _ _ _) as [r w]. reflexivity. }
  destruct (dispatch st1 toolName args) as [[result|e] st2]; cbn [fst snd] in *.
  - destruct (_ || _); cbn; rewrite Hh; reflexivity.
  - cbn. rewrite Hh. reflexivity.
Qed.

Lemma executeTool_dispatched st toolName args :
  dispatched (executeTool st toolName args)
  = dispatched (snd (dispatch (emitEvent st (message (tool_execution_started toolName args)))
                       toolName args)).
Proof.
  unfold executeTool.
  destruct (dispatch _ toolName args) as [[result|e] st2]; cbn [snd].
  - destruct (_ || _); reflexivity.
  - reflexivity.
Qed.

Lemma dispatch_registry st toolName args :
  mcpHub st = None \/ includes toolName "/" = false ->
  dispatch st toolName args
  = (inl (fst (ToolRegistry.executeTool (toolRegistry st) toolName args (world st))),
     set_world (set_dispatched st (dispatched st ++ [RegistryExecuteTool toolName args]))
       (snd (ToolRegistry.executeTool (toolRegistry st) toolName args (world st)))).
Proof.
  intros Hcase. unfold dispatch.
  destruct (mcpHub st) as [hub|].
  - destruct Hcase as [Hcase | ->]; [discriminate|].
    cbn [toolRegistry world set_dispatched].
    destruct (ToolRegistry.executeTool _ _ _ _) as [r w]. reflexivity.
  - cbn [toolRegistry world set_dispatched].
    destruct (ToolRegistry.executeTool _ _ _ _) as [r w]. reflexivity.
Qed.

(** The result a hub response is turned into. *)
Lemma dispatch_hub st hub toolName serverName tool rest args :
  mcpHub st = Some hub ->
  includes toolName "/" = true ->
  splitLimit toolName "/" 2 = serverName :: tool :: rest ->
  let answer := McpHub.callTool hub serverName tool args (world st) in
  dispatched (snd (dispatch st toolName args))
  = dispatched st ++ [HubCallTool serverName tool args] /\
  fst (dispatch st toolName args)
  = match fst answer with
    | inl mcpResult => inl {| success := negb (isError mcpResult);
                              resultContent := mcpResultText mcpResult |}
    | inr e => inr e
    end.
Proof.
  intros Hhub Hincl Hsplit answer. unfold dispatch. rewrite Hhub, Hincl, Hsplit.
  cbn [world set_dispatched]. subst answer.
  destruct (McpHub.callTool _ _ _ _ _) as [[r|e] w]; split; reflexivity.
Qed.

(** C5 (as amended). When the task has a hub, a name [server/tool] goes
    to the hub's [callTool] with the two pieces, and the message appended
    to the history is made from the hub's answer; a name without
    separator, and every name when the task has no hub, goes to the local
    registry under its full name. *)
Theorem tool_routing st args :
  (forall hub serverName tool,
      mcpHub st = Some hub ->
      includes serverName "/" = false ->
      includes tool "/" = false ->
      let toolName := serverName +:+ "/" +:+ tool in
      let st' := executeTool st toolName args in
      dispatched st' = dispatched st ++ [HubCallTool serverName tool args] /\
      apiConversationHistory st'
      = apiConversationHistory st ++
        [match fst (McpHub.callTool hub serverName tool args (world st)) with
         | inl mcpResult => toolResultMessage toolName (mcpResultText mcpResult)
         | inr e => toolFailedMessage toolName (errMessage e)
         end]) /\
  (forall toolName,
      mcpHub st = None \/ includes toolName "/" = false ->
      let st' := executeTool st toolName args in
      dispatched st' = dispatched st ++ [RegistryExecuteTool toolName args] /\
      apiConversationHistory st'
      = apiConversationHistory st ++
        [toolResultMessage toolName
           (resultContent
              (fst (ToolRegistry.executeTool (toolRegistry st) toolName args (world st))))]).
Proof.
  split.
  - intros hub serverName tool Hhub Hs Ht toolName st'. subst st'.
    rewrite executeTool_dispatched, executeTool_history.
    set (st1 := emitEvent st _).
    destruct (dispatch_hub st1 hub toolName serverName tool [] args) as [Hd Hr].
    + exact Hhub.
    + apply includes_app_sep.
    + apply splitLimit_two; assumption.
    + rewrite Hd, Hr. split; [reflexivity|].
      change (world st1) with (world st).
      destruct (fst (McpHub.callTool _ _ _ _ _)); reflexivity.
  - intros toolName Hcase st'. subst st'.
    rewrite executeTool_dispatched, executeTool_history.
    set (st1 := emitEvent st _).
    rewrite (dispatch_registry st1 toolName args Hcase). split; reflexivity.
Qed.

(** C9 (as amended). When the task has a hub, a name with two or more
    separators reaches the hub as its first two pieces; what follows the
    second separator is in no call. *)
Theorem extra_segments_dropped st hub a b c args :
  mcpHub st = Some hub ->
  includes a "/" = false ->
  includes b "/" = false ->
  dispatched (executeTool st (a +:+ "/" +:+ b +:+ "/" +:+ c) args)
  = dispatched st ++ [HubCallTool a b args].
Proof.
  intros Hhub Ha Hb. rewrite executeTool_dispatched.
  set (st1 := emitEvent st _).
  destruct (dispatch_hub st1 hub (a +:+ "/" +:+ b +:+ "/" +:+ c) a b [] args) as [Hd _].
  - exact Hhub.
  - apply includes_app_sep.
  - apply splitLimit_three; assumption.
  - exact Hd.
Qed.
End WithRuntime.

Lemma tool_routing_witness :
  let st := Demo.newTask (Some Demo.emptyHub) [] in
  mcpHub st = Some Demo.emptyHub /\
  includes "fs" "/" = false /\ includes "read_file" "/" = false /\
  dispatched (executeTool st "fs/read_file" (JObject []))
  = [HubCallTool "fs" "read_file" (JObject [])] /\
  includes "read_file" "/" = false /\
  dispatched (executeTool st "read_file" (JObject []))
  = [RegistryExecuteTool "read_file" (JObject [])].
Proof.
  intros st.
  destruct (tool_routing st (JObject [])) as [Hhub Hlocal].
  split; [reflexivity|]. split; [reflexivity|]. split; [reflexivity|].
  split; [|split; [reflexivity|]].
  - apply (Hhub Demo.emptyHub "fs" "read_file"); reflexivity.
  - apply (Hlocal "read_file"). right. reflexivity.
Defined.

(** C5 (as stated) fails: a task built without a hub hands a name with a
    separator to the local registry, which does not know it. *)
Lemma separator_without_hub_goes_to_registry :
  let st := executeTool (Demo.newTask None []) "fs/read_file" (JObject []) in
  dispatched st = [RegistryExecuteTool "fs/read_file" (JObject [])] /\
  apiConversationHistory st
  = [toolResultMessage "fs/read_file" "Unknown tool: fs/read_file"].
Proof. vm_compute. split; reflexivity. Qed.

Lemma extra_segments_dropped_witness :
  let st := Demo.newTask (Some Demo.emptyHub) [] in
  mcpHub st = Some Demo.emptyHub /\
  includes "a" "/" = false /\ includes "b" "/" = false /\
  dispatched (executeTool st "a/b/c" (JObject [])) = [HubCallTool "a" "b" (JObject [])].
Proof.
  intros st. split; [reflexivity|]. split; [reflexivity|]. split; [reflexivity|].
  apply (extra_segments_dropped st Demo.emptyHub "a" "b" "c"); reflexivity.
Defined.

(** C9 (as stated) fails: without a hub the whole name, third piece
    included, is what the local registry is asked for. *)
Lemma extra_segments_reach_registry_without_hub :
  dispatched (executeTool (Demo.newTask None []) "a/b/c" (JObject []))
  = [RegistryExecuteTool "a/b/c" (JObject [])].
Proof. vm_compute. reflexivity. Qed.

End DispatchFacts.

(** ** The task loop *)

Module LoopFacts.
Import ContextManager JsString Task StringFacts ContextFacts.

Section WithRuntime.
Context `{Runtime}.
Implicit Types (st : TaskState) (args : Json).

Lemma dispatch_loopFields st toolName args :
  loopFields (snd (dispatch st toolName args)) = loopFields st.
Proof.
  unfold dispatch.
  destruct (mcpHub st) as [hub|] eqn:Hhub.
  - destruct (includes toolName "/").
    + destruct (splitLimit toolName "/" 2) as [|a [|b l]]; try reflexivity.
      destruct (McpHub.callTool _ _ _ _ _) as [[r|e] w]; cbn; unfold loopFields; cbn;
        rewrite Hhub; reflexivity.
    + destruct (ToolRegistry.executeTool _ _ _ _) as [r w]. cbn. unfold loopFields; cbn.
      rewrite Hhub. reflexivity.
  - destruct (ToolRegistry.executeTool _ _ _ _) as [r w]. cbn. unfold loopFields; cbn.
    rewrite Hhub. reflexivity.
Qed.

Lemma dispatch_stream_state st toolName args :
  let st' := snd (dispatch st toolName args) in
  assistantMessageContent st' = assistantMessageContent st /\
  currentStreamingContentIndex st' = currentStreamingContentIndex st /\
  userMessageContentReady st' = userMessageContentReady st.
Proof.
  unfold dispatch.
  destruct (mcpHub st) as [hub|].
  - destruct (includes toolName "/").
    + destruct (splitLimit toolName "/" 2) as [|a [|b l]]; try (repeat split; reflexivity).
      destruct (McpHub.callTool _ _ _ _ _) as [[r|e] w]; repeat split; reflexivity.
    + destruct (ToolRegistry.executeTool _ _ _ _) as [r w]. repeat split; reflexivity.
  - destruct (ToolRegistry.executeTool _ _ _ _) as [r w]. repeat split; reflexivity.
Qed.

Lemma executeTool_loopFields st toolName args :
  loopFields (executeTool st toolName args) = loopFields st.
Proof.
  unfold executeTool.
  pose proof (dispatch_loopFields
                (emitEvent st (message (tool_execution_started toolName args)))
                toolName args) as Hd.
  destruct (dispatch _ toolName args) as [[result|e] st2]; cbn [snd] in Hd.
  - destruct (_ || _); unfold loopFields in *; cbn in *; exact Hd.
  - unfold loopFields in *; cbn in *; exact Hd.
Qed.

Lemma executeTool_stream_state st toolName args :
  let st' := executeTool st toolName args in
  assistantMessageContent st' = assistantMessageContent st /\
  currentStreamingContentIndex st' = currentStreamingContentIndex st /\
  userMessageContentReady st' = userMessageContentReady st.
Proof.
  unfold executeTool.
  pose proof (dispatch_stream_state
                (emitEvent st (message (tool_execution_started toolName args)))
                toolName args) as Hd.
  destruct (dispatch _ toolName args) as [[result|e] st2]; cbn [snd] in Hd.
  - destruct (_ || _); cbn in *; exact Hd.
  - cbn in *; exact Hd.
Qed.

Lemma presentBlock_loopFields st c : loopFields (presentBlock st c) = loopFields st.
Proof.
  destruct c as [t p | n input p]; [reflexivity|].
  cbn [presentBlock]. destruct (executable _); [apply executeTool_loopFields | reflexivity].
Qed.

Lemma presentBlock_stream_state st c :
  let st' := presentBlock st c in
  assistantMessageContent st' = assistantMessageContent st /\
  currentStreamingContentIndex st' = currentStreamingContentIndex st /\
  userMessageContentReady st' = userMessageContentReady st.
Proof.
  destruct c as [t p | n input p]; [repeat split; reflexivity|].
  cbn [presentBlock]. destruct (executable _);
    [apply executeTool_stream_state | repeat split; reflexivity].
Qed.

Lemma presentAssistantMessageN_loopFields fuel st :
  loopFields (presentAssistantMessageN fuel st) = loopFields st.
Proof.
  revert st. induction fuel as [|fuel IH]; intros st; [reflexivity|].
  cbn [presentAssistantMessageN].
  destruct (_ <=? _)%nat; [reflexivity|].
  destruct (_ !! _) as [c|]; [|reflexivity].
  pose proof (presentBlock_loopFields st c) as Hb.
  destruct (partialOf c); [exact Hb|].
  destruct (_ <? _)%nat.
  - rewrite IH. exact Hb.
  - exact Hb.
Qed.

Lemma consumeChunks_loopFields cs thrown text st :
  loopFields (snd (consumeChunks cs thrown text st)) = loopFields st.
Proof.
  revert text st. induction cs as [|chunk cs IH]; intros text st; [reflexivity|].
  cbn [consumeChunks]. destruct (abort st); [reflexivity|].
  destruct chunk as [t | i o |].
  - rewrite IH. unfold presentAssistantMessage.
    rewrite presentAssistantMessageN_loopFields. reflexivity.
  - rewrite IH. reflexivity.
  - apply IH.
Qed.

Lemma loopFields_count st st' :
  loopFields st' = loopFields st -> apiRequestCount st' = apiRequestCount st.
Proof. unfold loopFields. intros Heq. congruence. Qed.

(** Every pass through the [try] block counts one request, however it ends. *)
Lemma tryIteration_count st :
  apiRequestCount (snd (tryIteration st)) = apiRequestCount st + 1.
Proof.
  unfold tryIteration.
  set (st0 := if shouldTruncate _ then compact st half else st).
  assert (H0 : apiRequestCount st0 = apiRequestCount st).
  { subst st0. destruct (shouldTruncate _); reflexivity. }
  destruct (createMessage _ _) as [stream w].
  match goal with
  | |- context [consumeChunks ?cs ?t ?m ?s] =>
      pose proof (loopFields_count _ _ (consumeChunks_loopFields cs t m s)) as Hc;
      destruct (consumeChunks cs t m s) as [[failure text] st2]
  end.
  cbn in Hc. rewrite H0 in Hc.
  destruct failure as [e|]; [exact Hc|].
  cbn [abort set_isStreaming].
  destruct (abort st2); [exact Hc|].
  destruct (isEmpty text); cbn [userMessageContentReady pushClineMessage pushHistory
                                  set_clineMessages set_apiConversationHistory];
    destruct (negb _); try exact Hc;
    destruct (hasCompletionTool _); exact Hc.
Qed.

Lemma addTruncationNotice_recorded (updates : HistoryUpdates) ts :
  is_Some (addTruncationNotice updates ts !! 1).
Proof.
  unfold addTruncationNotice.
  destruct (updates !! 1) as [u|] eqn:Hu; [rewrite Hu; eauto|].
  rewrite lookup_insert_eq. eauto.
Qed.

(** C2 (as amended). When the [try] block of an iteration ends with an
    error that [isContextWindowExceededError] accepts, the iteration sets
    the range to the next one with keep = quarter, a truncation notice is
    on record, and the loop goes on with a further iteration; the failed
    attempt has been counted as a request. Any other error is emitted as
    an error event and thrown out of the loop. *)
Theorem provider_error_handling st e st1 :
  abort st = false ->
  tryIteration st = (Throw e, st1) ->
  (isContextWindowExceededError e = true ->
   let st2 := compact st1 quarter in
   iteration st = (Continue, st2) /\
   conversationHistoryDeletedRange st2
   = Some (getNextTruncationRange (apiConversationHistory st1)
             (conversationHistoryDeletedRange st1) quarter) /\
   is_Some (contextHistoryUpdates st2 !! 1) /\
   apiConversationHistory st2 = apiConversationHistory st1 /\
   apiRequestCount st2 = apiRequestCount st + 1 /\
   forall fuel, executeTaskLoop (S fuel) st = executeTaskLoop fuel st2) /\
  (isContextWindowExceededError e = false ->
   let st2 := emitEvent st1 (error (errMessage e)) in
   iteration st = (Throw e, st2) /\
   events st2 = events st1 ++ [error (errMessage e)] /\
   forall fuel, executeTaskLoop (S fuel) st = (Threw e, st2)).
Proof.
  intros Habort Htry.
  pose proof (tryIteration_count st) as Hcount. rewrite Htry in Hcount. cbn [snd] in Hcount.
  split; intros Hkind st2.
  - assert (Hiter : iteration st = (Continue, st2)).
    { unfold iteration. rewrite Htry, Hkind. reflexivity. }
    split; [exact Hiter|]. split; [reflexivity|].
    split; [apply addTruncationNotice_recorded|].
    split; [reflexivity|]. split; [exact Hcount|].
    intros fuel. cbn [executeTaskLoop]. rewrite Habort, Hiter. reflexivity.
  - assert (Hiter : iteration st = (Throw e, st2)).
    { unfold iteration. rewrite Htry, Hkind. reflexivity. }
    split; [exact Hiter|]. split; [reflexivity|].
    intros fuel. cbn [executeTaskLoop]. rewrite Habort, Hiter. reflexivity.
Qed.

(** C6. With more than one message in the history, the view of every
    range starts with the messages at indices 0 and 1, and goes on with
    the messages from some index beyond the end of the range: those inside
    the range are not in it. Compaction writes the range and the notice
    and leaves the history as it is. *)
Theorem anchors_kept_range_omitted (msgs : list MessageParam)
    (deletedRange : option (Z * Z)) :
  (1 < length msgs)%nat ->
  let view := getTruncatedMessages msgs deletedRange in
  view !! 0%nat = msgs !! 0%nat /\ view !! 1%nat = msgs !! 1%nat /\
  (forall s e, deletedRange = Some (s, e) ->
     exists k : nat, e < Z.of_nat k /\ view = take 2 msgs ++ drop k msgs) /\
  (forall st keep, apiConversationHistory st = msgs ->
     apiConversationHistory (compact st keep) = msgs).
Proof.
  intros Hlen view.
  assert (Hrange : forall s e, deletedRange = Some (s, e) ->
            exists k : nat, e < Z.of_nat k /\ view = take 2 msgs ++ drop k msgs).
  { intros s e ->. apply truncated_view. exact Hlen. }
  assert (Hanchors : view !! 0%nat = msgs !! 0%nat /\ view !! 1%nat = msgs !! 1%nat).
  { destruct deletedRange as [[s e]|]; [|split; reflexivity].
    destruct (Hrange s e eq_refl) as (k & _ & ->).
    destruct msgs as [|a [|b l]]; cbn [length] in Hlen; try lia. split; reflexivity. }
  destruct Hanchors as [H0 H1].
  split; [exact H0|]. split; [exact H1|]. split; [exact Hrange|].
  intros st keep Hst. exact Hst.
Qed.
End WithRuntime.

Lemma provider_error_handling_witness :
  let e := {| errName := "ContextWindowExceededError";
              errMessage := "Context window exceeded for anthropic/claude" |} in
  let st := pushHistory (Demo.newTask None [ {| chunks := []; thrown := Some e |} ])
              (userText "task") in
  abort st = false /\
  tryIteration st = (Throw e, snd (tryIteration st)) /\
  isContextWindowExceededError e = true /\
  executeTaskLoop 2 st = executeTaskLoop 1 (compact (snd (tryIteration st)) quarter).
Proof.
  intros e st.
  assert (Htry : tryIteration st = (Throw e, snd (tryIteration st)))
    by (vm_compute; reflexivity).
  split; [reflexivity|]. split; [exact Htry|]. split; [reflexivity|].
  destruct (provider_error_handling st e (snd (tryIteration st)) eq_refl Htry) as [Hrecover _].
  destruct (Hrecover eq_refl) as (_ & _ & _ & _ & _ & Hloop). apply Hloop.
Defined.

(** C2 (as stated) fails where it says the retry is not counted: the
    attempt that ran into the full context window has raised the request
    counter, and the retry, a further iteration of the loop, raises it
    again; one answered request leaves the counter at 2. *)
Lemma retried_request_is_counted :
  let e := {| errName := "ContextWindowExceededError";
              errMessage := "Context window exceeded for anthropic/claude" |} in
  let answer := "<tool_use><name>attempt_completion</name><input>{}</input></tool_use>" in
  let st := pushHistory
              (Demo.newTask None
                 [ {| chunks := []; thrown := Some e |};
                   {| chunks := [TextChunk (Some answer)]; thrown := None |} ])
              (userText "task") in
  apiRequestCount st = 0 /\
  fst (iteration st) = Continue /\
  apiRequestCount (snd (iteration st)) = 1 /\
  fst (executeTaskLoop 2 st) = Returned /\
  apiRequestCount (snd (executeTaskLoop 2 st)) = 2.
Proof. vm_compute. repeat split. Qed.

Lemma anchors_kept_range_omitted_witness :
  let msgs := [userMsg (StringContent "task"); assistantMsg (StringContent "ok");
               userMsg (StringContent "more"); assistantMsg (StringContent "done")] in
  (1 < length msgs)%nat /\
  getTruncatedMessages msgs (Some (2, 2)) !! 0%nat = Some (userMsg (StringContent "task")) /\
  getTruncatedMessages msgs (Some (2, 2)) !! 1%nat = Some (assistantMsg (StringContent "ok")).
Proof.
  intros msgs.
  assert (Hlen : (1 < length msgs)%nat) by (simpl; lia).
  split; [exact Hlen|].
  destruct (@anchors_kept_range_omitted Demo.runtime msgs (Some (2, 2)) Hlen)
    as (H0 & H1 & _).
  split; [exact H0 | exact H1].
Defined.

End LoopFacts.

(** ** The capability hub *)

Module HubFacts.
Import McpHub.

Lemma nameIs_true n conn : nameIs n conn = true <-> name (server conn) = n.
Proof. apply String.eqb_eq. Qed.

Lemma nameIs_false n conn : nameIs n conn = false <-> name (server conn) <> n.
Proof. apply String.eqb_neq. Qed.

Lemma nameIs_other n fs conn : n <> fs -> nameIs fs conn = true -> nameIs n conn = false.
Proof. intros Hne Hfs%nameIs_true. apply nameIs_false. congruence. Qed.

Section Lookup.
Variables (n fs : string).
Hypothesis Hne : n <> fs.

Lemma find_withoutName conns :
  List.find (nameIs n) (withoutName fs conns) = List.find (nameIs n) conns.
Proof.
  induction conns as [|conn conns IH]; [reflexivity|].
  cbn [withoutName List.filter List.find]. fold (withoutName fs conns).
  destruct (nameIs fs conn) eqn:Hfs; cbn [negb].
  - rewrite (nameIs_other n fs conn Hne Hfs). exact IH.
  - cbn [List.find]. rewrite IH. reflexivity.
Qed.

Lemma find_app_named conns conn :
  nameIs fs conn = true ->
  List.find (nameIs n) (conns ++ [conn]) = List.find (nameIs n) conns.
Proof.
  intros Hfs. induction conns as [|c conns IH]; cbn [app List.find].
  - rewrite (nameIs_other n fs conn Hne Hfs). reflexivity.
  - rewrite IH. reflexivity.
Qed.

Lemma find_markFailed e conns :
  List.find (nameIs n) (markFailed fs e conns) = List.find (nameIs n) conns.
Proof.
  induction conns as [|c conns IH]; [reflexivity|].
  cbn [markFailed]. destruct (nameIs fs c) eqn:Hfs.
  - cbn [List.find]. rewrite (nameIs_other n fs c Hne Hfs).
    assert (Hn : nameIs n {| server := appendErrorMessage (setStatus (server c) disconnected) e;
                             hasClient := hasClient c; hasTransport := hasTransport c |} = false).
    { apply nameIs_false. cbn. apply nameIs_true in Hfs. congruence. }
    rewrite Hn. reflexivity.
  - cbn [List.find]. rewrite IH. reflexivity.
Qed.
End Lookup.

Lemma withoutName_idem fs conns :
  withoutName fs (withoutName fs conns) = withoutName fs conns.
Proof.
  induction conns as [|c conns IH]; [reflexivity|].
  cbn [withoutName List.filter]. fold (withoutName fs conns).
  destruct (nameIs fs c) eqn:Hfs; cbn [negb]; [exact IH|].
  cbn [withoutName List.filter]. fold (withoutName fs (withoutName fs conns)).
  rewrite Hfs. cbn [negb]. rewrite IH. reflexivity.
Qed.

Lemma withoutName_app_named fs conns conn :
  nameIs fs conn = true -> withoutName fs (conns ++ [conn]) = withoutName fs conns.
Proof.
  intros Hfs. unfold withoutName. rewrite List.filter_app. cbn [List.filter].
  rewrite Hfs. cbn [negb]. apply app_nil_r.
Qed.

Lemma withoutName_markFailed fs e conns :
  withoutName fs (markFailed fs e conns) = withoutName fs conns.
Proof.
  induction conns as [|c conns IH]; [reflexivity|].
  cbn [markFailed]. destruct (nameIs fs c) eqn:Hfs.
  - cbn [withoutName List.filter]. rewrite Hfs.
    assert (Hn : nameIs fs {| server := appendErrorMessage (setStatus (server c) disconnected) e;
                              hasClient := hasClient c; hasTransport := hasTransport c |} = true).
    { apply nameIs_true. cbn. apply nameIs_true in Hfs. exact Hfs. }
    rewrite Hn. reflexivity.
  - cbn [withoutName List.filter]. fold (withoutName fs conns).
    fold (withoutName fs (markFailed fs e conns)). rewrite Hfs, IH. reflexivity.
Qed.


(** The assignments to the first connection of a name, on a list whose
    front part has no connection of that name. *)
Lemma find_app_absent n conns rest :
  List.find (nameIs n) conns = None ->
  List.find (nameIs n) (conns ++ rest) = List.find (nameIs n) rest.
Proof.
  intros Hnone. induction conns as [|c conns IH]; [reflexivity|].
  cbn [List.find app] in *. destruct (nameIs n c); [discriminate | exact (IH Hnone)].
Qed.

Lemma find_withoutName_none n conns : List.find (nameIs n) (withoutName n conns) = None.
Proof.
  induction conns as [|c conns IH]; [reflexivity|].
  cbn [withoutName List.filter]. fold (withoutName n conns).
  destruct (nameIs n c) eqn:Hc; cbn [negb]; [exact IH|].
  cbn [List.find]. rewrite Hc. exact IH.
Qed.

Lemma updateFirst_app_absent n f conns rest :
  List.find (nameIs n) conns = None ->
  updateFirst n f (conns ++ rest) = conns ++ updateFirst n f rest.
Proof.
  intros Hnone. induction conns as [|c conns IH]; [reflexivity|].
  cbn [List.find app updateFirst] in *.
  destruct (nameIs n c); [discriminate|]. rewrite (IH Hnone). reflexivity.
Qed.

Lemma markFailed_updateFirst n e conns :
  markFailed n e conns
  = updateFirst n (fun s => appendErrorMessage (setStatus s disconnected) e) conns.
Proof.
  induction conns as [|c conns IH]; [reflexivity|].
  cbn [markFailed updateFirst]. rewrite IH. reflexivity.
Qed.

Lemma transportEvent_app_absent n closeHandled conns rest event :
  List.find (nameIs n) conns = None ->
  transportEvent n closeHandled (conns ++ rest) event
  = conns ++ transportEvent n closeHandled rest event.
Proof.
  intros Hnone. destruct event as [message|]; cbn [transportEvent].
  - rewrite !markFailed_updateFirst. apply updateFirst_app_absent, Hnone.
  - destruct closeHandled; [apply updateFirst_app_absent, Hnone | reflexivity].
Qed.

Lemma transportEvents_app_absent n closeHandled conns events :
  List.find (nameIs n) conns = None ->
  forall rest,
    foldl (transportEvent n closeHandled) (conns ++ rest) events
    = conns ++ foldl (transportEvent n closeHandled) rest events.
Proof.
  intros Hnone. induction events as [|event events IH]; intros rest; [reflexivity|].
  cbn [foldl]. rewrite (transportEvent_app_absent _ _ _ _ _ Hnone). apply IH.
Qed.

Lemma updateFirst_single n configText isDisabled f conn :
  (forall s, name (f s) = name s /\ config (f s) = config s /\ disabled (f s) = disabled s) ->
  connectionOf n configText isDisabled conn ->
  exists conn', updateFirst n f [conn] = [conn'] /\
                server conn' = f (server conn) /\
                connectionOf n configText isDisabled conn'.
Proof.
  intros Hf (Hn & Hc & Hd & Hcl). cbn [updateFirst].
  assert (Hname : nameIs n conn = true) by (apply nameIs_true; exact Hn).
  rewrite Hname. eexists. split; [reflexivity|]. split; [reflexivity|].
  destruct (Hf (server conn)) as (Hfn & Hfc & Hfd).
  unfold connectionOf. cbn. rewrite Hfn, Hfc, Hfd. auto.
Qed.

Lemma transportEvents_single n configText isDisabled closeHandled events :
  forall conn,
    connectionOf n configText isDisabled conn ->
    exists conn', foldl (transportEvent n closeHandled) [conn] events = [conn'] /\
                  connectionOf n configText isDisabled conn'.
Proof.
  induction events as [|event events IH]; intros conn Hconn; [exists conn; auto|].
  cbn [foldl].
  assert (Hstep : exists conn1, transportEvent n closeHandled [conn] event = [conn1] /\
                                connectionOf n configText isDisabled conn1).
  { destruct event as [message|]; cbn [transportEvent].
    - rewrite markFailed_updateFirst.
      destruct (updateFirst_single n configText isDisabled
                  (fun s => appendErrorMessage (setStatus s disconnected) message) conn)
        as (conn1 & -> & _ & H1); [intros s; repeat split | exact Hconn | eauto].
    - destruct closeHandled; [|eauto].
      destruct (updateFirst_single n configText isDisabled
                  (fun s => setStatus s disconnected) conn)
        as (conn1 & -> & _ & H1); [intros s; repeat split | exact Hconn | eauto]. }
  destruct Hstep as (conn1 & -> & H1). apply IH, H1.
Qed.

(** Projections of a hub that was built by the setters. *)
Ltac hub_simpl :=
  cbn [snd fst actions connections isConnecting setConnections setIsConnecting record].

Section WithRuntime.
Context `{Runtime}.

(** What [connectToServer] does to the connections: those of the other
    names stay, in their order, and after them comes what the call leaves
    for [n], which is what it leaves for [n] in a hub without connections:
    nothing, or one connection of that name with the new configuration. *)
Lemma connectToServer_connections hub n c :
  connections (snd (connectToServer hub n c))
  = withoutName n (connections hub) ++ connections (snd (connectToServer newHub n c)) /\
  fst (connectToServer hub n c) = fst (connectToServer newHub n c) /\
  actions (snd (connectToServer hub n c)) = actions hub ++ [Connecting n c] /\
  isConnecting (snd (connectToServer hub n c)) = isConnecting hub.
Proof.
  unfold connectToServer, newHub. hub_simpl. cbn [withoutName List.filter app].
  set (others := withoutName n (connections hub)).
  assert (Hothers : List.find (nameIs n) others = None) by apply find_withoutName_none.
  clearbody others.
  destruct (isTrue (cfgDisabled c)); [hub_simpl; auto|].
  destruct (setupTransport n c) as [e | started]; [hub_simpl; rewrite app_nil_r; auto|].
  hub_simpl.
  set (connection := {| server := _; hasClient := true; hasTransport := true |}).
  rewrite (transportEvents_app_absent n _ others (fired (clientConnect n c started)) Hothers).
  set (reported := foldl _ [connection] _). clearbody reported.
  destruct (rejection (clientConnect n c started)) as [e|]; hub_simpl.
  - rewrite !markFailed_updateFirst, (updateFirst_app_absent _ _ _ _ Hothers). auto.
  - rewrite (updateFirst_app_absent _ _ _ _ Hothers).
    set (settled := updateFirst n _ reported).
    assert (Hfetch : fetchToolsList
                       (setConnections
                          (setConnections
                             (setConnections
                                (setConnections (record hub (Connecting n c)) others)
                                (others ++ [connection])) (others ++ reported))
                          (others ++ settled)) n
                     = fetchToolsList
                         (setConnections
                            (setConnections
                               (setConnections
                                  (setConnections (record newHub (Connecting n c)) [])
                                  [connection]) reported) settled) n).
    { unfold fetchToolsList, findConnection. hub_simpl.
      rewrite (find_app_absent _ _ _ Hothers). reflexivity. }
    unfold newHub in Hfetch. rewrite Hfetch, (updateFirst_app_absent _ _ _ _ Hothers).
    rewrite (transportEvents_app_absent n _ others _ Hothers). auto.
Qed.

Lemma connectToServer_new n c :
  connections (snd (connectToServer newHub n c)) = [] \/
  exists conn, connections (snd (connectToServer newHub n c)) = [conn] /\
               name (server conn) = n /\ config (server conn) = JSON_stringify_config c.
Proof.
  unfold connectToServer, newHub. hub_simpl. cbn [withoutName List.filter app].
  destruct (isTrue (cfgDisabled c)); [right; hub_simpl; eauto|].
  destruct (setupTransport n c) as [e | started]; [left; reflexivity|].
  right. hub_simpl.
  set (connection := {| server := _; hasClient := true; hasTransport := true |}).
  assert (H0 : connectionOf n (JSON_stringify_config c) (cfgDisabled c) connection)
    by (repeat split).
  destruct (transportEvents_single n (JSON_stringify_config c) (cfgDisabled c)
              (String.eqb (cfgType c) "stdio")
              (fired (clientConnect n c started)) connection H0) as (conn1 & -> & H1).
  destruct (rejection (clientConnect n c started)) as [e|]; hub_simpl.
  - rewrite markFailed_updateFirst.
    destruct (updateFirst_single n (JSON_stringify_config c) (cfgDisabled c)
                (fun s => appendErrorMessage (setStatus s disconnected) (errMessage e))
                conn1) as (conn2 & -> & _ & (Hn & Hc & _));
      [intros s; repeat split | exact H1 | eauto].
  - destruct (updateFirst_single n (JSON_stringify_config c) (cfgDisabled c)
                (fun s => setError (setStatus s connected) (Some EmptyString)) conn1)
      as (conn2 & -> & _ & H2); [intros s; repeat split | exact H1 |].
    match goal with |- context [setTools _ ?l] => set (listed := l) end.
    clearbody listed.
    destruct (updateFirst_single n (JSON_stringify_config c) (cfgDisabled c)
                (fun s => setTools s listed) conn2)
      as (conn3 & -> & _ & H3); [intros s; repeat split | exact H2 |].
    destruct (transportEvents_single n (JSON_stringify_config c) (cfgDisabled c)
                (String.eqb (cfgType c) "stdio")
                (firedAfter (clientConnect n c started)) conn3 H3)
      as (conn4 & -> & (Hn & Hc & _)).
    eauto.
Qed.

(** What [connectToServer] leaves alone: the connections of other names. *)
Lemma connectToServer_frame hub fs c :
  let hub' := snd (connectToServer hub fs c) in
  actions hub' = actions hub ++ [Connecting fs c] /\
  isConnecting hub' = isConnecting hub /\
  withoutName fs (connections hub') = withoutName fs (connections hub) /\
  forall n, n <> fs -> findConnection hub' n = findConnection hub n.
Proof.
  destruct (connectToServer_connections hub fs c) as (Hconns & _ & Hactions & Hflag).
  cbn zeta. split; [exact Hactions|]. split; [exact Hflag|].
  rewrite Hconns. unfold findConnection. rewrite Hconns.
  destruct (connectToServer_new fs c) as [-> | (conn & -> & Hname & _)].
  - rewrite app_nil_r. split; [apply withoutName_idem|].
    intros n Hne. apply find_withoutName. exact Hne.
  - assert (Hfs : nameIs fs conn = true) by (apply nameIs_true; exact Hname).
    split.
    + rewrite (withoutName_app_named _ _ _ Hfs). apply withoutName_idem.
    + intros n Hne. rewrite (find_app_named n fs Hne _ _ Hfs).
      apply find_withoutName. exact Hne.
Qed.


(** An entry whose configuration equals the stored one changes nothing. *)
Lemma updateEntry_same hub n c conn :
  findConnection hub n = Some conn ->
  deepEqual (JSON_parse_config (config (server conn))) c = true ->
  updateEntry hub (n, c) = hub.
Proof. intros Hfind Heq. unfold updateEntry. rewrite Hfind, Heq. reflexivity. Qed.




End WithRuntime.


End HubFacts.

(** ** The streaming parser *)

Module ParserFacts.
Import JsString Task StringFacts.

Implicit Types (s t l g x y : string) (c : ascii).

Lemma literal_app l s : literal l (l +:+ s) = Some s.
Proof.
  induction l as [|a l IH]; [reflexivity|].
  app_literal. cbn [literal]. rewrite Ascii.eqb_refl. exact IH.
Qed.

Lemma literal_inv l s r : literal l s = Some r -> s = l +:+ r.
Proof.
  revert s. induction l as [|a l IH]; intros s Hl.
  - cbn [literal] in Hl. injection Hl as ->. reflexivity.
  - destruct s as [|b s]; [discriminate|]. cbn [literal] in Hl.
    destruct (Ascii.eqb a b) eqn:Hab; [|discriminate].
    apply Ascii.eqb_eq in Hab. subst b. app_literal. f_equal. apply IH. exact Hl.
Qed.

Lemma literal_prefix l s r : literal l s = Some r -> String.prefix l s = true.
Proof.
  revert s. induction l as [|a l IH]; intros s Hl; [now destruct s|].
  destruct s as [|b s]; [discriminate|]. cbn [literal] in Hl.
  destruct (Ascii.eqb a b) eqn:Hab; [|discriminate].
  apply Ascii.eqb_eq in Hab. subst b. cbn [String.prefix].
  destruct (ascii_dec a a); [|congruence]. apply IH. exact Hl.
Qed.

Lemma skipSpaces_app ws c s :
  allWhiteSpace ws = true -> isWhiteSpace c = false ->
  skipSpaces (ws +:+ String c s) = String c s.
Proof.
  intros Hws Hc. induction ws as [|a ws IH]; app_literal; cbn [skipSpaces].
  - rewrite Hc. reflexivity.
  - cbn [allWhiteSpace] in Hws. apply andb_prop in Hws. destruct Hws as [-> Hws].
    apply IH. exact Hws.
Qed.

Lemma includes_prefix s l : String.prefix l s = true -> includes s l = true.
Proof. intros Hp. destruct s; cbn [includes]; rewrite Hp; reflexivity. Qed.

Lemma includes_cons_false c s l :
  includes (String c s) l = false ->
  String.prefix l (String c s) = false /\ includes s l = false.
Proof. cbn [includes]. intros Hi. apply orb_false_elim in Hi. exact Hi. Qed.

Lemma includes_app_r x y l : includes y l = true -> includes (x +:+ y) l = true.
Proof.
  intros Hy. induction x as [|c x IH]; app_literal; [exact Hy|].
  cbn [includes]. rewrite IH. apply orb_true_r.
Qed.

(** A literal that starts with [c] and has no other [c] cannot begin
    inside [y] and end beyond it when [c] follows [y]: it lies in [y]. *)
Lemma literal_within l y c t r :
  includes l (String c EmptyString) = false ->
  literal l (y +:+ String c t) = Some r ->
  String.prefix l y = true.
Proof.
  revert y. induction l as [|a l IH]; intros y Hc Hl; [now destruct y|].
  rewrite includes_char_cons in Hc. apply orb_false_elim in Hc. destruct Hc as [Hca Hc].
  destruct y as [|b y]; app_literal in Hl; cbn [literal] in Hl.
  - rewrite Ascii.eqb_sym, Hca in Hl. discriminate.
  - destruct (Ascii.eqb a b) eqn:Hab; [|discriminate].
    apply Ascii.eqb_eq in Hab. subst b. cbn [String.prefix].
    destruct (ascii_dec a a); [|congruence]. apply (IH y Hc Hl).
Qed.

(** Inside a string [g] that does not include the literal, the literal
    matches at no position, whatever follows [g] after a [c]. *)
Lemma literal_not_inside a l g x y t :
  includes l (String a EmptyString) = false ->
  includes g (String a l) = false ->
  g = x +:+ y -> y <> EmptyString ->
  literal (String a l) (y +:+ String a t) = None.
Proof.
  intros Hl Hg -> Hy.
  destruct (literal (String a l) (y +:+ String a t)) as [r|] eqn:Hlit; [|reflexivity].
  exfalso. destruct y as [|b y]; [congruence|].
  app_literal in Hlit. cbn [literal] in Hlit.
  destruct (Ascii.eqb a b) eqn:Hab; [|discriminate].
  apply Ascii.eqb_eq in Hab. subst b.
  pose proof (literal_within l y a t r Hl Hlit) as Hp.
  assert (Hin : includes (String a y) (String a l) = true).
  { apply includes_prefix. cbn [String.prefix]. destruct (ascii_dec a a); [exact Hp | congruence]. }
  rewrite (includes_app_r x _ _ Hin) in Hg. discriminate.
Qed.

Lemma lazyAny_stops {R} (rest : string -> option R) g t r :
  (forall x y, g = x +:+ y -> y <> EmptyString -> rest (y +:+ t) = None) ->
  rest t = Some r ->
  lazyAny rest (g +:+ t) = Some (g, r).
Proof.
  intros Hnone Hrest. induction g as [|c g IH]; app_literal.
  - destruct t; cbn [lazyAny]; rewrite Hrest; reflexivity.
  - cbn [lazyAny].
    rewrite <- (str_app_cons c g t), (Hnone EmptyString (String c g) eq_refl) by discriminate.
    rewrite IH; [reflexivity|].
    intros x y -> Hy. apply (Hnone (String c x) y); [reflexivity | exact Hy].
Qed.

Lemma skipSpaces_app_fixed ws s :
  allWhiteSpace ws = true -> skipSpaces s = s -> skipSpaces (ws +:+ s) = s.
Proof.
  intros Hws Hs. induction ws as [|a ws IH]; app_literal; [exact Hs|].
  cbn [allWhiteSpace] in Hws. apply andb_prop in Hws. destruct Hws as [Ha Hws].
  cbn [skipSpaces]. rewrite Ha. apply IH. exact Hws.
Qed.

(** A lazy group in front of a literal that the group does not include
    stops at the first occurrence of the literal, when the rest of the
    pattern matches there. *)
Lemma lazyAny_literal {R} a l (k : string -> option R) g t r :
  includes l (String a EmptyString) = false ->
  includes g (String a l) = false ->
  k t = Some r ->
  lazyAny (fun s => s ← literal (String a l) s; k s) (g +:+ String a l +:+ t) = Some (g, r).
Proof.
  intros Hl Hg Hk. apply lazyAny_stops.
  - intros x y Hxy Hy. cbv beta. rewrite str_app_cons.
    rewrite (literal_not_inside a l g x y (l +:+ t) Hl Hg Hxy Hy). reflexivity.
  - cbv beta. rewrite literal_app. exact Hk.
Qed.

Lemma dropStr_0 s : dropStr 0 s = s.
Proof. destruct s; reflexivity. Qed.

Lemma dropStr_app a b n : dropStr (String.length a + n) (a +:+ b) = dropStr n b.
Proof. induction a as [|c a IH]; app_literal; [reflexivity | exact IH]. Qed.

Lemma dropStr_length a b : dropStr (String.length a) (a +:+ b) = b.
Proof. rewrite <- (Nat.add_0_r (String.length a)), dropStr_app. apply dropStr_0. Qed.

Lemma takeStr_length a b : takeStr (String.length a) (a +:+ b) = a.
Proof.
  induction a as [|c a IH]; app_literal; cbn [String.length takeStr]; [now destruct b|].
  rewrite IH. reflexivity.
Qed.

Lemma takeStr_whole a b :
  takeStr (String.length (a +:+ b) - String.length b) (a +:+ b) = a.
Proof. rewrite str_length_app, Nat.add_sub. apply takeStr_length. Qed.

Lemma isEmpty_false s : s <> EmptyString -> isEmpty s = false.
Proof. destruct s; [congruence | reflexivity]. Qed.

Lemma trim_not_empty s : trim s <> EmptyString -> s <> EmptyString.
Proof. intros Ht ->. apply Ht. reflexivity. Qed.

Section Tag.
Variables (ws1 n ws2 i ws3 after : string).
Hypothesis (Hws1 : allWhiteSpace ws1 = true).
Hypothesis (Hws2 : allWhiteSpace ws2 = true).
Hypothesis (Hws3 : allWhiteSpace ws3 = true).
Hypothesis (Hn : includes n "</name>" = false).
Hypothesis (Hi : includes i "</input>" = false).

Lemma lazy_input :
  lazyAny closeInput (i +:+ "</input>" +:+ ws3 +:+ "</tool_use>" +:+ after) = Some (i, after).
Proof.
  apply (lazyAny_literal "<" "/input>"
           (fun s => s ← literal "</tool_use>" (skipSpaces s); Some s));
    [reflexivity | exact Hi |].
  rewrite (skipSpaces_app_fixed ws3 _ Hws3) by reflexivity.
  rewrite literal_app. reflexivity.
Qed.

Lemma lazy_name :
  lazyAny closeName
    (n +:+ "</name>" +:+ ws2 +:+ "<input>" +:+ i +:+ "</input>" +:+ ws3 +:+ "</tool_use>" +:+ after)
  = Some (n, (i, after)).
Proof.
  apply (lazyAny_literal "<" "/name>"
           (fun s => s ← literal "<input>" (skipSpaces s); lazyAny closeInput s));
    [reflexivity | exact Hn |].
  rewrite (skipSpaces_app_fixed ws2 _ Hws2) by reflexivity.
  rewrite literal_app. exact lazy_input.
Qed.

Lemma matchHere_tag :
  matchHere (toolUseTag ws1 n ws2 i ws3 +:+ after) = Some (n, (i, after)).
Proof.
  unfold toolUseTag, matchHere, literalSpacesLiteral. rewrite !str_app_assoc.
  rewrite literal_app. cbn [mbind option_bind].
  rewrite (skipSpaces_app_fixed ws1 _ Hws1) by reflexivity.
  rewrite literal_app. exact lazy_name.
Qed.
End Tag.

Lemma matchHere_needs_opening s :
  String.prefix "<tool_use>" s = false -> matchHere s = None.
Proof.
  intros Hp. unfold matchHere, literalSpacesLiteral.
  destruct (literal "<tool_use>" s) as [r|] eqn:Hl; [|reflexivity].
  rewrite (literal_prefix _ _ _ Hl) in Hp. discriminate.
Qed.

Lemma search_none s pos : includes s "<tool_use>" = false -> search s pos = None.
Proof.
  revert pos. induction s as [|c s IH]; intros pos Hs.
  - reflexivity.
  - apply includes_cons_false in Hs. destruct Hs as [Hp Hs].
    cbn [search]. rewrite (matchHere_needs_opening _ Hp). apply IH. exact Hs.
Qed.

Lemma search_skip before t pos :
  (forall x y, before = x +:+ y -> y <> EmptyString -> matchHere (y +:+ t) = None) ->
  search (before +:+ t) pos = search t (pos + String.length before).
Proof.
  revert pos. induction before as [|c before IH]; intros pos Hnone; app_literal.
  - cbn [String.length]. rewrite Nat.add_0_r. reflexivity.
  - cbn [search].
    rewrite <- (str_app_cons c before t), (Hnone EmptyString (String c before) eq_refl) by discriminate.
    rewrite IH.
    + cbn [String.length]. f_equal. lia.
    + intros x y -> Hy. apply (Hnone (String c x) y); [reflexivity | exact Hy].
Qed.

Lemma search_here t pos g1 g2 rest :
  matchHere t = Some (g1, (g2, rest)) ->
  search t pos = Some {| index := pos;
                         whole := takeStr (String.length t - String.length rest) t;
                         group1 := g1; group2 := g2 |}.
Proof. intros Hm. destruct t; cbn [search]; rewrite Hm; reflexivity. Qed.

Section WithRuntime.
Context `{Runtime}.

(** C7 (as amended). A buffer made of prose, one well-formed tool-use tag
    whose payload decodes, and trailing prose, where both proses keep some
    character after trimming, parses into three blocks: the trimmed prose
    before the tag as a complete text block, the tool use, and the trimmed
    trailing prose as a partial text block. *)
Theorem parse_prose_tag_prose (before after ws1 n ws2 i ws3 : string) (input : Json) :
  allWhiteSpace ws1 = true -> allWhiteSpace ws2 = true -> allWhiteSpace ws3 = true ->
  includes n "</name>" = false ->
  includes i "</input>" = false ->
  includes before "<tool_use>" = false ->
  includes after "<tool_use>" = false ->
  JSON_parse i = Some input ->
  trim before <> EmptyString ->
  trim after <> EmptyString ->
  parseAssistantMessage (before +:+ toolUseTag ws1 n ws2 i ws3 +:+ after)
  = [TextContent (trim before) false; ToolUse n input false; TextContent (trim after) true].
Proof.
  intros Hws1 Hws2 Hws3 Hn Hi Hbefore Hafter Hjson Htb Hta.
  set (tag := toolUseTag ws1 n ws2 i ws3).
  set (message := before +:+ tag +:+ after).
  assert (Hlen : String.length message
                 = (String.length before + String.length tag + String.length after)%nat).
  { subst message. rewrite !str_length_app. lia. }
  assert (Hb : before <> EmptyString) by (apply trim_not_empty; exact Htb).
  assert (Ha : after <> EmptyString) by (apply trim_not_empty; exact Hta).
  assert (Hblen : (0 < String.length before)%nat) by (destruct before; [congruence | cbn; lia]).
  assert (Halen : (0 < String.length after)%nat) by (destruct after; [congruence | cbn; lia]).
  assert (Hfirst : exec message 0
                   = Some {| index := String.length before; whole := tag;
                             group1 := n; group2 := i |}).
  { unfold exec. cbn [Nat.ltb Nat.leb]. rewrite dropStr_0. subst message.
    rewrite search_skip.
    - rewrite (search_here _ _ n i after) by (apply matchHere_tag; assumption).
      rewrite takeStr_whole. reflexivity.
    - intros x y Hxy Hy. unfold matchHere, literalSpacesLiteral.
      assert (Hlit : literal "<tool_use>" (y +:+ tag +:+ after) = None).
      { subst tag. unfold toolUseTag. rewrite !str_app_assoc.
        exact (literal_not_inside "<" "tool_use>" before x y _ eq_refl Hbefore Hxy Hy). }
      rewrite Hlit. reflexivity. }
  assert (Hsecond : exec message (String.length before + String.length tag) = None).
  { unfold exec.
    destruct (_ <? _)%nat eqn:Hlt; [reflexivity|].
    subst message. rewrite dropStr_app.
    rewrite <- (Nat.add_0_r (String.length tag)), dropStr_app, dropStr_0.
    apply search_none. exact Hafter. }
  unfold parseAssistantMessage.
  cbn [parseLoop]. rewrite Hfirst. cbn [index whole group1 group2].
  destruct (Nat.ltb_spec 0 (String.length before)) as [_|]; [|lia].
  assert (Hslice : slice message 0 (String.length before) = before).
  { unfold slice. rewrite Nat.sub_0_r, dropStr_0. subst message. apply takeStr_length. }
  rewrite Hslice, (isEmpty_false _ Htb), Hjson.
  assert (Hloop : forall fuel content,
             parseLoop fuel message (String.length before + String.length tag) content
             = (content, (String.length before + String.length tag)%nat)).
  { intros [|fuel] content; [reflexivity|]. cbn [parseLoop]. rewrite Hsecond. reflexivity. }
  rewrite Hloop.
  destruct (Nat.ltb_spec (String.length before + String.length tag) (String.length message))
    as [_|]; [|lia].
  assert (Hrest : sliceFrom message (String.length before + String.length tag) = after).
  { unfold sliceFrom. subst message. rewrite dropStr_app. apply dropStr_length. }
  rewrite Hrest, (isEmpty_false _ Hta). reflexivity.
Qed.
End WithRuntime.

Lemma parse_prose_tag_prose_witness :
  @parseAssistantMessage Demo.runtime
    ("I will read it. " +:+ toolUseTag " " "read_file" EmptyString "{}" EmptyString
     +:+ " Then I will answer.")
  = [TextContent "I will read it." false; ToolUse "read_file" (JObject []) false;
     TextContent "Then I will answer." true].
Proof.
  apply (@parse_prose_tag_prose Demo.runtime "I will read it. " " Then I will answer."
           " " "read_file" EmptyString "{}" EmptyString (JObject []));
    solve [reflexivity | discriminate].
Defined.

(** C7 (as stated) fails: prose is trimmed before it becomes a block, so a
    prose of white space gives no block at all (two blocks, not three) and
    the trailing block holds the prose without its leading space. *)
Lemma untrimmed_prose_is_not_kept :
  @parseAssistantMessage Demo.runtime
    (" " +:+ toolUseTag EmptyString "read_file" EmptyString "{}" EmptyString +:+ " done")
  = [ToolUse "read_file" (JObject []) false; TextContent "done" true].
Proof. vm_compute. reflexivity. Qed.

End ParserFacts.

(** ** The parser on a growing buffer *)

Module StabilityFacts.
Import JsString Task StringFacts ParserFacts.

Implicit Types (s t l g x y u v : string) (c e : ascii).

(** Appends associated to the right, through the characters of literals. *)
Ltac norm_app := repeat (rewrite str_app_assoc || rewrite str_app_cons || rewrite str_app_nil_l).

Lemma literal_stable l s r x : literal l s = Some r -> literal l (s +:+ x) = Some (r +:+ x).
Proof. intros ->%literal_inv. rewrite str_app_assoc. apply literal_app. Qed.

Lemma literal_none_stable l s x :
  literal l s = None -> (String.length l <= String.length s)%nat ->
  literal l (s +:+ x) = None.
Proof.
  revert s. induction l as [|a l IH]; intros s Hl Hlen; [discriminate|].
  destruct s as [|b s]; [cbn in Hlen; lia|].
  app_literal. cbn [literal] in *. destruct (Ascii.eqb a b); [|reflexivity].
  apply IH; [exact Hl | cbn in Hlen; lia].
Qed.

Lemma literal_dropStr l s r : literal l s = Some r -> r = dropStr (String.length l) s.
Proof. intros ->%literal_inv. symmetry. apply dropStr_length. Qed.

Lemma literal_nonempty a l s r : literal (String a l) s = Some r -> s <> EmptyString.
Proof. intros Hl ->. discriminate. Qed.

Lemma dropStr_app_le n a b :
  (n <= String.length a)%nat -> dropStr n (a +:+ b) = dropStr n a +:+ b.
Proof.
  revert a. induction n as [|n IH]; intros a Hn.
  - rewrite !dropStr_0. reflexivity.
  - destruct a as [|c a]; [cbn in Hn; lia|]. app_literal. cbn [dropStr].
    apply IH. cbn in Hn. lia.
Qed.

Lemma length_dropStr n s : String.length (dropStr n s) = (String.length s - n)%nat.
Proof.
  revert s. induction n as [|n IH]; intros s; [rewrite dropStr_0; lia|].
  destruct s as [|c s]; [reflexivity|]. cbn [dropStr String.length]. apply IH.
Qed.

Lemma skipSpaces_char u c t :
  isWhiteSpace c = false -> skipSpaces (u +:+ String c t) = skipSpaces u +:+ String c t.
Proof.
  intros Hc. induction u as [|a u IH]; app_literal; cbn [skipSpaces].
  - rewrite Hc. reflexivity.
  - destruct (isWhiteSpace a); [exact IH | reflexivity].
Qed.

Lemma skipSpaces_inv s :
  exists ws, allWhiteSpace ws = true /\ s = ws +:+ skipSpaces s.
Proof.
  induction s as [|a s (ws & Hws & IH)]; [exists EmptyString; split; reflexivity|].
  cbn [skipSpaces]. destruct (isWhiteSpace a) eqn:Ha.
  - exists (String a ws). split; [cbn; rewrite Ha; exact Hws|].
    app_literal. f_equal. exact IH.
  - exists EmptyString. split; reflexivity.
Qed.

Lemma skipSpaces_stable s x :
  skipSpaces s <> EmptyString -> skipSpaces (s +:+ x) = skipSpaces s +:+ x.
Proof.
  induction s as [|a s IH]; [intros Hs; exfalso; apply Hs; reflexivity|].
  app_literal. cbn [skipSpaces]. destruct (isWhiteSpace a); [exact IH | reflexivity].
Qed.

Section Pattern.
Context {R : Type}.
Variables (l1' l2' : string) (e c : ascii).
Hypothesis (He : isWhiteSpace e = false).
Hypothesis (Hc : isWhiteSpace c = false).
Variable (rest : string -> option R).

Let l1 := l1' +:+ String e EmptyString.
Let l2 := String c l2'.
Let pattern := literalSpacesLiteral l1 l2 rest.

Lemma pattern_inv s res :
  pattern s = Some res ->
  exists ws s2, allWhiteSpace ws = true /\ s = l1 +:+ ws +:+ l2 +:+ s2 /\ rest s2 = Some res.
Proof.
  unfold pattern, literalSpacesLiteral. intros Hp.
  destruct (literal l1 s) as [s1|] eqn:H1; [|discriminate]. cbn [mbind option_bind] in Hp.
  destruct (literal l2 (skipSpaces s1)) as [s2|] eqn:H2; [|discriminate].
  cbn [mbind option_bind] in Hp.
  destruct (skipSpaces_inv s1) as (ws & Hws & Hs1).
  exists ws, s2. split; [exact Hws|]. split; [|exact Hp].
  apply literal_inv in H1. apply literal_inv in H2. rewrite H1, Hs1, H2. reflexivity.
Qed.

Lemma pattern_app ws s2 :
  allWhiteSpace ws = true -> pattern (l1 +:+ ws +:+ l2 +:+ s2) = rest s2.
Proof.
  intros Hws. unfold pattern, literalSpacesLiteral. rewrite literal_app.
  cbn [mbind option_bind].
  rewrite (skipSpaces_app_fixed ws _ Hws).
  - rewrite literal_app. reflexivity.
  - unfold l2. app_literal. cbn [skipSpaces]. rewrite Hc. reflexivity.
Qed.

(** A match that succeeds keeps succeeding, with the same groups, when the
    string grows at its end. *)
Lemma pattern_stable (ext : R -> R) s x res :
  (forall s2 r, rest s2 = Some r -> rest (s2 +:+ x) = Some (ext r)) ->
  pattern s = Some res -> pattern (s +:+ x) = Some (ext res).
Proof.
  intros Hrest. unfold pattern, literalSpacesLiteral. intros Hp.
  destruct (literal l1 s) as [s1|] eqn:H1; [|discriminate]. cbn [mbind option_bind] in Hp.
  destruct (literal l2 (skipSpaces s1)) as [s2|] eqn:H2; [|discriminate].
  cbn [mbind option_bind] in Hp.
  rewrite (literal_stable _ _ _ x H1). cbn [mbind option_bind].
  rewrite skipSpaces_stable by (apply (literal_nonempty c l2' _ s2); exact H2).
  rewrite (literal_stable _ _ _ x H2). cbn [mbind option_bind].
  apply Hrest. exact Hp.
Qed.

(** In front of a place where the pattern matches, a failure of the
    pattern is a mismatch of one of its two literals, and stays a failure
    when the string grows at its end. *)
Lemma pattern_failure_stable y ws tl x :
  y <> EmptyString ->
  allWhiteSpace ws = true ->
  (forall v, rest (v +:+ tl) <> None) ->
  pattern (y +:+ l1 +:+ ws +:+ l2 +:+ tl) = None ->
  pattern ((y +:+ l1 +:+ ws +:+ l2 +:+ tl) +:+ x) = None.
Proof.
  intros Hy Hws Htotal. set (s := y +:+ l1 +:+ ws +:+ l2 +:+ tl).
  unfold pattern, literalSpacesLiteral. intros Hp.
  assert (Hylen : (0 < String.length y)%nat) by (destruct y; [congruence | cbn; lia]).
  assert (Hl1len : String.length l1 = S (String.length l1')).
  { unfold l1. rewrite str_length_app. cbn. lia. }
  destruct (literal l1 s) as [s1|] eqn:H1.
  2:{ rewrite literal_none_stable; [reflexivity | exact H1 |].
      subst s. rewrite !str_length_app. lia. }
  cbn [mbind option_bind] in Hp.
  rewrite (literal_stable _ _ _ x H1). cbn [mbind option_bind].
  (* what follows the first literal ends with the last character of [l1] *)
  assert (Hs : s = (y +:+ l1') +:+ String e (ws +:+ l2 +:+ tl)).
  { subst s. unfold l1. norm_app. reflexivity. }
  assert (Hs1 : s1 = dropStr (String.length l1) (y +:+ l1') +:+ String e (ws +:+ l2 +:+ tl)).
  { rewrite (literal_dropStr _ _ _ H1), Hs. apply dropStr_app_le.
    rewrite str_length_app, Hl1len. lia. }
  set (u := dropStr (String.length l1) (y +:+ l1')) in Hs1.
  assert (Hskip : skipSpaces s1 = skipSpaces u +:+ String e (ws +:+ l2 +:+ tl)).
  { rewrite Hs1. apply skipSpaces_char. exact He. }
  assert (Hskipx : skipSpaces (s1 +:+ x) = skipSpaces s1 +:+ x).
  { apply skipSpaces_stable. rewrite Hskip. destruct (skipSpaces u); discriminate. }
  rewrite Hskipx.
  destruct (literal l2 (skipSpaces s1)) as [s2|] eqn:H2.
  2:{ rewrite literal_none_stable; [reflexivity | exact H2 |].
      rewrite Hskip, !str_length_app. cbn [String.length]. rewrite !str_length_app. lia. }
  exfalso. cbn [mbind option_bind] in Hp.
  apply (Htotal (dropStr (String.length l2) (skipSpaces u +:+ String e (ws +:+ l2)))).
  rewrite <- Hp. f_equal.
  rewrite (literal_dropStr _ _ _ H2), Hskip.
  rewrite <- dropStr_app_le.
  - f_equal. norm_app. reflexivity.
  - rewrite !str_length_app. cbn [String.length]. rewrite !str_length_app. lia.
Qed.
End Pattern.

Section Lazy.
Context {R : Type}.
Variable (rest : string -> option R).

Lemma lazyAny_inv s g r :
  lazyAny rest s = Some (g, r) ->
  exists t, s = g +:+ t /\ rest t = Some r /\
            forall x y, g = x +:+ y -> y <> EmptyString -> rest (y +:+ t) = None.
Proof.
  revert g. induction s as [|a s IH]; intros g Hl; cbn [lazyAny] in Hl.
  - destruct (rest EmptyString) as [r0|] eqn:Hr; [|discriminate].
    injection Hl as <- <-. exists EmptyString. split; [reflexivity|]. split; [exact Hr|].
    intros x y Hxy Hy. destruct x, y; try discriminate. congruence.
  - destruct (rest (String a s)) as [r0|] eqn:Hr.
    + injection Hl as <- <-. exists (String a s). split; [reflexivity|]. split; [exact Hr|].
      intros x y Hxy Hy. destruct x, y; try discriminate. congruence.
    + destruct (lazyAny rest s) as [[g' r']|] eqn:Hrec; [|discriminate].
      injection Hl as <- <-.
      destruct (IH g' eq_refl) as (t & -> & Ht & Hnone).
      exists t. split; [reflexivity|]. split; [exact Ht|].
      intros x y Hxy Hy. destruct x as [|b x].
      * rewrite str_app_nil_l in Hxy. subst y. exact Hr.
      * rewrite str_app_cons in Hxy. injection Hxy as -> Hxy. apply (Hnone x y Hxy Hy).
Qed.

Lemma lazyAny_some v t : rest t <> None -> lazyAny rest (v +:+ t) <> None.
Proof.
  intros Ht. induction v as [|a v IH]; app_literal.
  - destruct t; cbn [lazyAny]; destruct (rest _); congruence.
  - cbn [lazyAny]. destruct (rest (String a (v +:+ t))); [discriminate|].
    destruct (lazyAny rest (v +:+ t)) as [[g r]|]; [discriminate | congruence].
Qed.

(** Once a lazy group has matched, it matches after any longer start. *)
Lemma lazyAny_total s res v : lazyAny rest s = Some res -> lazyAny rest (v +:+ s) <> None.
Proof.
  destruct res as [g r]. intros (t & -> & Ht & _)%lazyAny_inv.
  rewrite <- str_app_assoc. apply lazyAny_some. congruence.
Qed.
End Lazy.

Section LazyPattern.
Context {R : Type}.
Variables (l1' l2' : string) (e c : ascii).
Hypothesis (He : isWhiteSpace e = false).
Hypothesis (Hc : isWhiteSpace c = false).
Variables (rest : string -> option R) (ext : R -> R) (x : string).
Hypothesis (Hstable : forall s2 r, rest s2 = Some r -> rest (s2 +:+ x) = Some (ext r)).
Hypothesis (Htotal : forall s2 r v, rest s2 = Some r -> rest (v +:+ s2) <> None).

(** A lazy group followed by the pattern stops at the same place when the
    string grows at its end. *)
Lemma lazyAny_pattern_stable s g res :
  lazyAny (literalSpacesLiteral (l1' +:+ String e EmptyString) (String c l2') rest) s
  = Some (g, res) ->
  lazyAny (literalSpacesLiteral (l1' +:+ String e EmptyString) (String c l2') rest) (s +:+ x)
  = Some (g, ext res).
Proof.
  intros (t & -> & Ht & Hnone)%lazyAny_inv.
  destruct (pattern_inv l1' l2' e c rest t res Ht) as (ws & s2 & Hws & -> & Hs2).
  rewrite str_app_assoc. apply lazyAny_stops.
  - intros x0 y Hxy Hy. rewrite <- str_app_assoc.
    apply (pattern_failure_stable l1' l2' e c He rest y ws s2 x Hy Hws).
    + intros v. apply (Htotal s2 res v Hs2).
    + apply (Hnone x0 y Hxy Hy).
  - apply (pattern_stable l1' l2' e c rest ext); [exact Hstable | exact Ht].
Qed.
End LazyPattern.

Lemma lazy_closeInput_stable x s g r :
  lazyAny closeInput s = Some (g, r) -> lazyAny closeInput (s +:+ x) = Some (g, r +:+ x).
Proof.
  apply (lazyAny_pattern_stable "</input" "/tool_use>" ">" "<" eq_refl Some (extendRest x) x).
  - intros s2 r0 [= ->]. reflexivity.
  - intros s2 r0 v _. discriminate.
Qed.

Lemma lazy_closeName_stable x s g r :
  lazyAny closeName s = Some (g, r) -> lazyAny closeName (s +:+ x) = Some (g, extendInput x r).
Proof.
  apply (lazyAny_pattern_stable "</name" "input>" ">" "<" eq_refl
           (lazyAny closeInput) (extendInput x) x).
  - intros s2 [g2 r2] Hs2. apply (lazy_closeInput_stable x s2 g2 r2 Hs2).
  - intros s2 r0 v Hs2. apply (lazyAny_total closeInput s2 r0 v Hs2).
Qed.

(** P1: a match stays the same match when the buffer grows. *)
Lemma matchHere_stable x s r :
  matchHere s = Some r -> matchHere (s +:+ x) = Some (extendMatch x r).
Proof.
  apply (pattern_stable "<tool_use" "name>" ">" "<" (lazyAny closeName) (extendMatch x)).
  intros s2 [g1 r1] Hs2. apply (lazy_closeName_stable x s2 g1 r1 Hs2).
Qed.

(** P2: in front of a match, a place where the expression does not match
    stays one when the buffer grows. *)
Lemma matchHere_skip_stable x y m r :
  y <> EmptyString ->
  matchHere m = Some r ->
  matchHere (y +:+ m) = None ->
  matchHere ((y +:+ m) +:+ x) = None.
Proof.
  intros Hy Hm Hnone.
  destruct (pattern_inv "<tool_use" "name>" ">" "<" (lazyAny closeName) m r Hm)
    as (ws & s2 & Hws & -> & Hs2).
  apply (pattern_failure_stable "<tool_use" "name>" ">" "<" eq_refl
           (lazyAny closeName) y ws s2 x Hy Hws).
  - intros v. apply (lazyAny_total closeName s2 r v Hs2).
  - exact Hnone.
Qed.

(** What a match is made of. *)
Lemma matchHere_inv m g1 g2 rest :
  matchHere m = Some (g1, (g2, rest)) ->
  exists ws1 ws2 ws3, m = toolUseTag ws1 g1 ws2 g2 ws3 +:+ rest.
Proof.
  intros Hm.
  destruct (pattern_inv "<tool_use" "name>" ">" "<" _ m _ Hm) as (ws1 & s2 & _ & -> & Hs2).
  apply lazyAny_inv in Hs2. destruct Hs2 as (t & -> & Ht & _).
  destruct (pattern_inv "</name" "input>" ">" "<" _ t _ Ht) as (ws2 & s3 & _ & -> & Hs3).
  apply lazyAny_inv in Hs3. destruct Hs3 as (t3 & -> & Ht3 & _).
  destruct (pattern_inv "</input" "/tool_use>" ">" "<" _ t3 _ Ht3) as (ws3 & s4 & _ & -> & Hs4).
  injection Hs4 as ->.
  exists ws1, ws2, ws3. unfold toolUseTag. norm_app. reflexivity.
Qed.

Lemma toolUseTag_length ws1 g1 ws2 g2 ws3 :
  (0 < String.length (toolUseTag ws1 g1 ws2 g2 ws3))%nat.
Proof. unfold toolUseTag. app_literal. cbn [String.length]. lia. Qed.

Lemma takeStr_app_le n a b :
  (n <= String.length a)%nat -> takeStr n (a +:+ b) = takeStr n a.
Proof.
  revert a. induction n as [|n IH]; intros a Hn; [reflexivity|].
  destruct a as [|c a]; [cbn in Hn; lia|]. app_literal. cbn [takeStr].
  rewrite IH; [reflexivity | cbn in Hn; lia].
Qed.

(** A successful search: what it skipped, where it matched, and the rest. *)
Lemma search_inv s pos mt :
  search s pos = Some mt ->
  exists y rest,
    s = y +:+ whole mt +:+ rest /\
    index mt = (pos + String.length y)%nat /\
    (0 < String.length (whole mt))%nat /\
    matchHere (whole mt +:+ rest) = Some (group1 mt, (group2 mt, rest)) /\
    forall x' y', y = x' +:+ y' -> y' <> EmptyString ->
                  matchHere (y' +:+ whole mt +:+ rest) = None.
Proof.
  revert pos mt. induction s as [|c s IH]; intros pos mt Hs.
  - cbn [search] in Hs.
    destruct (matchHere EmptyString) as [[g1 [g2 rest]]|] eqn:Hm; [|discriminate].
    destruct (matchHere_inv _ _ _ _ Hm) as (ws1 & ws2 & ws3 & Heq).
    exfalso. unfold toolUseTag in Heq. app_literal in Heq. discriminate.
  - destruct (matchHere (String c s)) as [[g1 [g2 rest]]|] eqn:Hm.
    + destruct (matchHere_inv _ _ _ _ Hm) as (ws1 & ws2 & ws3 & Heq).
      rewrite (search_here _ _ _ _ _ Hm), Heq, takeStr_whole in Hs. injection Hs as <-.
      cbn [index whole group1 group2]. rewrite Heq in Hm. rewrite Heq.
      exists EmptyString, rest. split; [reflexivity|]. split; [cbn; lia|].
      split; [apply toolUseTag_length|]. split; [exact Hm|].
      intros x' y' Hxy Hy. destruct x', y'; try discriminate. congruence.
    + cbn [search] in Hs. rewrite Hm in Hs.
      destruct (IH (S pos) mt Hs) as (y & rest & -> & Hidx & Hlen & Hm' & Hnone).
      exists (String c y), rest. split; [reflexivity|]. split; [cbn; lia|].
      split; [exact Hlen|]. split; [exact Hm'|].
      intros x' y' Hxy Hy. destruct x' as [|b x'].
      * rewrite str_app_nil_l in Hxy. subst y'. rewrite str_app_cons. exact Hm.
      * rewrite str_app_cons in Hxy. injection Hxy as -> Hxy. apply (Hnone x' y' Hxy Hy).
Qed.

(** The first match of a buffer is the first match of every longer one. *)
Lemma search_stable x s pos mt :
  search s pos = Some mt -> search (s +:+ x) pos = Some mt.
Proof.
  intros Hs. destruct (search_inv s pos mt Hs) as (y & rest & -> & Hidx & Hlen & Hm & Hnone).
  rewrite !str_app_assoc, search_skip.
  - rewrite (search_here _ _ (group1 mt) (group2 mt) (rest +:+ x)).
    + rewrite takeStr_whole, <- Hidx. destruct mt; reflexivity.
    + rewrite <- str_app_assoc. apply (matchHere_stable x _ _ Hm).
  - intros x' y' Hxy Hy.
    rewrite <- (str_app_assoc (whole mt)), <- (str_app_assoc y').
    apply (matchHere_skip_stable x y' (whole mt +:+ rest) _ Hy Hm).
    apply (Hnone x' y' Hxy Hy).
Qed.

Lemma length_takeStr_le n s : (String.length (takeStr n s) <= n)%nat.
Proof.
  revert s. induction n as [|n IH]; intros s; [cbn; lia|].
  destruct s as [|c s]; cbn [takeStr String.length]; [lia|]. specialize (IH s). lia.
Qed.

Lemma dropStr_split n s :
  (n <= String.length s)%nat -> s = takeStr n s +:+ dropStr n s.
Proof.
  revert s. induction n as [|n IH]; intros s Hn; [rewrite dropStr_0; reflexivity|].
  destruct s as [|c s]; [cbn in Hn; lia|]. cbn [takeStr dropStr]. app_literal.
  f_equal. apply IH. cbn in Hn. lia.
Qed.

(** What [exec] returns: a match inside the buffer, at or after
    [lastIndex], of at least one character. *)
Lemma exec_inv message lastIndex mt :
  exec message lastIndex = Some mt ->
  (lastIndex <= index mt)%nat /\
  (0 < String.length (whole mt))%nat /\
  (index mt + String.length (whole mt) <= String.length message)%nat /\
  forall x, exec (message +:+ x) lastIndex = Some mt /\
            slice (message +:+ x) lastIndex (index mt) = slice message lastIndex (index mt).
Proof.
  unfold exec. destruct (Nat.ltb_spec (String.length message) lastIndex) as [|Hle];
    [discriminate|].
  intros Hs. destruct (search_inv _ _ _ Hs) as (y & rest & Hd & Hidx & Hlen & _ & _).
  assert (Hsize : String.length (dropStr lastIndex message)
                  = (String.length y + String.length (whole mt) + String.length rest)%nat).
  { rewrite Hd, !str_length_app. lia. }
  rewrite length_dropStr in Hsize.
  split; [lia|]. split; [exact Hlen|]. split; [lia|].
  intros x. rewrite str_length_app.
  destruct (Nat.ltb_spec (String.length message + String.length x) lastIndex); [lia|].
  rewrite (dropStr_app_le _ _ _ Hle). split.
  - apply search_stable. exact Hs.
  - unfold slice. rewrite (dropStr_app_le _ _ _ Hle). apply takeStr_app_le.
    rewrite length_dropStr. lia.
Qed.
End StabilityFacts.

(** ** The blocks of a stream and their tool results *)

Module StreamFacts.
Import ContextManager Task StringFacts ParserFacts StabilityFacts DispatchFacts LoopFacts.

Section WithRuntime.
Context `{Runtime}.
Implicit Types (st : TaskState) (content blocks extra : list AssistantMessageContent).

Lemma blocksOfMatch_complete message lastIndex m :
  Forall complete (blocksOfMatch message lastIndex m).
Proof.
  unfold blocksOfMatch. apply Forall_app. split.
  - destruct (_ <? _)%nat; [|constructor].
    destruct (JsString.isEmpty _); repeat constructor.
  - destruct (JSON_parse _); repeat constructor.
Qed.

Lemma parseLoop_step fuel message lastIndex content m :
  exec message lastIndex = Some m ->
  parseLoop (S fuel) message lastIndex content
  = parseLoop fuel message (index m + String.length (whole m))
      (content ++ blocksOfMatch message lastIndex m).
Proof.
  intros Hexec. cbn [parseLoop]. rewrite Hexec. f_equal. unfold blocksOfMatch.
  destruct (_ <? _)%nat.
  - destruct (JsString.isEmpty _); destruct (JSON_parse _);
      rewrite ?app_nil_l, <- ?app_assoc; reflexivity.
  - destruct (JSON_parse _); reflexivity.
Qed.

Lemma parseLoop_none fuel message lastIndex content :
  exec message lastIndex = None ->
  parseLoop fuel message lastIndex content = (content, lastIndex).
Proof. intros Hexec. destruct fuel; [reflexivity|]. cbn [parseLoop]. rewrite Hexec. reflexivity. Qed.

(** The loop only appends, and what it appends is complete. *)
Lemma parseLoop_appends fuel message lastIndex content :
  exists extra, fst (parseLoop fuel message lastIndex content) = content ++ extra /\
                Forall complete extra.
Proof.
  revert lastIndex content. induction fuel as [|fuel IH]; intros lastIndex content.
  - exists []. split; [symmetry; apply app_nil_r | constructor].
  - destruct (exec message lastIndex) as [m|] eqn:Hexec.
    + rewrite (parseLoop_step _ _ _ _ _ Hexec).
      destruct (IH (index m + String.length (whole m))%nat
                  (content ++ blocksOfMatch message lastIndex m)) as (extra & -> & Hextra).
      exists (blocksOfMatch message lastIndex m ++ extra). split; [apply eq_sym, app_assoc|].
      apply Forall_app. split; [apply blocksOfMatch_complete | exact Hextra].
    + rewrite (parseLoop_none _ _ _ _ Hexec).
      exists []. split; [symmetry; apply app_nil_r | constructor].
Qed.

(** On a longer buffer the loop passes through the state in which it ended
    on the shorter one. *)
Lemma parseLoop_extend x message fuel :
  forall lastIndex content fuel',
    (String.length message - lastIndex < fuel)%nat ->
    (String.length (message +:+ x) - lastIndex < fuel')%nat ->
    exists fuel1,
      parseLoop fuel' (message +:+ x) lastIndex content
      = parseLoop fuel1 (message +:+ x)
          (snd (parseLoop fuel message lastIndex content))
          (fst (parseLoop fuel message lastIndex content)).
Proof.
  induction fuel as [|fuel IH]; intros lastIndex content fuel' Hfuel Hfuel'; [lia|].
  destruct (exec message lastIndex) as [m|] eqn:Hexec.
  - destruct (exec_inv _ _ _ Hexec) as (Hle & Hlen & Hend & Hx).
    destruct (Hx x) as [Hexec' Hslice].
    destruct fuel' as [|fuel']; [lia|].
    rewrite (parseLoop_step _ _ _ _ _ Hexec), (parseLoop_step _ _ _ _ _ Hexec').
    assert (Hblocks : blocksOfMatch (message +:+ x) lastIndex m
                      = blocksOfMatch message lastIndex m).
    { unfold blocksOfMatch. rewrite Hslice. reflexivity. }
    rewrite Hblocks. apply IH; [lia|].
    rewrite str_length_app in *. lia.
  - rewrite (parseLoop_none _ _ _ _ Hexec). cbn [fst snd]. exists fuel'. reflexivity.
Qed.

(** The complete blocks of a buffer stay, in place, when text is added. *)
Lemma completedBlocks_extend message x :
  exists extra, completedBlocks (message +:+ x) = completedBlocks message ++ extra /\
                Forall complete extra.
Proof.
  unfold completedBlocks.
  destruct (parseLoop_extend x message (S (String.length message)) 0 []
              (S (String.length (message +:+ x)))) as [fuel1 ->]; [lia | lia |].
  apply parseLoop_appends.
Qed.

Lemma completedBlocks_complete message : Forall complete (completedBlocks message).
Proof.
  unfold completedBlocks.
  destruct (parseLoop_appends (S (String.length message)) message 0 []) as (extra & -> & He).
  exact He.
Qed.

(** The parse is the complete blocks, then at most one partial text. *)
Lemma parse_shape message :
  exists tail, parseAssistantMessage message = completedBlocks message ++ tail /\
               (tail = [] \/ exists t, tail = [TextContent t true]).
Proof.
  unfold parseAssistantMessage, completedBlocks.
  destruct (parseLoop _ message 0 []) as [content lastIndex]. cbn [fst].
  destruct (_ <? _)%nat.
  - destruct (JsString.isEmpty (JsString.trim (JsString.sliceFrom _ _))).
    + destruct (_ && _); [|exists []; split; [symmetry; apply app_nil_r | left; reflexivity]].
      exists [TextContent message true]. split; [reflexivity | right; eauto].
    + replace ((length (content ++ _) =? 0)%nat) with false
        by (symmetry; apply Nat.eqb_neq; rewrite length_app; cbn; lia).
      cbn [andb]. eexists. split; [reflexivity | right; eauto].
  - destruct (_ && _); [|exists []; split; [symmetry; apply app_nil_r | left; reflexivity]].
    exists [TextContent message true]. split; [reflexivity | right; eauto].
Qed.

Lemma loopFields_abort st st' : loopFields st' = loopFields st -> abort st' = abort st.
Proof. unfold loopFields. intros Heq. congruence. Qed.

Lemma presentBlock_history st c :
  exists msgs,
    apiConversationHistory (presentBlock st c) = apiConversationHistory st ++ msgs /\
    Forall2 answers (List.filter executable [c]) msgs.
Proof.
  destruct c as [t p | n input p].
  - exists []. split; [symmetry; apply app_nil_r | constructor].
  - cbn [presentBlock List.filter]. destruct (executable (ToolUse n input p)).
    + eexists. split; [apply executeTool_history|].
      constructor; [eexists; reflexivity | constructor].
    + exists []. split; [symmetry; apply app_nil_r | constructor].
Qed.

(** One call of [presentAssistantMessage] on a cursor that stands in front
    of complete blocks, themselves followed by at most one partial text:
    the cursor moves past the complete blocks, and the history gets one
    message per executable block among them, in their order. *)
Lemma present_run blocks :
  forall pre tail st fuel,
    assistantMessageContent st = pre ++ blocks ++ tail ->
    currentStreamingContentIndex st = length pre ->
    Forall complete blocks ->
    (tail = [] \/ exists t, tail = [TextContent t true]) ->
    (length blocks < fuel)%nat ->
    let st' := presentAssistantMessageN fuel st in
    currentStreamingContentIndex st' = length (pre ++ blocks) /\
    exists msgs,
      apiConversationHistory st' = apiConversationHistory st ++ msgs /\
      Forall2 answers (List.filter executable blocks) msgs.
Proof.
  induction blocks as [|b bs IH]; intros pre tail st fuel Hcontent Hcursor Hcomplete Htail Hfuel.
  - destruct fuel as [|fuel]; [lia|]. cbn [presentAssistantMessageN].
    rewrite Hcontent, Hcursor, app_nil_l, app_nil_r.
    destruct Htail as [-> | [t ->]].
    + rewrite app_nil_r, Nat.leb_refl. split; [exact Hcursor|].
      exists []. split; [symmetry; apply app_nil_r | constructor].
    + rewrite length_app. cbn [length].
      destruct (Nat.leb_spec (length pre + 1) (length pre)); [lia|].
      rewrite (list_lookup_middle pre [] (TextContent t true) (length pre) eq_refl).
      cbn [partialOf presentBlock].
      split; [exact Hcursor|].
      exists []. split; [symmetry; apply app_nil_r | constructor].
  - destruct fuel as [|fuel]; [cbn in Hfuel; lia|]. cbn [presentAssistantMessageN].
    apply Forall_cons in Hcomplete. destruct Hcomplete as [Hb Hbs].
    rewrite Hcontent, Hcursor.
    destruct (Nat.leb_spec (length (pre ++ (b :: bs) ++ tail)) (length pre)) as [Hle|_].
    { rewrite !length_app in Hle. cbn [length] in Hle. lia. }
    change ((b :: bs) ++ tail) with (b :: bs ++ tail).
    rewrite (list_lookup_middle pre (bs ++ tail) b (length pre) eq_refl). rewrite Hb.
    destruct (presentBlock_stream_state st b) as (Hc1 & Hi1 & _).
    destruct (presentBlock_history st b) as (msgs1 & Hh1 & Ha1).
    set (st1 := presentBlock st b) in *.
    set (st2 := set_currentStreamingContentIndex st1 (S (currentStreamingContentIndex st1))).
    assert (Hc2 : assistantMessageContent st2 = (pre ++ [b]) ++ bs ++ tail).
    { subst st2. cbn. rewrite Hc1, Hcontent, <- app_assoc. reflexivity. }
    assert (Hi2 : currentStreamingContentIndex st2 = length (pre ++ [b])).
    { subst st2. cbn. rewrite Hi1, Hcursor, length_app. cbn. lia. }
    assert (Hfilter : List.filter executable (b :: bs)
                      = List.filter executable [b] ++ List.filter executable bs).
    { cbn [List.filter]. destruct (executable b); reflexivity. }
    destruct (Nat.ltb_spec (currentStreamingContentIndex st2)
                (length (assistantMessageContent st2))) as [Hlt|Hge].
    + destruct (IH (pre ++ [b]) tail st2 fuel Hc2 Hi2 Hbs Htail) as (Hi' & msgs2 & Hh2 & Ha2).
      { cbn in Hfuel. lia. }
      split; [rewrite Hi', <- app_assoc; reflexivity|].
      exists (msgs1 ++ msgs2). split.
      * rewrite Hh2. subst st2. cbn. rewrite Hh1, <- app_assoc. reflexivity.
      * rewrite Hfilter. apply Forall2_app; assumption.
    + rewrite Hc2, Hi2, !length_app in Hge. cbn [length] in Hge.
      assert (bs = []) as -> by (destruct bs; [reflexivity | cbn in Hge; lia]).
      split; [cbn; exact Hi2|].
      exists msgs1. split; [cbn; exact Hh1|].
      rewrite Hfilter. cbn [List.filter]. rewrite app_nil_r. exact Ha1.
Qed.

Lemma filter_executable_parse message :
  List.filter executable (parseAssistantMessage message)
  = List.filter executable (completedBlocks message).
Proof.
  destruct (parse_shape message) as (tail & -> & [-> | [t ->]]).
  - rewrite app_nil_r. reflexivity.
  - rewrite List.filter_app. apply app_nil_r.
Qed.

Lemma answers_user blocks msgs :
  Forall2 answers blocks msgs -> Forall (fun m => role m = user) msgs.
Proof.
  induction 1 as [|c m blocks msgs [r ->] _ IH]; constructor; [|exact IH].
  destruct r; reflexivity.
Qed.

Lemma consumeChunks_history cs :
  forall thrown buffer st h0 msgs0,
    abort st = false ->
    currentStreamingContentIndex st = length (completedBlocks buffer) ->
    apiConversationHistory st = h0 ++ msgs0 ->
    Forall2 answers (List.filter executable (completedBlocks buffer)) msgs0 ->
    let result := consumeChunks cs thrown buffer st in
    exists msgs,
      apiConversationHistory (snd result) = h0 ++ msgs /\
      Forall2 answers (List.filter executable (completedBlocks (snd (fst result)))) msgs.
Proof.
  induction cs as [|chunk cs IH]; intros thrown buffer st h0 msgs0 Habort Hcursor Hhist Hans.
  - exists msgs0. split; assumption.
  - cbn [consumeChunks]. rewrite Habort. destruct chunk as [t | i o |].
    + set (buffer' := buffer +:+ default EmptyString t).
      set (st1 := set_assistantMessageContent st (parseAssistantMessage buffer')).
      destruct (completedBlocks_extend buffer (default EmptyString t)) as (extra & Hext & Hextra).
      fold buffer' in Hext.
      destruct (parse_shape buffer') as (tail & Hparse & Htail).
      destruct (present_run extra (completedBlocks buffer) tail st1
                  (S (length (assistantMessageContent st1))))
        as (Hi & msgs1 & Hh & Ha).
      { subst st1. cbn. rewrite Hparse, Hext, <- app_assoc. reflexivity. }
      { exact Hcursor. }
      { exact Hextra. }
      { exact Htail. }
      { subst st1. cbn. rewrite Hparse, Hext, !length_app. lia. }
      apply (IH thrown buffer' (presentAssistantMessage st1) h0 (msgs0 ++ msgs1)).
      * unfold presentAssistantMessage.
        rewrite (loopFields_abort _ _ (presentAssistantMessageN_loopFields _ st1)).
        exact Habort.
      * unfold presentAssistantMessage. rewrite Hi, Hext. reflexivity.
      * unfold presentAssistantMessage. rewrite Hh. subst st1. cbn.
        rewrite Hhist, <- app_assoc. reflexivity.
      * rewrite Hext, List.filter_app. apply Forall2_app; assumption.
    + apply (IH thrown buffer _ h0 msgs0); assumption.
    + apply (IH thrown buffer _ h0 msgs0); assumption.
Qed.

(** [dispatch] reads the tool fields only, and what it does to them
    depends on them only. *)
Lemma dispatch_toolFields st ref toolName args :
  toolFields st = toolFields ref ->
  fst (dispatch st toolName args) = fst (dispatch ref toolName args) /\
  toolFields (snd (dispatch st toolName args))
  = toolFields (snd (dispatch ref toolName args)).
Proof.
  unfold toolFields. intros Heq. injection Heq as Hhub Hreg Hw Hd.
  unfold dispatch. rewrite Hhub.
  destruct (mcpHub ref) as [hub|] eqn:Href.
  - destruct (JsString.includes toolName "/").
    + destruct (JsString.splitLimit toolName "/" 2) as [|a [|b l]].
      * cbn. rewrite Hhub, Href, Hreg, Hw, Hd. auto.
      * cbn. rewrite Hhub, Href, Hreg, Hw, Hd. auto.
      * cbn [world set_dispatched]. rewrite Hw.
        destruct (McpHub.callTool _ _ _ _ _) as [[r|e] w]; cbn;
          rewrite Hhub, Href, Hreg, Hd; auto.
    + cbn [world toolRegistry set_dispatched]. rewrite Hreg, Hw.
      destruct (ToolRegistry.executeTool _ _ _ _) as [r w]. cbn.
      rewrite Hhub, Href, Hreg, Hd. auto.
  - cbn [world toolRegistry set_dispatched]. rewrite Hreg, Hw.
    destruct (ToolRegistry.executeTool _ _ _ _) as [r w]. cbn.
    rewrite Hhub, Href, Hreg, Hd. auto.
Qed.

Lemma executeTool_toolFields st ref toolName args :
  toolFields st = toolFields ref ->
  apiConversationHistory (executeTool st toolName args)
  = apiConversationHistory st ++ [outcomeMessage toolName (fst (dispatch ref toolName args))] /\
  toolFields (executeTool st toolName args)
  = toolFields (snd (dispatch ref toolName args)).
Proof.
  intros Heq.
  destruct (dispatch_toolFields
              (emitEvent st (message (tool_execution_started toolName args))) ref
              toolName args Heq) as [Hr Hf].
  split.
  - rewrite executeTool_history, Hr. reflexivity.
  - rewrite <- Hf. unfold executeTool.
    destruct (dispatch _ toolName args) as [[result|e] st2]; cbn [snd].
    + destruct (_ || _); reflexivity.
    + reflexivity.
Qed.

Lemma runTools_toolFields blocks :
  forall st ref,
    toolFields st = toolFields ref ->
    fst (runTools st blocks) = fst (runTools ref blocks) /\
    toolFields (snd (runTools st blocks)) = toolFields (snd (runTools ref blocks)).
Proof.
  induction blocks as [|[t p | n input p] blocks IH]; intros st ref Heq; cbn [runTools].
  - auto.
  - apply IH, Heq.
  - destruct (dispatch_toolFields st ref n input Heq) as [Hr Hf].
    destruct (dispatch st n input) as [r1 st1], (dispatch ref n input) as [r2 ref1].
    cbn [fst snd] in Hr, Hf. subst r2.
    destruct (IH st1 ref1 Hf) as [Hm Hf'].
    destruct (runTools st1 blocks) as [m1 st2], (runTools ref1 blocks) as [m2 ref2].
    cbn [fst snd] in *. subst m2. auto.
Qed.

Lemma runTools_app blocks1 blocks2 :
  forall st,
    runTools st (blocks1 ++ blocks2)
    = (fst (runTools st blocks1) ++ fst (runTools (snd (runTools st blocks1)) blocks2),
       snd (runTools (snd (runTools st blocks1)) blocks2)).
Proof.
  induction blocks1 as [|[t p | n input p] blocks1 IH]; intros st; cbn [runTools app].
  - cbn [fst snd app]. destruct (runTools st blocks2). reflexivity.
  - apply IH.
  - destruct (dispatch st n input) as [r st1]. rewrite IH.
    destruct (runTools st1 blocks1) as [m1 st2]. cbn [fst snd].
    destruct (runTools st2 blocks2) as [m2 st3]. reflexivity.
Qed.

Lemma runTools_answers blocks :
  forall st,
    Forall (fun c => executable c = true) blocks ->
    Forall2 answers blocks (fst (runTools st blocks)).
Proof.
  induction blocks as [|[t p | n input p] blocks IH]; intros st Hall; cbn [runTools].
  - constructor.
  - apply Forall_cons in Hall. destruct Hall as [Hc _]. discriminate.
  - apply Forall_cons in Hall. destruct Hall as [_ Hall].
    destruct (dispatch st n input) as [r st1].
    specialize (IH st1 Hall). destruct (runTools st1 blocks) as [m st2]. cbn [fst] in *.
    constructor; [exists r; reflexivity | exact IH].
Qed.

Lemma presentBlock_tools st ref c :
  toolFields st = toolFields ref ->
  apiConversationHistory (presentBlock st c)
  = apiConversationHistory st ++ fst (runTools ref (List.filter executable [c])) /\
  toolFields (presentBlock st c)
  = toolFields (snd (runTools ref (List.filter executable [c]))).
Proof.
  intros Heq. destruct c as [t p | n input p].
  - cbn. rewrite app_nil_r. auto.
  - cbn [presentBlock List.filter]. destruct (executable (ToolUse n input p)).
    + destruct (executeTool_toolFields st ref n input Heq) as [Hh Hf].
      cbn [runTools]. destruct (dispatch ref n input) as [r ref1]. cbn [fst snd] in *. auto.
    + cbn. rewrite app_nil_r. auto.
Qed.

(** [present_run], with what the tools were given and what they left. *)
Lemma present_run_tools blocks :
  forall pre tail st ref fuel,
    assistantMessageContent st = pre ++ blocks ++ tail ->
    currentStreamingContentIndex st = length pre ->
    Forall complete blocks ->
    (tail = [] \/ exists t, tail = [TextContent t true]) ->
    (length blocks < fuel)%nat ->
    toolFields st = toolFields ref ->
    let st' := presentAssistantMessageN fuel st in
    apiConversationHistory st'
    = apiConversationHistory st ++ fst (runTools ref (List.filter executable blocks)) /\
    toolFields st' = toolFields (snd (runTools ref (List.filter executable blocks))).
Proof.
  induction blocks as [|b bs IH];
    intros pre tail st ref fuel Hcontent Hcursor Hcomplete Htail Hfuel Href.
  - destruct fuel as [|fuel]; [lia|]. cbn [presentAssistantMessageN].
    rewrite Hcontent, Hcursor, app_nil_l.
    destruct Htail as [-> | [t ->]].
    + rewrite app_nil_r, Nat.leb_refl. cbn. rewrite app_nil_r. auto.
    + rewrite length_app. cbn [length].
      destruct (Nat.leb_spec (length pre + 1) (length pre)); [lia|].
      rewrite (list_lookup_middle pre [] (TextContent t true) (length pre) eq_refl).
      cbn [partialOf presentBlock]. cbn. rewrite app_nil_r. auto.
  - destruct fuel as [|fuel]; [cbn in Hfuel; lia|]. cbn [presentAssistantMessageN].
    apply Forall_cons in Hcomplete. destruct Hcomplete as [Hb Hbs].
    rewrite Hcontent, Hcursor.
    destruct (Nat.leb_spec (length (pre ++ (b :: bs) ++ tail)) (length pre)) as [Hle|_].
    { rewrite !length_app in Hle. cbn [length] in Hle. lia. }
    change ((b :: bs) ++ tail) with (b :: bs ++ tail).
    rewrite (list_lookup_middle pre (bs ++ tail) b (length pre) eq_refl). rewrite Hb.
    destruct (presentBlock_stream_state st b) as (Hc1 & Hi1 & _).
    destruct (presentBlock_tools st ref b Href) as (Hh1 & Hf1).
    assert (Hfilter : List.filter executable (b :: bs)
                      = List.filter executable [b] ++ List.filter executable bs).
    { cbn [List.filter]. destruct (executable b); reflexivity. }
    rewrite Hfilter, runTools_app. cbn [fst snd].
    set (ref1 := snd (runTools ref (List.filter executable [b]))) in *.
    set (msgs1 := fst (runTools ref (List.filter executable [b]))) in *.
    clearbody ref1 msgs1.
    set (st1 := presentBlock st b) in *.
    set (st2 := set_currentStreamingContentIndex st1 (S (currentStreamingContentIndex st1))).
    assert (Hc2 : assistantMessageContent st2 = (pre ++ [b]) ++ bs ++ tail).
    { subst st2. cbn. rewrite Hc1, Hcontent, <- app_assoc. reflexivity. }
    assert (Hi2 : currentStreamingContentIndex st2 = length (pre ++ [b])).
    { subst st2. cbn. rewrite Hi1, Hcursor, length_app. cbn. lia. }
    assert (Hh2 : apiConversationHistory st2 = apiConversationHistory st ++ msgs1)
      by exact Hh1.
    assert (Hf2 : toolFields st2 = toolFields ref1) by exact Hf1.
    clearbody st2. clear Hh1 Hf1.
    destruct (Nat.ltb_spec (currentStreamingContentIndex st2)
                (length (assistantMessageContent st2))) as [Hlt|Hge].
    + destruct (IH (pre ++ [b]) tail st2 ref1 fuel Hc2 Hi2 Hbs Htail) as (Hh' & Hf');
        [cbn in Hfuel; lia | exact Hf2 |].
      split; [|exact Hf']. rewrite Hh', Hh2, <- app_assoc. reflexivity.
    + rewrite Hc2, Hi2, !length_app in Hge. cbn [length] in Hge.
      assert (bs = []) as -> by (destruct bs; [reflexivity | cbn in Hge; lia]).
      cbn [List.filter runTools fst snd]. rewrite app_nil_r.
      split; [exact Hh2 | exact Hf2].
Qed.

(** The stream, with what the tools were given and what they left. *)
Lemma consumeChunks_tools cs :
  forall thrown buffer st ref h0,
    abort st = false ->
    currentStreamingContentIndex st = length (completedBlocks buffer) ->
    apiConversationHistory st
    = h0 ++ fst (runTools ref (List.filter executable (completedBlocks buffer))) ->
    toolFields st
    = toolFields (snd (runTools ref (List.filter executable (completedBlocks buffer)))) ->
    let result := consumeChunks cs thrown buffer st in
    let blocks := List.filter executable (completedBlocks (snd (fst result))) in
    apiConversationHistory (snd result) = h0 ++ fst (runTools ref blocks) /\
    toolFields (snd result) = toolFields (snd (runTools ref blocks)).
Proof.
  induction cs as [|chunk cs IH]; intros thrown buffer st ref h0 Habort Hcursor Hhist Hf.
  - split; assumption.
  - cbn [consumeChunks]. rewrite Habort. destruct chunk as [t | i o |].
    + set (buffer' := buffer +:+ default EmptyString t).
      set (st1 := set_assistantMessageContent st (parseAssistantMessage buffer')).
      destruct (completedBlocks_extend buffer (default EmptyString t)) as (extra & Hext & Hextra).
      fold buffer' in Hext.
      destruct (parse_shape buffer') as (tail & Hparse & Htail).
      destruct (present_run_tools extra (completedBlocks buffer) tail st1
                  (snd (runTools ref (List.filter executable (completedBlocks buffer))))
                  (S (length (assistantMessageContent st1))))
        as (Hh & Hf').
      { subst st1. cbn. rewrite Hparse, Hext, <- app_assoc. reflexivity. }
      { exact Hcursor. }
      { exact Hextra. }
      { exact Htail. }
      { subst st1. cbn. rewrite Hparse, Hext, !length_app. lia. }
      { exact Hf. }
      assert (Hi : currentStreamingContentIndex (presentAssistantMessage st1)
                   = length (completedBlocks buffer')).
      { destruct (present_run extra (completedBlocks buffer) tail st1
                    (S (length (assistantMessageContent st1)))) as (Hi & _).
        - subst st1. cbn. rewrite Hparse, Hext, <- app_assoc. reflexivity.
        - exact Hcursor.
        - exact Hextra.
        - exact Htail.
        - subst st1. cbn. rewrite Hparse, Hext, !length_app. lia.
        - unfold presentAssistantMessage. rewrite Hi, Hext. reflexivity. }
      apply (IH thrown buffer' (presentAssistantMessage st1) ref h0).
      * unfold presentAssistantMessage.
        rewrite (loopFields_abort _ _ (presentAssistantMessageN_loopFields _ st1)).
        exact Habort.
      * exact Hi.
      * unfold presentAssistantMessage. rewrite Hh. subst st1. cbn.
        rewrite Hhist, Hext, List.filter_app, runTools_app, <- app_assoc. reflexivity.
      * unfold presentAssistantMessage. rewrite Hf'.
        rewrite Hext, List.filter_app, runTools_app. reflexivity.
    + apply (IH thrown buffer _ ref h0); assumption.
    + apply (IH thrown buffer _ ref h0); assumption.
Qed.

Lemma filter_executable_all blocks :
  Forall (fun c => executable c = true) (List.filter executable blocks).
Proof.
  apply Forall_forall. intros c Hc. apply list_elem_of_In, List.filter_In in Hc. apply Hc.
Qed.

(** A stream that nobody aborts is read to its end. *)
Lemma consumeChunks_failure cs :
  forall thrown buffer st,
    abort st = false -> fst (fst (consumeChunks cs thrown buffer st)) = thrown.
Proof.
  induction cs as [|chunk cs IH]; intros thrown buffer st Habort; [reflexivity|].
  cbn [consumeChunks]. rewrite Habort. destruct chunk as [t | i o |].
  - apply IH. unfold presentAssistantMessage.
    rewrite (loopFields_abort _ _ (presentAssistantMessageN_loopFields _ _)). exact Habort.
  - apply IH. exact Habort.
  - apply IH. exact Habort.
Qed.

(** The buffer of the loop after a stream, when nobody aborts. *)
Lemma consumeChunks_buffer cs :
  forall thrown (buffer : string) st,
    abort st = false ->
    snd (fst (consumeChunks cs thrown buffer st))
    = buffer +:+ String.concat EmptyString (chunkTexts cs).
Proof.
  induction cs as [|chunk cs IH]; intros thrown buffer st Habort.
  - cbn. symmetry. apply str_app_nil_r.
  - cbn [consumeChunks]. rewrite Habort. destruct chunk as [t | i o |].
    + rewrite IH.
      * unfold chunkTexts. cbn [omap list_omap].
        set (rest := omap _ cs).
        assert (Hconcat : String.concat EmptyString (default EmptyString t :: rest)
                          = default EmptyString t +:+ String.concat EmptyString rest).
        { destruct rest; cbn [String.concat]; [symmetry; apply str_app_nil_r | reflexivity]. }
        rewrite Hconcat, str_app_assoc. reflexivity.
      * unfold presentAssistantMessage.
        rewrite (loopFields_abort _ _ (presentAssistantMessageN_loopFields _ _)).
        exact Habort.
    + rewrite IH by exact Habort. reflexivity.
    + rewrite IH by exact Habort. reflexivity.
Qed.

(** C1 (as amended). Whatever the chunks of a stream are, when it has been
    consumed the history has grown by one user message per tool-use block
    of the parsed text that has a name and a truthy input, in the order of
    the blocks, and by nothing else. The message of a block is made from
    the result or the failure of dispatching the name of that block with
    the input of that block, in the world the blocks before it left: the
    messages, the calls made and the world are those of dispatching the
    blocks one after the other. *)
Theorem one_message_per_executable_block st cs thrown :
  abort st = false ->
  currentStreamingContentIndex st = 0%nat ->
  let result := consumeChunks cs thrown EmptyString st in
  let blocks := List.filter executable (parseAssistantMessage (snd (fst result))) in
  exists msgs,
    apiConversationHistory (snd result) = apiConversationHistory st ++ msgs /\
    msgs = fst (runTools st blocks) /\
    dispatched (snd result) = dispatched (snd (runTools st blocks)) /\
    world (snd result) = world (snd (runTools st blocks)) /\
    Forall2 answers blocks msgs /\
    Forall (fun m => role m = user) msgs.
Proof.
  intros Habort Hcursor result blocks. subst result blocks.
  destruct (consumeChunks_tools cs thrown EmptyString st st (apiConversationHistory st))
    as (Hh & Hf).
  - exact Habort.
  - exact Hcursor.
  - symmetry. apply app_nil_r.
  - reflexivity.
  - rewrite filter_executable_parse.
    eexists. split; [exact Hh|]. split; [reflexivity|].
    unfold toolFields in Hf. injection Hf as _ _ Hw Hd.
    split; [exact Hd|]. split; [exact Hw|].
    assert (Ha : Forall2 answers
                   (List.filter executable
                      (completedBlocks (snd (fst (consumeChunks cs thrown EmptyString st)))))
                   (fst (runTools st
                      (List.filter executable
                         (completedBlocks
                            (snd (fst (consumeChunks cs thrown EmptyString st))))))))
      by apply runTools_answers, filter_executable_all.
    split; [exact Ha | apply (answers_user _ _ Ha)].
Qed.
End WithRuntime.

Lemma one_message_per_executable_block_witness :
  let st := Demo.newTask None [] in
  let cs := [TextChunk (Some "Let me look. <tool_use><name>read_");
             TextChunk (Some "file</name><input>{}</input></tool_use>")] in
  abort st = false /\
  currentStreamingContentIndex st = 0%nat /\
  apiConversationHistory (snd (consumeChunks cs None EmptyString st))
  = [toolResultMessage "read_file" "ok"] /\
  dispatched (snd (consumeChunks cs None EmptyString st))
  = [RegistryExecuteTool "read_file" (JObject [])].
Proof.
  intros st cs. split; [reflexivity|]. split; [reflexivity|].
  destruct (one_message_per_executable_block st cs None eq_refl eq_refl)
    as (msgs & Hh & Hm & Hd & _).
  rewrite Hh, Hm, Hd. vm_compute. split; reflexivity.
Defined.

(** C1 (as stated) fails: a tool-use block whose payload decodes to a falsy
    value, or whose name is empty, is passed over; the history gets no
    message for it. *)
Lemma falsy_input_gets_no_result :
  let st := Demo.newTask None [] in
  let quiet := consumeChunks
      [TextChunk (Some "<tool_use><name>read_file</name><input>null</input></tool_use>")]
      None EmptyString st in
  let nameless := consumeChunks
      [TextChunk (Some "<tool_use><name></name><input>{}</input></tool_use>")]
      None EmptyString st in
  @parseAssistantMessage Demo.runtime (snd (fst quiet)) = [ToolUse "read_file" JNull false] /\
  apiConversationHistory (snd quiet) = [] /\
  @parseAssistantMessage Demo.runtime (snd (fst nameless)) = [ToolUse EmptyString (JObject []) false] /\
  apiConversationHistory (snd nameless) = [].
Proof. vm_compute. repeat split. Qed.

End StreamFacts.

(** ** Whole turns: termination of the loops, and what a turn leaves *)

Module TurnFacts.
Import JsString ContextManager Task StringFacts ParserFacts StabilityFacts DispatchFacts
  LoopFacts StreamFacts.

(** A name that includes the separator splits into two pieces at least:
    the last branch of the [match] in [dispatch] is never taken. *)
Lemma split_two_pieces (s : string) (sep : ascii) :
  includes s (String sep EmptyString) = true ->
  exists a b rest, split s sep = a :: b :: rest.
Proof.
  induction s as [|c s IH]; [discriminate|].
  rewrite includes_char_cons. simpl.
  destruct (Ascii.eqb c sep) eqn:Hc.
  - intros _. pose proof (split_not_nil s sep) as Hne.
    destruct (split s sep) as [|b rest]; [done|]. eauto.
  - rewrite Ascii.eqb_sym, Hc. cbn [orb]. intros Hs.
    destruct (IH Hs) as (a & b & rest & ->). eauto.
Qed.

Section WithRuntime.
Context `{Runtime}.
Implicit Types (st : TaskState) (args : Json).

(** The fuel [parseAssistantMessage] gives its loop is enough: the loop
    ends because no match is left. *)
Lemma parseLoop_ends message fuel :
  forall lastIndex content,
    (String.length message - lastIndex < fuel)%nat ->
    exec message (snd (parseLoop fuel message lastIndex content)) = None.
Proof.
  induction fuel as [|fuel IH]; intros lastIndex content Hfuel; [lia|].
  destruct (exec message lastIndex) as [m|] eqn:Hexec.
  - destruct (exec_inv _ _ _ Hexec) as (Hle & Hlen & Hend & _).
    rewrite (parseLoop_step _ _ _ _ _ Hexec). apply IH. lia.
  - rewrite (parseLoop_none _ _ _ _ Hexec). exact Hexec.
Qed.

(** The depth [presentAssistantMessage] allows its calls is enough: one more
    changes nothing. *)
Lemma presentAssistantMessageN_enough fuel :
  forall st,
    (length (assistantMessageContent st) - currentStreamingContentIndex st < fuel)%nat ->
    presentAssistantMessageN (S fuel) st = presentAssistantMessageN fuel st.
Proof.
  induction fuel as [|fuel IH]; intros st Hfuel.
  - cbn [presentAssistantMessageN].
    destruct (Nat.leb_spec (length (assistantMessageContent st))
                (currentStreamingContentIndex st)); [|lia].
    (* with no call left the cursor must be at the end already *)
    lia.
  - remember (S fuel) as fuel1 eqn:Hf. cbn [presentAssistantMessageN]. subst fuel1.
    cbn [presentAssistantMessageN].
    destruct (Nat.leb_spec (length (assistantMessageContent st))
                (currentStreamingContentIndex st)) as [|Hlt]; [reflexivity|].
    destruct (_ !! _) as [c|]; [|reflexivity].
    destruct (partialOf c); [reflexivity|].
    destruct (presentBlock_stream_state st c) as (Hc & Hi & _).
    destruct (Nat.ltb_spec
                (currentStreamingContentIndex
                   (set_currentStreamingContentIndex (presentBlock st c)
                      (S (currentStreamingContentIndex (presentBlock st c)))))
                (length (assistantMessageContent
                   (set_currentStreamingContentIndex (presentBlock st c)
                      (S (currentStreamingContentIndex (presentBlock st c)))))));
      [|reflexivity].
    apply IH. cbn. rewrite Hc, Hi. lia.
Qed.
(** A buffer without the opening tag parses to one partial text. *)
Lemma parse_prose text :
  includes text "<tool_use>" = false ->
  isEmpty (trim text) = false ->
  parseAssistantMessage text = [TextContent (trim text) true].
Proof.
  intros Hprose Htrim. unfold parseAssistantMessage.
  rewrite parseLoop_none by (unfold exec; cbn [Nat.ltb Nat.leb dropStr]; now apply search_none).
  destruct text as [|c text]; [discriminate|].
  cbn [String.length Nat.ltb Nat.leb sliceFrom dropStr]. rewrite Htrim. reflexivity.
Qed.

(** Chunks that carry no text leave the buffer and the cursor state. *)
Lemma consumeChunks_no_text cs :
  forall thrown buffer st,
    abort st = false ->
    Forall carriesNoText cs ->
    exists st',
      consumeChunks cs thrown buffer st = (thrown, buffer, st') /\
      abort st' = false /\
      userMessageContentReady st' = userMessageContentReady st.
Proof.
  induction cs as [|chunk cs IH]; intros thrown buffer st Habort Hcs.
  - exists st. repeat split; [exact Habort].
  - inversion Hcs as [|? ? Hchunk Hrest]; subst.
    cbn [consumeChunks]. rewrite Habort.
    destruct chunk as [t | i o |]; [destruct Hchunk | |].
    + destruct (IH thrown buffer (emitEvent st (message (token_usage i o))) Habort Hrest)
        as (st' & -> & Ha & Hr).
      exists st'. repeat split; assumption.
    + destruct (IH thrown buffer st Habort Hrest) as (st' & -> & Ha & Hr).
      exists st'. repeat split; assumption.
Qed.

(** X6. An answer that is prose only, delivered as one text chunk, leaves
    [userMessageContentReady] false: the one block of the parse is partial,
    so the cursor never gets past it, the wait of the iteration times out,
    and the loop ends by throwing the timeout. *)
Theorem prose_only_answer_times_out st text rest fuel :
  abort st = false ->
  includes text "<tool_use>" = false ->
  isEmpty (trim text) = false ->
  Forall carriesNoText rest ->
  (forall msgs, fst (createMessage msgs (world st))
                = {| chunks := TextChunk (Some text) :: rest; thrown := None |}) ->
  fst (iteration st) = Throw timeoutError /\
  fst (executeTaskLoop (S fuel) st) = Threw timeoutError.
Proof.
  intros Habort Hprose Htrim Hrest Hstream.
  assert (Htry : fst (tryIteration st) = Throw timeoutError).
  { unfold tryIteration.
    set (metadata := getContextMetadata _ _ _).
    set (st0 := if shouldTruncate metadata then compact st half else st).
    assert (Hw : world st0 = world st) by (subst st0; destruct (shouldTruncate _); reflexivity).
    assert (Ha : abort st0 = false) by (subst st0; destruct (shouldTruncate _); exact Habort).
    cbn [world set_userMessageContentReady set_currentStreamingContentIndex
         set_assistantMessageContent set_isStreaming set_apiRequestCount].
    rewrite Hw. specialize (Hstream (truncatedMessages metadata)).
    destruct (createMessage _ (world st)) as [stream w]. cbn [fst] in Hstream. subst stream.
    cbn [chunks thrown consumeChunks abort set_world set_userMessageContentReady
         set_currentStreamingContentIndex set_assistantMessageContent set_isStreaming
         set_apiRequestCount].
    rewrite Ha. change (EmptyString +:+ default EmptyString (Some text)) with text.
    rewrite (parse_prose text Hprose Htrim).
    match goal with
    | |- context [consumeChunks rest None text ?s] =>
        destruct (consumeChunks_no_text rest None text s) as (st' & -> & Ha' & Hr');
          [exact Ha | exact Hrest |]
    end.
    cbn in Hr'. cbn [abort set_isStreaming]. rewrite Ha'.
    destruct (isEmpty text); cbn; rewrite Hr'; reflexivity. }
  assert (Hit : fst (iteration st) = Throw timeoutError).
  { unfold iteration. destruct (tryIteration st) as [step st1]. cbn [fst] in Htry.
    subst step. reflexivity. }
  split; [exact Hit|].
  cbn [executeTaskLoop]. rewrite Habort.
  destruct (iteration st) as [step st1]. cbn [fst] in Hit. subst step. reflexivity.
Qed.
(** X1. Recording the truncation notice twice is recording it once: the
    first notice stays, whatever the later timestamp. *)
Theorem notice_recorded_once (updates : HistoryUpdates) ts ts' :
  addTruncationNotice (addTruncationNotice updates ts) ts' = addTruncationNotice updates ts.
Proof.
  unfold addTruncationNotice at 1.
  destruct (addTruncationNotice_recorded updates ts) as [u ->]. reflexivity.
Qed.

(** X2. When text is added to the buffer, the blocks the parser had
    completed stay where they are: the parse of a buffer is complete blocks
    then at most one partial text, and the parse of the longer buffer
    starts with the same complete blocks. *)
Theorem complete_blocks_survive_growth message x :
  exists kept tail later,
    parseAssistantMessage message = kept ++ tail /\
    Forall complete kept /\
    (tail = [] \/ exists t, tail = [TextContent t true]) /\
    parseAssistantMessage (message +:+ x) = kept ++ later.
Proof.
  destruct (parse_shape message) as (tail & Hparse & Htail).
  destruct (parse_shape (message +:+ x)) as (tail' & Hparse' & _).
  destruct (completedBlocks_extend message x) as (extra & Hext & _).
  exists (completedBlocks message), tail, (extra ++ tail').
  split; [exact Hparse|]. split; [apply completedBlocks_complete|].
  split; [exact Htail|]. rewrite Hparse', Hext, <- app_assoc. reflexivity.
Qed.

(** X3. Every invocation of [executeTool] appends exactly one message to
    the history, with the user role, whether the tool succeeds, fails or
    throws. *)
Theorem each_invocation_appends_one_user_message st toolName args :
  exists m,
    apiConversationHistory (executeTool st toolName args)
    = apiConversationHistory st ++ [m] /\
    role m = user.
Proof.
  rewrite executeTool_history. eexists. split; [reflexivity|].
  destruct (fst _); reflexivity.
Qed.

(** X4. A tool the registry does not know is not an error of the task:
    the history gets a result message that says the tool is unknown. *)
Theorem unknown_tool_gets_a_result_message st toolName args :
  mcpHub st = None \/ includes toolName "/" = false ->
  toolRegistry st !! toolName = None ->
  apiConversationHistory (executeTool st toolName args)
  = apiConversationHistory st ++
    [toolResultMessage toolName ("Unknown tool: " +:+ toolName)].
Proof.
  intros Hcase Hnone. rewrite executeTool_history.
  set (st1 := emitEvent st _).
  rewrite (dispatch_registry st1 toolName args Hcase). cbn [fst outcomeMessage].
  unfold ToolRegistry.executeTool, ToolRegistry.getTool.
  change (toolRegistry st1) with (toolRegistry st). rewrite Hnone. reflexivity.
Qed.

(** X5. A call for a server the hub has no connection to makes no
    request: the history gets the failure message of [callTool]. *)
Theorem call_for_absent_server_fails st hub serverName tool args :
  mcpHub st = Some hub ->
  includes serverName "/" = false ->
  McpHub.findConnection hub serverName = None ->
  let toolName := serverName +:+ "/" +:+ tool in
  let st' := executeTool st toolName args in
  apiConversationHistory st'
  = apiConversationHistory st ++
    [toolFailedMessage toolName ("No connection found for server: " +:+ serverName)] /\
  world st' = world st.
Proof.
  intros Hhub Hs Hnone toolName st'. subst st'.
  assert (Hincl : includes toolName "/" = true) by apply includes_app_sep.
  destruct (split_two_pieces toolName "/" Hincl) as (a & b & rest & Hsplit).
  assert (Ha : a = serverName).
  { change toolName with (serverName +:+ String "/" tool) in Hsplit.
    rewrite (split_app_sep _ _ _ Hs) in Hsplit.
    now injection Hsplit as <- _. }
  subst a.
  assert (Hd : dispatch (emitEvent st (message (tool_execution_started toolName args)))
                 toolName args
               = (inr {| errName := "Error";
                         errMessage := "No connection found for server: " +:+ serverName |},
                  set_world
                    (set_dispatched
                       (emitEvent st (message (tool_execution_started toolName args)))
                       (dispatched st ++ [HubCallTool serverName b args]))
                    (world st))).
  { unfold dispatch. cbn [mcpHub emitEvent set_events]. rewrite Hhub, Hincl.
    unfold splitLimit. rewrite Hsplit. cbn [List.firstn].
    unfold McpHub.callTool. rewrite Hnone. reflexivity. }
  split.
  - rewrite executeTool_history, Hd. reflexivity.
  - unfold executeTool. rewrite Hd. reflexivity.
Qed.
End WithRuntime.

Lemma unknown_tool_gets_a_result_message_witness :
  let st := Demo.newTask None [] in
  (mcpHub st = None \/ includes "fetch_url" "/" = false) /\
  apiConversationHistory (executeTool st "fetch_url" JNull)
  = [toolResultMessage "fetch_url" "Unknown tool: fetch_url"].
Proof.
  split; [left; reflexivity|].
  apply (unknown_tool_gets_a_result_message (Demo.newTask None []) "fetch_url" JNull);
    [left; reflexivity | reflexivity].
Defined.

Lemma call_for_absent_server_fails_witness :
  let st := Demo.newTask (Some Demo.twoServerHub) [] in
  McpHub.findConnection Demo.twoServerHub "web" = None /\
  apiConversationHistory (executeTool st "web/get" JNull)
  = [toolFailedMessage "web/get" "No connection found for server: web"] /\
  world (executeTool st "web/get" JNull) = world st.
Proof.
  split; [reflexivity|].
  apply (call_for_absent_server_fails (Demo.newTask (Some Demo.twoServerHub) [])
           Demo.twoServerHub "web" "get" JNull); reflexivity.
Defined.

Lemma prose_only_answer_times_out_witness :
  let answer := {| chunks := [TextChunk (Some "All done."); UsageChunk 12 3];
                   thrown := None |} in
  let st := pushHistory (Demo.newTask None [answer]) (userText "task") in
  abort st = false /\
  fst (iteration st) = Throw timeoutError /\
  fst (executeTaskLoop 5 st) = Threw timeoutError.
Proof.
  split; [reflexivity|].
  apply (prose_only_answer_times_out
           (pushHistory (Demo.newTask None [ {| chunks := [TextChunk (Some "All done."); UsageChunk 12 3];
                   thrown := None |} ]) (userText "task"))
           "All done." [UsageChunk 12 3] 4).
  - reflexivity.
  - reflexivity.
  - reflexivity.
  - repeat constructor.
  - intros msgs. reflexivity.
Defined.

End TurnFacts.

(** ** The view of the history and its estimate *)

Module ViewFacts.
Import ContextManager ContextFacts.

Lemma even_of_nat (n : nat) : Z.even (Z.of_nat n) = Nat.even n.
Proof.
  induction n as [|n IH]; [reflexivity|].
  rewrite Nat2Z.inj_succ, Z.even_succ, Nat.even_succ, <- Z.negb_even, IH, Nat.negb_even.
  reflexivity.
Qed.

Lemma role_at msgs (j : Z) :
  alternates msgs -> 0 <= j < Z.of_nat (length msgs) ->
  roleIsNotAssistant msgs j = Z.even j.
Proof.
  intros Halt Hj. unfold roleIsNotAssistant, JsArray.get.
  destruct (j <? 0) eqn:E; [apply Z.ltb_lt in E; lia|].
  destruct (lookup_lt_is_Some_2 msgs (Z.to_nat j) ltac:(lia)) as [m Hm].
  rewrite Hm, (Halt _ _ Hm).
  replace (Nat.even (Z.to_nat j)) with (Z.even j).
  - destruct (Z.even j); reflexivity.
  - rewrite <- (Z2Nat.id j) at 1 by lia. apply even_of_nat.
Qed.

Lemma sliceFrom_inside {A} (msgs : list A) (k : Z) :
  0 <= k <= Z.of_nat (length msgs) -> JsArray.sliceFrom msgs k = drop (Z.to_nat k) msgs.
Proof.
  intros Hk. unfold JsArray.sliceFrom, JsArray.clampIndex.
  destruct (k <? 0) eqn:E; [apply Z.ltb_lt in E; lia|].
  rewrite Z.min_l by lia. reflexivity.
Qed.

Lemma view_inside {A} (msgs : list A) (s e : Z) :
  (2 <= length msgs)%nat -> 1 <= e < Z.of_nat (length msgs) ->
  getTruncatedMessages msgs (Some (s, e)) = take 2 msgs ++ drop (Z.to_nat (e + 1)) msgs.
Proof.
  intros Hlen He. unfold getTruncatedMessages. cbn [snd].
  destruct (Z.of_nat (length msgs) <=? 1) eqn:E; [apply Z.leb_le in E; lia|].
  rewrite slice_0_2, sliceFrom_inside by lia. reflexivity.
Qed.

(** X7. On a history that alternates user and assistant messages, with
    no prior range or a prior range that ends at an assistant message,
    the returned range ends at an assistant message again, not before the
    prior end and inside the history; the view of the new range
    alternates as the history does. *)
Theorem alternating_history_stays_alternating (msgs : list MessageParam)
    (cur : option (Z * Z)) (keep : Keep) :
  alternates msgs ->
  (2 <= length msgs)%nat ->
  (forall s e, cur = Some (s, e) -> Z.odd e = true /\ 1 <= e < Z.of_nat (length msgs)) ->
  let r := getNextTruncationRange msgs cur keep in
  Z.odd (snd r) = true /\
  startOfRest cur - 1 <= snd r < Z.of_nat (length msgs) /\
  alternates (getTruncatedMessages msgs (Some r)).
Proof.
  intros Halt Hlen Hcur r.
  set (e := startOfRest cur - 1).
  assert (He : Z.odd e = true /\ 1 <= e < Z.of_nat (length msgs)).
  { subst e. destruct cur as [[s e]|]; cbn [startOfRest snd].
    - replace (e + 1 - 1) with e by lia. exact (Hcur s e eq_refl).
    - split; [reflexivity | lia]. }
  destruct He as [Hodd He].
  assert (Hr : Z.odd (snd r) = true /\ e <= snd r < Z.of_nat (length msgs)).
  { subst r. unfold getNextTruncationRange. cbn [snd].
    replace (startOfRest cur) with (e + 1) by (subst e; lia).
    pose proof (messagesToRemove_bounds (Z.of_nat (length msgs)) (e + 1) keep ltac:(lia)) as Hb.
    set (n := messagesToRemove _ _ _) in *.
    rewrite (role_at msgs (e + 1 + n - 1) Halt) by lia.
    destruct (Z.even (e + 1 + n - 1)) eqn:Heven.
    - assert (Hne : e + 1 + n - 1 <> e).
      { intros Heq. rewrite Heq in Heven. rewrite <- Z.negb_odd, Hodd in Heven. discriminate. }
      split; [|lia].
      replace (e + 1 + n - 1 - 1) with (Z.pred (e + 1 + n - 1)) by lia.
      rewrite Z.odd_pred. exact Heven.
    - split; [|lia]. rewrite <- Z.negb_even, Heven. reflexivity. }
  destruct Hr as [Hrodd Hrange].
  split; [exact Hrodd|]. split; [exact Hrange|].
  destruct r as [s' e']. cbn [snd] in *.
  rewrite view_inside by lia.
  intros i m Hm.
  destruct (Nat.lt_ge_cases i 2) as [Hi | Hi].
  - rewrite lookup_app_l in Hm by (rewrite length_take; lia).
    rewrite lookup_take_lt in Hm by lia. exact (Halt i m Hm).
  - rewrite lookup_app_r in Hm by (rewrite length_take; lia).
    rewrite length_take, Nat.min_l in Hm by lia.
    rewrite lookup_drop in Hm. rewrite (Halt _ m Hm).
    replace (Nat.even (Z.to_nat (e' + 1) + (i - 2))) with (Nat.even i); [reflexivity|].
    assert (Hk : Nat.even (Z.to_nat (e' + 1)) = true).
    { rewrite <- even_of_nat, Z2Nat.id by lia.
      replace (e' + 1) with (Z.succ e') by lia. rewrite Z.even_succ. exact Hrodd. }
    rewrite Nat.even_add, Hk.
    replace i with (2 + (i - 2))%nat at 1 by lia.
    rewrite Nat.even_add. cbn [Nat.even]. destruct (Nat.even (i - 2)); reflexivity.
Qed.

Lemma alternating_history_stays_alternating_witness :
  let msgs := [userMsg (StringContent "task"); assistantMsg (StringContent "a1");
               userMsg (StringContent "u2"); assistantMsg (StringContent "a2");
               userMsg (StringContent "u3"); assistantMsg (StringContent "a3");
               userMsg (StringContent "u4")] in
  getNextTruncationRange msgs None none = (2, 5) /\
  alternates (getTruncatedMessages msgs (Some (getNextTruncationRange msgs None none))).
Proof.
  intros msgs. split; [reflexivity|].
  apply (alternating_history_stays_alternating msgs None none).
  - intros i m Hm. do 7 (destruct i as [|i]; [injection Hm as <-; reflexivity|]).
    discriminate.
  - simpl. lia.
  - discriminate.
Defined.

End ViewFacts.

Module EstimateFacts.
Import ContextManager ContextFacts.

Lemma ceilDiv4_Z (n : nat) : ceilDiv4 n = (Z.of_nat n + 3) / 4.
Proof.
  unfold ceilDiv4, Qceiling, Qfloor, Qopp, Qdiv, Qmult, Qinv, inject_Z. simpl.
  rewrite !Z.mul_1_r. Z.to_euclidean_division_equations. lia.
Qed.

Lemma blockTokens_nonneg b : 0 <= blockTokens b.
Proof.
  destruct b as [t| |]; cbn [blockTokens]; [|lia|lia].
  rewrite ceilDiv4_Z. Z.to_euclidean_division_equations. lia.
Qed.

Lemma blocks_acc blocks (acc : Z) :
  foldl (fun t b => t + blockTokens b) acc blocks
  = acc + foldl (fun t b => t + blockTokens b) 0 blocks.
Proof.
  revert acc. induction blocks as [|b blocks IH]; intros acc; cbn [foldl]; [lia|].
  rewrite (IH (acc + blockTokens b)), (IH (0 + blockTokens b)). lia.
Qed.

Lemma blocks_nonneg blocks : 0 <= foldl (fun t b => t + blockTokens b) 0 blocks.
Proof.
  induction blocks as [|b blocks IH]; cbn [foldl]; [lia|].
  rewrite blocks_acc. pose proof (blockTokens_nonneg b). lia.
Qed.

Lemma estimate_cons m msgs :
  estimateTokenCount (m :: msgs) = estimateTokenCount [m] + estimateTokenCount msgs.
Proof.
  unfold estimateTokenCount. cbn [foldl].
  generalize (match content m with
              | StringContent s => 0 + ceilDiv4 (String.length s)
              | ArrayContent blocks => foldl (fun t b => t + blockTokens b) 0 blocks
              end) as acc.
  induction msgs as [|m' msgs IH] using rev_ind; intros acc; [cbn [foldl]; lia|].
  rewrite !foldl_snoc, (IH acc).
  destruct (content m') as [s|blocks]; [lia|].
  rewrite blocks_acc, (blocks_acc blocks (foldl _ 0 msgs)). lia.
Qed.

Lemma estimate_app a b :
  estimateTokenCount (a ++ b) = estimateTokenCount a + estimateTokenCount b.
Proof.
  induction a as [|m a IH]; [reflexivity|].
  rewrite <- app_comm_cons, estimate_cons, (estimate_cons m a), IH. lia.
Qed.

Lemma estimate_nonneg msgs : 0 <= estimateTokenCount msgs.
Proof.
  induction msgs as [|m msgs IH]; [reflexivity|].
  rewrite estimate_cons.
  assert (0 <= estimateTokenCount [m]); [|lia].
  unfold estimateTokenCount. cbn [foldl].
  destruct (content m) as [s|blocks]; [|apply blocks_nonneg].
  rewrite ceilDiv4_Z. Z.to_euclidean_division_equations. lia.
Qed.

(** X8. For a range that ends at index 1 or later, the estimate of the
    view is the estimate of the whole history less the estimate of the
    messages from index 2 to the end of the range: compaction never raises
    the estimate. *)
Theorem view_estimate_drops_the_range (msgs : list MessageParam) (s e : Z) :
  1 <= e ->
  let view := getTruncatedMessages msgs (Some (s, e)) in
  estimateTokenCount msgs
  = estimateTokenCount view + estimateTokenCount (JsArray.slice msgs 2 (e + 1)) /\
  estimateTokenCount view <= estimateTokenCount msgs.
Proof.
  intros He view.
  assert (Hsplit : estimateTokenCount msgs
                   = estimateTokenCount view
                     + estimateTokenCount (JsArray.slice msgs 2 (e + 1))).
  { subst view. unfold getTruncatedMessages. cbn [snd].
    destruct (Z.of_nat (length msgs) <=? 1) eqn:E.
    - apply Z.leb_le in E.
      assert (Hnil : JsArray.slice msgs 2 (e + 1) = []).
      { unfold JsArray.slice, JsArray.clampIndex.
        destruct (2 <? 0) eqn:E2; [discriminate|].
        destruct (e + 1 <? 0) eqn:E3; [apply Z.ltb_lt in E3; lia|].
        rewrite !Z.min_r by lia. rewrite Z.sub_diag. reflexivity. }
      rewrite Hnil. cbn. lia.
    - apply Z.leb_gt in E. rewrite slice_0_2.
      unfold JsArray.sliceFrom, JsArray.slice, JsArray.clampIndex.
      destruct (2 <? 0) eqn:E2; [discriminate|].
      destruct (e + 1 <? 0) eqn:E3; [apply Z.ltb_lt in E3; lia|].
      rewrite (Z.min_l 2) by lia. change (Z.to_nat 2) with 2%nat.
      set (k := Z.min (e + 1) (Z.of_nat (length msgs))).
      rewrite <- (take_drop 2 msgs) at 1.
      rewrite <- (take_drop (Z.to_nat (k - 2)) (drop 2 msgs)) at 1.
      rewrite drop_drop. replace (2 + Z.to_nat (k - 2))%nat with (Z.to_nat k) by lia.
      rewrite !estimate_app. lia. }
  split; [exact Hsplit|].
  pose proof (estimate_nonneg (JsArray.slice msgs 2 (e + 1))). lia.
Qed.

Lemma view_estimate_drops_the_range_witness :
  let msgs := [userMsg (StringContent "task"); assistantMsg (StringContent "ok");
               userMsg (ArrayContent [TextBlock "a long tool result"; ImageBlock]);
               assistantMsg (StringContent "done")] in
  estimateTokenCount msgs = 1008 /\
  estimateTokenCount (getTruncatedMessages msgs (Some (2, 2))) = 3 /\
  estimateTokenCount (getTruncatedMessages msgs (Some (2, 2))) <= estimateTokenCount msgs.
Proof.
  intros msgs. split; [reflexivity|]. split; [reflexivity|].
  apply (view_estimate_drops_the_range msgs 2 2). lia.
Defined.

End EstimateFacts.

(** ** Runs of the task loop *)

Module LoopRunFacts.
Import JsString ContextManager Task StringFacts DispatchFacts LoopFacts StreamFacts.

Section WithRuntime.
Context `{Runtime}.
Implicit Types (st : TaskState).

Lemma compact_frame st keep :
  abort (compact st keep) = abort st /\
  apiRequestCount (compact st keep) = apiRequestCount st /\
  apiConversationHistory (compact st keep) = apiConversationHistory st /\
  world (compact st keep) = world st /\
  events (compact st keep) = events st.
Proof. repeat split. Qed.

(** An iteration whose stream throws at once. *)
Lemma tryIteration_stream_fails st e :
  abort st = false ->
  (forall msgs w, exists w', createMessage msgs w = ({| chunks := []; thrown := Some e |}, w')) ->
  exists st1,
    tryIteration st = (Throw e, st1) /\
    abort st1 = false /\
    apiRequestCount st1 = apiRequestCount st + 1 /\
    apiConversationHistory st1 = apiConversationHistory st.
Proof.
  intros Habort Hstream. unfold tryIteration.
  set (metadata := getContextMetadata _ _ _).
  set (st0 := if shouldTruncate metadata then compact st half else st).
  assert (H0 : abort st0 = false /\ apiRequestCount st0 = apiRequestCount st /\
               apiConversationHistory st0 = apiConversationHistory st).
  { subst st0. destruct (shouldTruncate _); repeat split; exact Habort. }
  destruct H0 as (Ha & Hc & Hh).
  match goal with
  | |- context [createMessage ?m ?w] => destruct (Hstream m w) as [w' ->]
  end.
  cbn [chunks thrown consumeChunks]. eexists. split; [reflexivity|].
  cbn. rewrite Ha, Hc, Hh. repeat split.
Qed.

(** X9. The range computed at the top of an iteration does not shape
    the request of that iteration: when the estimate has reached the
    limit, the request is still made with the view of the old range; and
    when the provider answers it with a context-window error, the quarter
    range is computed on top of the half range before the next request. *)
Theorem overflow_compacts_twice st (e : JsError) (w' : World) :
  abort st = false ->
  shouldTruncate (getContextMetadata (apiConversationHistory st) maxAllowedSize
                    (conversationHistoryDeletedRange st)) = true ->
  createMessage (getTruncatedMessages (apiConversationHistory st)
                   (conversationHistoryDeletedRange st)) (world st)
  = ({| chunks := []; thrown := Some e |}, w') ->
  isContextWindowExceededError e = true ->
  let half_range := getNextTruncationRange (apiConversationHistory st)
                      (conversationHistoryDeletedRange st) half in
  fst (iteration st) = Continue /\
  conversationHistoryDeletedRange (snd (iteration st))
  = Some (getNextTruncationRange (apiConversationHistory st) (Some half_range) quarter) /\
  apiRequestCount (snd (iteration st)) = apiRequestCount st + 1 /\
  apiConversationHistory (snd (iteration st)) = apiConversationHistory st.
Proof.
  intros Habort Hover Hstream Hkind half_range.
  assert (Htry : tryIteration st
                 = (Throw e,
                    set_world
                      (set_userMessageContentReady
                         (set_currentStreamingContentIndex
                            (set_assistantMessageContent
                               (set_isStreaming
                                  (set_apiRequestCount (compact st half)
                                     (apiRequestCount (compact st half) + 1)) true) [])
                            0%nat) false) w')).
  { unfold tryIteration. rewrite Hover.
    change (truncatedMessages (getContextMetadata ?h ?m ?r)) with (getTruncatedMessages h r).
    change (world (set_userMessageContentReady
                     (set_currentStreamingContentIndex
                        (set_assistantMessageContent
                           (set_isStreaming
                              (set_apiRequestCount (compact st half)
                                 (apiRequestCount (compact st half) + 1)) true) [])
                        0%nat) false))
      with (world st).
    rewrite Hstream. reflexivity. }
  unfold iteration. rewrite Htry, Hkind. cbn [fst snd].
  split; [reflexivity|]. repeat split.
Qed.
(** X10. The retries after a context-window error are not bounded: with
    a provider that reports the error at every request, the loop is still
    running after any number of iterations, each of which made one more
    request, and the history is what it was. *)
Theorem overflow_retries_are_unbounded st e (fuel : nat) :
  abort st = false ->
  isContextWindowExceededError e = true ->
  (forall msgs w, exists w', createMessage msgs w = ({| chunks := []; thrown := Some e |}, w')) ->
  let result := executeTaskLoop fuel st in
  fst result = StillRunning /\
  apiRequestCount (snd result) = apiRequestCount st + Z.of_nat fuel /\
  apiConversationHistory (snd result) = apiConversationHistory st.
Proof.
  intros Habort Hkind Hstream. revert st Habort.
  induction fuel as [|fuel IH]; intros st Habort.
  - cbn. repeat split. lia.
  - destruct (tryIteration_stream_fails st e Habort Hstream) as (st1 & Htry & Ha & Hc & Hh).
    cbn [executeTaskLoop]. rewrite Habort. unfold iteration. rewrite Htry, Hkind.
    destruct (IH (compact st1 quarter) Ha) as (Hend & Hcount & Hhist).
    split; [exact Hend|]. split.
    + rewrite Hcount. change (apiRequestCount (compact st1 quarter)) with (apiRequestCount st1).
      rewrite Hc. lia.
    + rewrite Hhist. exact Hh.
Qed.

(** X11. The abort flag is never cleared: on a task that was aborted,
    every [continueTask] appends its user message and returns without a
    request, whatever the number of calls. *)
Theorem aborted_task_makes_no_request st (userMessages : list string) (fuel : nat) :
  let st' := foldl (fun st m => snd (continueTask (S fuel) st m)) (abortTask st) userMessages in
  abort st' = true /\
  apiRequestCount st' = apiRequestCount st /\
  world st' = world st /\
  dispatched st' = dispatched st /\
  apiConversationHistory st' = apiConversationHistory st ++ (userText <$> userMessages).
Proof.
  cbn zeta.
  assert (Hgen : forall st0, abort st0 = true ->
            let st' := foldl (fun st m => snd (continueTask (S fuel) st m)) st0 userMessages in
            abort st' = true /\ apiRequestCount st' = apiRequestCount st0 /\
            world st' = world st0 /\ dispatched st' = dispatched st0 /\
            apiConversationHistory st'
            = apiConversationHistory st0 ++ (userText <$> userMessages)).
  { induction userMessages as [|m ms IH]; intros st0 Ha; cbn zeta.
    - cbn. rewrite app_nil_r. repeat split. exact Ha.
    - cbn [foldl].
      set (s := pushClineMessage (pushHistory st0 (userText m))
                  {| say := "user_message"; text := m |}).
      assert (Hstep : snd (continueTask (S fuel) st0 m) = s).
      { unfold continueTask. fold s. cbn [executeTaskLoop].
        change (abort s) with (abort st0). rewrite Ha. reflexivity. }
      rewrite Hstep. destruct (IH s Ha) as (H1 & H2 & H3 & H4 & H5).
      rewrite H1, H2, H3, H4, H5. subst s. cbn. rewrite <- app_assoc. repeat split. }
  apply (Hgen (abortTask st)). reflexivity.
Qed.

(** The loop ends by throwing only out of the [catch] that has emitted
    the error. *)
Lemma thrown_error_was_emitted (fuel : nat) st e st' :
  executeTaskLoop fuel st = (Threw e, st') ->
  exists evs, events st' = evs ++ [error (errMessage e)].
Proof.
  revert st. induction fuel as [|fuel IH]; intros st Hloop; [discriminate|].
  cbn [executeTaskLoop] in Hloop. destruct (abort st); [discriminate|].
  unfold iteration in Hloop.
  destruct (tryIteration st) as [[| |e1] st1].
  - apply IH in Hloop. exact Hloop.
  - discriminate.
  - destruct (isContextWindowExceededError e1).
    + apply IH in Hloop. exact Hloop.
    + injection Hloop as -> <-. eexists. reflexivity.
Qed.

(** X12. An error that ends the loop reaches the listeners twice: the
    [catch] of the loop emits it and throws it again, and the [catch] of
    [startTask] emits it once more. *)
Theorem failure_is_reported_twice (fuel : nat) st (task : string) e st' :
  startTask fuel st task = (Threw e, st') ->
  exists evs, events st' = evs ++ [error (errMessage e); error (errMessage e)].
Proof.
  unfold startTask. intros Hstart.
  destruct (executeTaskLoop fuel _) as [[| e1 |] st1] eqn:Hloop; try discriminate.
  injection Hstart as -> <-.
  destruct (thrown_error_was_emitted _ _ _ _ Hloop) as [evs Hevs].
  exists evs. cbn. rewrite Hevs, <- app_assoc. reflexivity.
Qed.
End WithRuntime.

Lemma overflow_compacts_twice_witness :
  let st := Demo.overflowingTask in
  fst (@iteration Demo.alwaysOverflows st) = Continue /\
  conversationHistoryDeletedRange (snd (@iteration Demo.alwaysOverflows st)) = Some (2, -3).
Proof.
  intros st.
  destruct (@overflow_compacts_twice Demo.alwaysOverflows st Demo.overflow tt)
    as (Hstep & Hrange & _); try reflexivity.
  split; [exact Hstep | rewrite Hrange; vm_compute; reflexivity].
Defined.

Lemma overflow_retries_are_unbounded_witness :
  isContextWindowExceededError Demo.overflow = true /\
  fst (@executeTaskLoop Demo.alwaysOverflows 1000 Demo.overflowingTask) = StillRunning /\
  apiRequestCount (snd (@executeTaskLoop Demo.alwaysOverflows 1000 Demo.overflowingTask))
  = 1000.
Proof.
  split; [reflexivity|].
  destruct (@overflow_retries_are_unbounded Demo.alwaysOverflows Demo.overflowingTask
              Demo.overflow 1000) as (Hend & Hcount & _).
  - reflexivity.
  - reflexivity.
  - intros msgs w. exists w. reflexivity.
  - split; [exact Hend | exact Hcount].
Defined.

Lemma failure_is_reported_twice_witness :
  let refused := {| errName := "ApiError"; errMessage := "Invalid API key" |} in
  let st := Demo.newTask None [ {| chunks := []; thrown := Some refused |} ] in
  exists evs,
    events (snd (@startTask Demo.runtime 3 st "list the files"))
    = evs ++ [error "Invalid API key"; error "Invalid API key"].
Proof.
  intros refused st.
  apply (@failure_is_reported_twice Demo.runtime 3 st "list the files" refused
           (snd (@startTask Demo.runtime 3 st "list the files"))).
  vm_compute. reflexivity.
Defined.

End LoopRunFacts.

Module TurnHistoryFacts.
Import JsString ContextManager Task StringFacts ParserFacts StabilityFacts DispatchFacts
  LoopFacts StreamFacts.

Lemma allWhiteSpace_no_tag ws : allWhiteSpace ws = true -> includes ws "<tool_use>" = false.
Proof.
  induction ws as [|c ws IH]; [reflexivity|].
  cbn [allWhiteSpace]. intros [Hc Hws]%andb_prop.
  cbn [includes]. rewrite (IH Hws), orb_false_r.
  cbn [String.prefix]. destruct (ascii_dec "<" c) as [<-|]; [discriminate | reflexivity].
Qed.

Lemma allWhiteSpace_trim ws : allWhiteSpace ws = true -> trim ws = EmptyString.
Proof.
  unfold trim. induction ws as [|c ws IH]; [reflexivity|].
  cbn [allWhiteSpace trimStart]. intros [-> Hws]%andb_prop. exact (IH Hws).
Qed.

Section WithRuntime.
Context `{Runtime}.
Implicit Types (st : TaskState).

(** A buffer that is one tool-use tag, with white space after it at most:
    one complete block, the tool use when the payload decodes and the
    text of the tag when it does not. *)
Lemma parse_tag_alone ws1 n ws2 i ws3 after :
  allWhiteSpace ws1 = true -> allWhiteSpace ws2 = true -> allWhiteSpace ws3 = true ->
  includes n "</name>" = false ->
  includes i "</input>" = false ->
  allWhiteSpace after = true ->
  parseAssistantMessage (toolUseTag ws1 n ws2 i ws3 +:+ after)
  = [match JSON_parse i with
     | Some input => ToolUse n input false
     | None => TextContent (toolUseTag ws1 n ws2 i ws3) false
     end].
Proof.
  intros Hws1 Hws2 Hws3 Hn Hi Hafter.
  set (tag := toolUseTag ws1 n ws2 i ws3).
  set (message := tag +:+ after).
  assert (Hlen : String.length message = (String.length tag + String.length after)%nat).
  { subst message. apply str_length_app. }
  assert (Hfirst : exec message 0
                   = Some {| index := 0; whole := tag; group1 := n; group2 := i |}).
  { unfold exec. cbn [Nat.ltb Nat.leb]. rewrite dropStr_0. subst message.
    rewrite (search_here _ _ n i after) by (apply matchHere_tag; assumption).
    rewrite takeStr_whole. reflexivity. }
  assert (Hsecond : exec message (String.length tag) = None).
  { unfold exec. destruct (_ <? _)%nat eqn:Hlt; [reflexivity|].
    subst message. rewrite dropStr_length.
    apply search_none, allWhiteSpace_no_tag, Hafter. }
  assert (Hrest : trim (sliceFrom message (String.length tag)) = EmptyString).
  { unfold sliceFrom. subst message. rewrite dropStr_length. apply allWhiteSpace_trim, Hafter. }
  unfold parseAssistantMessage.
  rewrite (parseLoop_step _ _ _ _ _ Hfirst). cbn [index whole Nat.add].
  rewrite (parseLoop_none _ _ _ _ Hsecond), Hrest.
  unfold blocksOfMatch. cbn [index whole group1 group2]. rewrite Nat.ltb_irrefl.
  cbn [isEmpty app].
  destruct (String.length tag <? String.length message)%nat;
    cbn [length Nat.eqb andb]; reflexivity.
Qed.

(** What one pass through the [try] block appends to the history: the
    messages of the tools it ran, then the assistant message. *)
Lemma tryIteration_history st :
  abort st = false ->
  exists (assistantText : string) msgs tail,
    apiConversationHistory (snd (tryIteration st))
    = apiConversationHistory st ++ msgs ++ tail /\
    Forall2 answers (List.filter executable (parseAssistantMessage assistantText)) msgs /\
    (tail = [] \/
     tail = [ {| role := assistant; content := ArrayContent [TextBlock assistantText] |} ]) /\
    ((forall e, fst (tryIteration st) <> Throw e) ->
     tail = if isEmpty assistantText then []
            else [ {| role := assistant; content := ArrayContent [TextBlock assistantText] |} ]).
Proof.
  intros Habort. unfold tryIteration.
  set (metadata := getContextMetadata _ _ _).
  set (st0 := if shouldTruncate metadata then compact st half else st).
  assert (H0 : abort st0 = false /\ apiConversationHistory st0 = apiConversationHistory st).
  { subst st0. destruct (shouldTruncate _); split; first [exact Habort | reflexivity]. }
  destruct H0 as (Ha & Hh).
  destruct (createMessage _ _) as [stream w].
  match goal with
  | |- context [consumeChunks ?cs ?t ?m ?s] =>
      destruct (consumeChunks_history cs t m s (apiConversationHistory st) [])
        as (msgs & Hhist & Hans);
        [exact Ha | reflexivity | cbn; rewrite Hh; symmetry; apply app_nil_r | constructor |];
      pose proof (loopFields_abort _ _ (consumeChunks_loopFields cs t m s)) as Hab;
      destruct (consumeChunks cs t m s) as [[failure text] st2]
  end.
  cbn [fst snd] in *. change (abort st2 = abort st0) in Hab. rewrite Ha in Hab.
  rewrite <- filter_executable_parse in Hans.
  exists text, msgs.
  destruct failure as [e|].
  { exists []. cbn [snd fst]. rewrite app_nil_r. split; [exact Hhist|].
    split; [exact Hans|]. split; [left; reflexivity|].
    intros Hno. exfalso. exact (Hno e eq_refl). }
  cbn [abort set_isStreaming]. rewrite Hab.
  destruct (isEmpty text) eqn:Hempty.
  - exists []. rewrite app_nil_r.
    destruct (negb (userMessageContentReady _)); [|destruct (hasCompletionTool _)];
      cbn [fst snd]; (split; [exact Hhist|]); (split; [exact Hans|]);
      (split; [left; reflexivity|]); intros _; reflexivity.
  - eexists.
    destruct (negb (userMessageContentReady _)); [|destruct (hasCompletionTool _)];
      cbn; rewrite Hhist, <- app_assoc;
      (split; [reflexivity|]); (split; [exact Hans|]);
      (split; [right; reflexivity|]); intros _; reflexivity.
Qed.

(** X13. The conversation history is append-only: whatever the loop
    does, for however long, the history it started from is a prefix of
    the history it leaves. *)
Theorem history_is_append_only (fuel : nat) st :
  apiConversationHistory st `prefix_of` apiConversationHistory (snd (executeTaskLoop fuel st)).
Proof.
  revert st. induction fuel as [|fuel IH]; intros st; [reflexivity|].
  cbn [executeTaskLoop]. destruct (abort st) eqn:Habort; [reflexivity|].
  destruct (tryIteration_history st Habort) as (text & msgs & tail & Hh & _).
  assert (Htry : apiConversationHistory st
                 `prefix_of` apiConversationHistory (snd (tryIteration st))).
  { rewrite Hh. apply prefix_app_r. reflexivity. }
  unfold iteration. destruct (tryIteration st) as [[| |e] st1]; cbn [snd] in *.
  - etrans; [exact Htry | apply IH].
  - exact Htry.
  - destruct (isContextWindowExceededError e); cbn [snd].
    + etrans; [exact Htry | apply (IH (compact st1 quarter))].
    + exact Htry.
Qed.

(** One dispatch makes one call, for the tool with its input. *)
Lemma dispatch_one_call st toolName args :
  exists call,
    dispatched (snd (dispatch st toolName args)) = dispatched st ++ [call] /\
    (call = RegistryExecuteTool toolName args \/
     exists serverName tool, call = HubCallTool serverName tool args).
Proof.
  unfold dispatch. destruct (mcpHub st) as [hub|].
  - destruct (includes toolName "/") eqn:Hincl.
    + destruct (TurnFacts.split_two_pieces toolName "/" Hincl) as (a & b & rest & Hsplit).
      unfold splitLimit. rewrite Hsplit. cbn [List.firstn].
      destruct (McpHub.callTool _ _ _ _ _) as [[r|e] w]; eexists; split;
        first [reflexivity | right; eauto].
    + destruct (ToolRegistry.executeTool _ _ _ _) as [r w].
      eexists. split; [reflexivity | left; reflexivity].
  - destruct (ToolRegistry.executeTool _ _ _ _) as [r w].
    eexists. split; [reflexivity | left; reflexivity].
Qed.

(** What one pass through the [try] block leaves: the messages of the
    tools, dispatched in the world the request left, then the assistant
    message when the stream has ended without an error. *)
Lemma tryIteration_tools st :
  abort st = false ->
  let request := createMessage (getTruncatedMessages (apiConversationHistory st)
                                  (conversationHistoryDeletedRange st)) (world st) in
  let assistantText := String.concat EmptyString (chunkTexts (chunks (fst request))) in
  let blocks := List.filter executable (parseAssistantMessage assistantText) in
  let ran := runTools (set_world st (snd request)) blocks in
  apiConversationHistory (snd (tryIteration st))
  = apiConversationHistory st ++ fst ran ++
    match thrown (fst request) with
    | Some _ => []
    | None =>
        if isEmpty assistantText then []
        else [ {| role := assistant; content := ArrayContent [TextBlock assistantText] |} ]
    end /\
  dispatched (snd (tryIteration st)) = dispatched (snd ran) /\
  world (snd (tryIteration st)) = world (snd ran).
Proof.
  intros Habort request assistantText blocks ran.
  unfold tryIteration.
  set (metadata := getContextMetadata _ _ _).
  change (truncatedMessages metadata)
    with (getTruncatedMessages (apiConversationHistory st) (conversationHistoryDeletedRange st)).
  set (st0 := if shouldTruncate metadata then compact st half else st).
  assert (H0 : abort st0 = false /\ world st0 = world st /\
               apiConversationHistory st0 = apiConversationHistory st /\
               toolFields st0 = toolFields st).
  { subst st0. destruct (shouldTruncate _); repeat split; exact Habort. }
  destruct H0 as (Ha & Hw & Hh & Hf). clearbody st0 metadata.
  change (world (set_userMessageContentReady
                   (set_currentStreamingContentIndex
                      (set_assistantMessageContent
                         (set_isStreaming
                            (set_apiRequestCount st0 (apiRequestCount st0 + 1)) true) [])
                      0%nat) false))
    with (world st0).
  rewrite Hw. fold request.
  destruct request as [stream w] eqn:Hrequest. cbn [fst snd] in *.
  match goal with
  | |- context [consumeChunks ?cs ?t ?m ?s] =>
      destruct (consumeChunks_tools cs t m s (set_world st w) (apiConversationHistory st))
        as (Hhist & Htools);
        [exact Ha | reflexivity
         | cbn; rewrite Hh; symmetry; apply app_nil_r
         | cbn; unfold toolFields in *; cbn; injection Hf as -> -> _ ->; reflexivity |];
      pose proof (loopFields_abort _ _ (consumeChunks_loopFields cs t m s)) as Hab;
      pose proof (consumeChunks_failure cs t m s Ha) as Hfail;
      pose proof (consumeChunks_buffer cs t m s Ha) as Hbuffer;
      destruct (consumeChunks cs t m s) as [[failure text] st2]
  end.
  cbn [fst snd] in *. change (abort st2 = abort st0) in Hab. rewrite Ha in Hab.
  rewrite str_app_nil_l in Hbuffer.
  fold assistantText in Hbuffer. subst text failure.
  rewrite <- filter_executable_parse in Hhist, Htools. fold blocks in Hhist, Htools.
  fold ran in Hhist, Htools.
  unfold toolFields in Htools. injection Htools as _ _ Hw2 Hd2.
  clearbody ran.
  destruct (thrown stream) as [e|].
  { cbn [snd]. rewrite app_nil_r. auto. }
  cbn [abort set_isStreaming]. rewrite Hab.
  destruct (isEmpty assistantText) eqn:Hempty.
  - rewrite app_nil_r.
    destruct (negb (userMessageContentReady _)); [|destruct (hasCompletionTool _)];
      cbn [fst snd]; auto.
  - destruct (negb (userMessageContentReady _)); [|destruct (hasCompletionTool _)];
      cbn; rewrite Hhist, <- app_assoc; auto.
Qed.

(** X14. Within a turn the results come first. A pass through the
    [try] block, on a task that is not aborted, appends to the history the
    messages of the tools the answer asked for, one per tool-use block with
    a name and a truthy input, in the order of the blocks, each made from
    the result or the failure of dispatching that block in the world the
    blocks before it left; and only then, when the stream ended without an
    error, the assistant message with the text of the answer, if the text
    is not empty. The answer is the concatenation of the text chunks. *)
Theorem results_precede_the_assistant_message st :
  abort st = false ->
  let request := createMessage (getTruncatedMessages (apiConversationHistory st)
                                  (conversationHistoryDeletedRange st)) (world st) in
  let assistantText := String.concat EmptyString (chunkTexts (chunks (fst request))) in
  let blocks := List.filter executable (parseAssistantMessage assistantText) in
  let ran := runTools (set_world st (snd request)) blocks in
  apiConversationHistory (snd (tryIteration st))
  = apiConversationHistory st ++ fst ran ++
    match thrown (fst request) with
    | Some _ => []
    | None =>
        if isEmpty assistantText then []
        else [ {| role := assistant; content := ArrayContent [TextBlock assistantText] |} ]
    end /\
  Forall2 answers blocks (fst ran) /\
  Forall (fun m => role m = user) (fst ran) /\
  dispatched (snd (tryIteration st)) = dispatched (snd ran) /\
  world (snd (tryIteration st)) = world (snd ran).
Proof.
  intros Habort request assistantText blocks ran.
  destruct (tryIteration_tools st Habort) as (Hh & Hd & Hw).
  assert (Ha : Forall2 answers blocks (fst ran))
    by apply runTools_answers, filter_executable_all.
  split; [exact Hh|]. split; [exact Ha|]. split; [exact (answers_user _ _ Ha)|].
  split; [exact Hd | exact Hw].
Qed.

End WithRuntime.

Lemma results_precede_the_assistant_message_witness :
  let answer := "<tool_use><name>read_file</name><input>{}</input></tool_use>" in
  let st := pushHistory
              (Demo.newTask None [ {| chunks := [TextChunk (Some answer)]; thrown := None |} ])
              (userText "task") in
  apiConversationHistory (snd (tryIteration st))
  = [userText "task"; toolResultMessage "read_file" "ok";
     {| role := assistant; content := ArrayContent [TextBlock answer] |}] /\
  dispatched (snd (tryIteration st)) = [RegistryExecuteTool "read_file" (JObject [])].
Proof.
  intros answer st.
  destruct (@results_precede_the_assistant_message Demo.runtime st eq_refl)
    as (Hh & _ & _ & Hd & _).
  rewrite Hh, Hd. vm_compute. split; reflexivity.
Defined.

End TurnHistoryFacts.

Module ToolTurnFacts.
Import JsString ContextManager Task StringFacts ParserFacts StabilityFacts DispatchFacts
  LoopFacts StreamFacts TurnHistoryFacts.

Section WithRuntime.
Context `{Runtime}.
Implicit Types (st : TaskState).

(** Presenting a parse that is one complete, executable tool use. *)
Lemma present_one_tool st n input :
  assistantMessageContent st = [ToolUse n input false] ->
  currentStreamingContentIndex st = 0%nat ->
  executable (ToolUse n input false) = true ->
  presentAssistantMessage st
  = set_userMessageContentReady
      (set_currentStreamingContentIndex (executeTool st n input) 1) true.
Proof.
  intros Hcontent Hindex Hexec. unfold presentAssistantMessage.
  rewrite Hcontent. cbn [length presentAssistantMessageN].
  rewrite Hcontent, Hindex. cbn [length Nat.leb lookup list_lookup partialOf presentBlock].
  rewrite Hexec.
  destruct (executeTool_stream_state st n input) as (Hc & Hi & _).
  cbn [currentStreamingContentIndex assistantMessageContent set_currentStreamingContentIndex].
  rewrite Hc, Hi, Hcontent, Hindex. reflexivity.
Qed.

(** One block of prose that is neither partial nor executable leaves
    nothing to run: used for a tag whose payload does not decode. *)
Lemma present_one_text st t :
  assistantMessageContent st = [TextContent t false] ->
  currentStreamingContentIndex st = 0%nat ->
  presentAssistantMessage st
  = set_userMessageContentReady
      (set_currentStreamingContentIndex
         (emitEvent st (message (assistant_text t false))) 1) true.
Proof.
  intros Hcontent Hindex. unfold presentAssistantMessage.
  rewrite Hcontent. cbn [length presentAssistantMessageN].
  rewrite Hcontent, Hindex. cbn [length Nat.leb lookup list_lookup partialOf presentBlock].
  cbn [currentStreamingContentIndex assistantMessageContent set_currentStreamingContentIndex
       emitEvent set_events].
  rewrite Hcontent, Hindex. reflexivity.
Qed.

Lemma consumeChunks_one_text (s : TaskState) (answer : string) thrown :
  abort s = false ->
  consumeChunks [TextChunk (Some answer)] thrown EmptyString s
  = (thrown, answer,
     presentAssistantMessage (set_assistantMessageContent s (parseAssistantMessage answer))).
Proof. intros Ha. cbn [consumeChunks]. rewrite Ha. reflexivity. Qed.

(** The state in which the stream of an iteration is read. *)
Lemma tryIteration_one_chunk st answer :
  abort st = false ->
  (forall msgs, fst (createMessage msgs (world st))
                = {| chunks := [TextChunk (Some answer)]; thrown := None |}) ->
  exists st1,
    abort st1 = false /\
    currentStreamingContentIndex st1 = 0%nat /\
    apiConversationHistory st1 = apiConversationHistory st /\
    dispatched st1 = dispatched st /\
    mcpHub st1 = mcpHub st /\
    tryIteration st
    = (let st2 := set_isStreaming
                    (presentAssistantMessage
                       (set_assistantMessageContent st1 (parseAssistantMessage answer)))
                    false in
       let st3 := if isEmpty answer then st2
                  else pushClineMessage
                         (pushHistory st2 {| role := assistant;
                                             content := ArrayContent [TextBlock answer] |})
                         {| say := "assistant_message"; text := answer |} in
       if negb (userMessageContentReady st3) then (Throw timeoutError, st3)
       else if hasCompletionTool (assistantMessageContent st3)
            then (Break, emitEvent st3 task_completed)
            else (Continue, st3)).
Proof.
  intros Habort Hstream. unfold tryIteration.
  set (metadata := getContextMetadata _ _ _).
  set (st0 := if shouldTruncate metadata then compact st half else st).
  assert (H0 : abort st0 = false /\ world st0 = world st /\
               apiConversationHistory st0 = apiConversationHistory st /\
               dispatched st0 = dispatched st /\ mcpHub st0 = mcpHub st).
  { subst st0. destruct (shouldTruncate _); repeat split; exact Habort. }
  destruct H0 as (Ha & Hw & Hh & Hd & Hm). clearbody st0 metadata.
  change (world (set_userMessageContentReady
                   (set_currentStreamingContentIndex
                      (set_assistantMessageContent
                         (set_isStreaming
                            (set_apiRequestCount st0 (apiRequestCount st0 + 1)) true) [])
                      0%nat) false))
    with (world st0).
  rewrite Hw. specialize (Hstream (truncatedMessages metadata)).
  destruct (createMessage _ (world st)) as [stream w]. cbn [fst] in Hstream. subst stream.
  cbn [chunks thrown].
  match goal with
  | |- context [consumeChunks _ None EmptyString ?s] =>
      rewrite (consumeChunks_one_text s answer None Ha); exists s
  end.
  split; [exact Ha|]. split; [reflexivity|]. split; [exact Hh|]. split; [exact Hd|].
  split; [exact Hm|].
  match goal with
  | |- context [abort (set_isStreaming (presentAssistantMessage ?s) false)] =>
      change (abort (set_isStreaming (presentAssistantMessage s) false))
        with (abort (presentAssistantMessage s));
      rewrite (loopFields_abort s (presentAssistantMessage s)
                 (presentAssistantMessageN_loopFields _ s));
      change (abort s) with (abort st0)
  end.
  rewrite Ha. reflexivity.
Qed.

(** The end of the [try] block once the answer is non-empty and the
    cursor has passed every block. *)
Lemma tryIteration_tail_ready (s : TaskState) (answer : string) :
  userMessageContentReady s = true ->
  isEmpty answer = false ->
  (let st2 := set_isStreaming s false in
   let st3 := if isEmpty answer then st2
              else pushClineMessage
                     (pushHistory st2 {| role := assistant;
                                         content := ArrayContent [TextBlock answer] |})
                     {| say := "assistant_message"; text := answer |} in
   if negb (userMessageContentReady st3) then (Throw timeoutError, st3)
   else if hasCompletionTool (assistantMessageContent st3)
        then (Break, emitEvent st3 task_completed)
        else (Continue, st3))
  = (let st3 := pushClineMessage
                  (pushHistory (set_isStreaming s false)
                     {| role := assistant; content := ArrayContent [TextBlock answer] |})
                  {| say := "assistant_message"; text := answer |} in
     if hasCompletionTool (assistantMessageContent s)
     then (Break, emitEvent st3 task_completed)
     else (Continue, st3)).
Proof. intros Hready Hne. cbn zeta. rewrite Hne. cbn. rewrite Hready. reflexivity. Qed.

(** X15. A turn whose answer is one tool-use tag with a payload that
    decodes to a truthy value dispatches that tool once, with that input:
    the calls made grow by one, the history gets the message made from the
    result or the failure of that dispatch and then the assistant message,
    and the loop goes on with a further request, unless the tool is
    [attempt_completion], in which case the loop ends with the event
    [task_completed]. *)
Theorem single_tool_turn st (ws1 n ws2 i ws3 after : string) (input : Json) :
  abort st = false ->
  allWhiteSpace ws1 = true -> allWhiteSpace ws2 = true -> allWhiteSpace ws3 = true ->
  includes n "</name>" = false ->
  includes i "</input>" = false ->
  allWhiteSpace after = true ->
  JSON_parse i = Some input ->
  executable (ToolUse n input false) = true ->
  let answer := toolUseTag ws1 n ws2 i ws3 +:+ after in
  (forall msgs, fst (createMessage msgs (world st))
                = {| chunks := [TextChunk (Some answer)]; thrown := None |}) ->
  let request := createMessage (getTruncatedMessages (apiConversationHistory st)
                                  (conversationHistoryDeletedRange st)) (world st) in
  let ran := dispatch (set_world st (snd request)) n input in
  let result := iteration st in
  fst result = (if String.eqb n "attempt_completion" then Break else Continue) /\
  apiConversationHistory (snd result)
  = apiConversationHistory st ++
    [outcomeMessage n (fst ran);
     {| role := assistant; content := ArrayContent [TextBlock answer] |}] /\
  dispatched (snd result) = dispatched (snd ran) /\
  (exists call,
     dispatched (snd result) = dispatched st ++ [call] /\
     (call = RegistryExecuteTool n input \/
      exists serverName tool, call = HubCallTool serverName tool input)) /\
  world (snd result) = world (snd ran) /\
  (String.eqb n "attempt_completion" = true ->
   exists evs, events (snd result) = evs ++ [task_completed]).
Proof.
  intros Habort Hws1 Hws2 Hws3 Hn Hi Hafter Hjson Hexec answer Hstream request ran result.
  assert (Hparse : parseAssistantMessage answer = [ToolUse n input false]).
  { subst answer. rewrite parse_tag_alone by assumption. rewrite Hjson. reflexivity. }
  (* how the pass ends *)
  assert (Hend : fst (tryIteration st)
                 = (if String.eqb n "attempt_completion" then Break else Continue) /\
                 (String.eqb n "attempt_completion" = true ->
                  exists evs, events (snd (tryIteration st)) = evs ++ [task_completed])).
  { destruct (tryIteration_one_chunk st answer Habort Hstream)
      as (st1 & Ha & Hidx & _ & _ & _ & Htry).
    rewrite Hparse in Htry.
    rewrite (present_one_tool (set_assistantMessageContent st1 [ToolUse n input false])
               n input eq_refl Hidx Hexec) in Htry.
    destruct (executeTool_stream_state
                (set_assistantMessageContent st1 [ToolUse n input false]) n input)
      as (Hc & _ & _).
    change (assistantMessageContent (set_assistantMessageContent st1 [ToolUse n input false]))
      with [ToolUse n input false] in Hc.
    set (executed := executeTool (set_assistantMessageContent st1 [ToolUse n input false])
                       n input) in *.
    clearbody executed.
    set (s := set_userMessageContentReady (set_currentStreamingContentIndex executed 1) true)
      in Htry.
    assert (Hs : userMessageContentReady s = true /\
                 assistantMessageContent s = [ToolUse n input false]).
    { subst s. cbn. auto. }
    destruct Hs as (Hready & Hcontent). clearbody s.
    rewrite (tryIteration_tail_ready s answer Hready eq_refl) in Htry.
    rewrite Hcontent in Htry. cbn [hasCompletionTool existsb] in Htry.
    rewrite orb_false_r in Htry. rewrite Htry. cbn zeta.
    destruct (String.eqb n "attempt_completion"); cbn [fst snd].
    - split; [reflexivity|]. intros _. eexists. reflexivity.
    - split; [reflexivity | discriminate]. }
  destruct Hend as (Hstep & Hevents).
  assert (Hiter : iteration st = tryIteration st).
  { unfold iteration. destruct (tryIteration st) as [[| |e] st'] eqn:Htry; try reflexivity.
    cbn [fst] in Hstep. destruct (String.eqb n "attempt_completion"); discriminate. }
  subst result. rewrite Hiter.
  (* what the pass leaves *)
  destruct (tryIteration_tools st Habort) as (Hh & Hd & Hw).
  fold request in Hh, Hd, Hw.
  assert (Hchunks : fst request = {| chunks := [TextChunk (Some answer)]; thrown := None |})
    by apply Hstream.
  assert (Htext : String.concat EmptyString (chunkTexts [TextChunk (Some answer)]) = answer)
    by reflexivity.
  rewrite Hchunks in Hh, Hd, Hw. cbn [chunks thrown] in Hh, Hd, Hw.
  rewrite Htext in Hh, Hd, Hw.
  rewrite Hparse in Hh, Hd, Hw. cbn [List.filter] in Hh, Hd, Hw. rewrite Hexec in Hh, Hd, Hw.
  cbn [runTools] in Hh, Hd, Hw. fold ran in Hh, Hd, Hw.
  destruct (dispatch_one_call (set_world st (snd request)) n input) as (call & Hcall & Hform).
  fold ran in Hcall. change (dispatched (set_world st (snd request))) with (dispatched st) in Hcall.
  destruct ran as [outcome st2]. cbn [fst snd] in *.
  split; [exact Hstep|]. split; [exact Hh|]. split; [exact Hd|].
  split; [exists call; split; [rewrite Hd; exact Hcall | exact Hform]|].
  split; [exact Hw | exact Hevents].
Qed.
(** X16. A tag whose payload [JSON.parse] rejects is not a tool use: it
    is kept as a complete text block that holds the tag, no tool is
    dispatched, nothing but the assistant message is appended to the
    history, and the loop goes on with a further request. *)
Theorem undecodable_payload_is_text st (ws1 n ws2 i ws3 after : string) :
  abort st = false ->
  allWhiteSpace ws1 = true -> allWhiteSpace ws2 = true -> allWhiteSpace ws3 = true ->
  includes n "</name>" = false ->
  includes i "</input>" = false ->
  allWhiteSpace after = true ->
  JSON_parse i = None ->
  let tag := toolUseTag ws1 n ws2 i ws3 in
  let answer := tag +:+ after in
  (forall msgs, fst (createMessage msgs (world st))
                = {| chunks := [TextChunk (Some answer)]; thrown := None |}) ->
  let result := iteration st in
  parseAssistantMessage answer = [TextContent tag false] /\
  fst result = Continue /\
  dispatched (snd result) = dispatched st /\
  apiConversationHistory (snd result)
  = apiConversationHistory st ++
    [ {| role := assistant; content := ArrayContent [TextBlock answer] |} ].
Proof.
  intros Habort Hws1 Hws2 Hws3 Hn Hi Hafter Hjson tag answer Hstream result.
  destruct (tryIteration_one_chunk st answer Habort Hstream)
    as (st1 & Ha & Hidx & Hh & Hd & _ & Htry).
  assert (Hparse : parseAssistantMessage answer = [TextContent tag false]).
  { subst answer tag. rewrite parse_tag_alone by assumption. rewrite Hjson. reflexivity. }
  split; [exact Hparse|].
  rewrite Hparse in Htry.
  rewrite (present_one_text (set_assistantMessageContent st1 [TextContent tag false])
             tag eq_refl Hidx) in Htry.
  set (s := set_userMessageContentReady _ true) in Htry.
  assert (Hs : userMessageContentReady s = true /\
               assistantMessageContent s = [TextContent tag false] /\
               apiConversationHistory s = apiConversationHistory st /\
               dispatched s = dispatched st).
  { subst s. cbn. auto. }
  destruct Hs as (Hready & Hcontent & Hhs & Hds). clearbody s.
  rewrite (tryIteration_tail_ready s answer Hready eq_refl) in Htry.
  rewrite Hcontent in Htry. cbn [hasCompletionTool existsb orb] in Htry.
  subst result. unfold iteration. rewrite Htry. cbn [fst snd].
  split; [reflexivity|]. split; [cbn; exact Hds|]. cbn. rewrite Hhs. reflexivity.
Qed.
End WithRuntime.

Lemma single_tool_turn_witness :
  let answer := toolUseTag EmptyString "attempt_completion" EmptyString "{}" EmptyString
                +:+ String "010" EmptyString in
  let st := pushHistory
              (Demo.newTask None [ {| chunks := [TextChunk (Some answer)]; thrown := None |} ])
              (userText "task") in
  fst (iteration st) = Break /\
  apiConversationHistory (snd (iteration st))
  = [userText "task"; toolResultMessage "attempt_completion" "ok";
     {| role := assistant; content := ArrayContent [TextBlock answer] |}] /\
  dispatched (snd (iteration st)) = [RegistryExecuteTool "attempt_completion" (JObject [])].
Proof.
  intros answer st.
  destruct (@single_tool_turn Demo.runtime st EmptyString "attempt_completion" EmptyString
              "{}" EmptyString (String "010" EmptyString) (JObject []))
    as (Hstep & Hhist & Hd & _); try reflexivity.
  split; [exact Hstep|]. rewrite Hhist, Hd. vm_compute. split; reflexivity.
Defined.

Lemma undecodable_payload_is_text_witness :
  let answer := toolUseTag EmptyString "read_file" EmptyString "{path: a.txt}" EmptyString in
  let st := pushHistory
              (Demo.newTask None [ {| chunks := [TextChunk (Some answer)]; thrown := None |} ])
              (userText "task") in
  @parseAssistantMessage Demo.runtime answer = [TextContent answer false] /\
  fst (iteration st) = Continue /\
  dispatched (snd (iteration st)) = [].
Proof.
  intros answer st.
  destruct (@undecodable_payload_is_text Demo.runtime st EmptyString "read_file" EmptyString
              "{path: a.txt}" EmptyString EmptyString)
    as (Hparse & Hstep & Hd & _); try reflexivity.
  split; [exact Hparse|]. split; [exact Hstep | exact Hd].
Defined.
End ToolTurnFacts.

(** ** The connections of the hub *)

Module HubStateFacts.
Import McpHub HubFacts.

Implicit Types (conns : list McpConnection) (n m : string).

Lemma withoutName_names_subset n m conns :
  m ∈ (fun conn => name (server conn)) <$> withoutName n conns ->
  m ∈ (fun conn => name (server conn)) <$> conns /\ m <> n.
Proof.
  induction conns as [|c conns IH]; cbn [withoutName List.filter].
  - intros []%elem_of_nil.
  - fold (withoutName n conns). destruct (nameIs n c) eqn:Hc; cbn [negb].
    + intros Hin. destruct (IH Hin) as [Hm Hne]. split; [right; exact Hm | exact Hne].
    + rewrite !fmap_cons. intros [-> | Hin]%elem_of_cons.
      * split; [left|]. apply nameIs_false in Hc. exact Hc.
      * destruct (IH Hin) as [Hm Hne]. split; [right; exact Hm | exact Hne].
Qed.

Lemma withoutName_names_NoDup n conns :
  NoDup ((fun conn => name (server conn)) <$> conns) ->
  NoDup ((fun conn => name (server conn)) <$> withoutName n conns).
Proof.
  induction conns as [|c conns IH]; cbn [withoutName List.filter]; [trivial|].
  fold (withoutName n conns). rewrite fmap_cons. intros [Hc Hnd]%NoDup_cons.
  destruct (nameIs n c); cbn [negb]; [exact (IH Hnd)|].
  rewrite fmap_cons. apply NoDup_cons. split; [|exact (IH Hnd)].
  intros Hin. apply withoutName_names_subset in Hin. apply Hc, Hin.
Qed.

Lemma withoutName_absent n conns :
  n ∉ (fun conn => name (server conn)) <$> conns -> withoutName n conns = conns.
Proof.
  induction conns as [|c conns IH]; [reflexivity|].
  rewrite fmap_cons. intros Hn. apply not_elem_of_cons in Hn. destruct Hn as [Hne Hn].
  cbn [withoutName List.filter]. fold (withoutName n conns).
  assert (Hc : nameIs n c = false) by (apply nameIs_false; congruence).
  rewrite Hc. cbn [negb]. rewrite (IH Hn). reflexivity.
Qed.

Lemma find_withoutName_same n conns : List.find (nameIs n) (withoutName n conns) = None.
Proof.
  induction conns as [|c conns IH]; [reflexivity|].
  cbn [withoutName List.filter]. fold (withoutName n conns).
  destruct (nameIs n c) eqn:Hc; cbn [negb]; [exact IH|].
  cbn [List.find]. rewrite Hc. exact IH.
Qed.

Lemma find_app_last n conns conn :
  List.find (nameIs n) conns = None -> nameIs n conn = true ->
  List.find (nameIs n) (conns ++ [conn]) = Some conn.
Proof.
  intros Hnone Hconn. induction conns as [|c conns IH]; cbn [app List.find].
  - rewrite Hconn. reflexivity.
  - cbn [List.find] in Hnone. destruct (nameIs n c); [discriminate|]. exact (IH Hnone).
Qed.

Lemma find_Some_name n conns conn :
  List.find (nameIs n) conns = Some conn ->
  n ∈ (fun conn => name (server conn)) <$> conns.
Proof.
  induction conns as [|c conns IH]; [discriminate|].
  cbn [List.find]. destruct (nameIs n c) eqn:Hc.
  - intros _. rewrite fmap_cons. apply nameIs_true in Hc. rewrite Hc. left.
  - intros Hf. rewrite fmap_cons. right. exact (IH Hf).
Qed.

Lemma find_None_name n conns :
  List.find (nameIs n) conns = None ->
  n ∉ (fun conn => name (server conn)) <$> conns.
Proof.
  induction conns as [|c conns IH]; [intros _ []%elem_of_nil|].
  cbn [List.find]. destruct (nameIs n c) eqn:Hc; [discriminate|].
  intros Hf. rewrite fmap_cons. apply not_elem_of_cons. split; [|exact (IH Hf)].
  apply nameIs_false in Hc. congruence.
Qed.

Lemma markFailed_names n e conns :
  (fun conn => name (server conn)) <$> markFailed n e conns
  = (fun conn => name (server conn)) <$> conns.
Proof.
  induction conns as [|c conns IH]; [reflexivity|].
  cbn [markFailed]. destruct (nameIs n c); rewrite !fmap_cons; [reflexivity|].
  rewrite IH. reflexivity.
Qed.

Lemma setOf_complete n (names : list string) : n ∈ names -> n ∈ setOf names.
Proof.
  induction names as [|m names IH]; [intros []%elem_of_nil|].
  cbn [setOf]. destruct (String.eqb_spec n m) as [-> | Hne]; [intros _; left|].
  intros [-> | Hin]%elem_of_cons; [congruence|]. right.
  apply list_elem_of_In, List.filter_In. split; [apply list_elem_of_In, IH, Hin|].
  apply negb_true_iff, String.eqb_neq. exact Hne.
Qed.

Lemma deleteConnection_names hub n :
  connectionNames (deleteConnection hub n)
  = (fun conn => name (server conn)) <$> withoutName n (connections hub).
Proof.
  unfold deleteConnection, connectionNames.
  destruct (findConnection hub n) as [conn|] eqn:Hf; [reflexivity|].
  rewrite withoutName_absent; [reflexivity|]. apply find_None_name. exact Hf.
Qed.

Section WithRuntime.
Context `{Runtime}.

(** The names after [connectToServer]: those of the other connections,
    and at most one connection of the name it was called with. *)
Lemma connectToServer_names hub n c :
  let names' := connectionNames (snd (connectToServer hub n c)) in
  let others := (fun conn => name (server conn)) <$> withoutName n (connections hub) in
  names' = others \/ names' = others ++ [n].
Proof.
  destruct (connectToServer_connections hub n c) as (Hconns & _).
  unfold connectionNames. cbn zeta. rewrite Hconns, fmap_app.
  destruct (connectToServer_new n c) as [-> | (conn & -> & Hname & _)].
  - left. apply app_nil_r.
  - right. cbn. rewrite Hname. reflexivity.
Qed.

Lemma connectToServer_unique hub n c :
  NoDup (connectionNames hub) -> NoDup (connectionNames (snd (connectToServer hub n c))).
Proof.
  intros Hnd. pose proof (withoutName_names_NoDup n _ Hnd) as Hothers.
  destruct (connectToServer_names hub n c) as [-> | ->]; [exact Hothers|].
  apply NoDup_app. split; [exact Hothers|]. split; [|apply NoDup_singleton].
  intros m Hm ->%list_elem_of_singleton.
  apply withoutName_names_subset in Hm. destruct Hm as [_ Hne]. congruence.
Qed.

Lemma deleteConnection_unique hub n :
  NoDup (connectionNames hub) -> NoDup (connectionNames (deleteConnection hub n)).
Proof. intros Hnd. rewrite deleteConnection_names. apply withoutName_names_NoDup, Hnd. Qed.

Lemma updateEntry_unique hub entry :
  NoDup (connectionNames hub) -> NoDup (connectionNames (updateEntry hub entry)).
Proof.
  intros Hnd. destruct entry as [n c]. unfold updateEntry.
  destruct (findConnection hub n) as [conn|]; [|apply connectToServer_unique, Hnd].
  destruct (negb _); [|exact Hnd].
  apply connectToServer_unique, deleteConnection_unique, Hnd.
Qed.

Lemma deleteConnection_frame hub m n :
  n <> m -> findConnection (deleteConnection hub m) n = findConnection hub n.
Proof.
  intros Hne. unfold deleteConnection.
  destruct (findConnection hub m); [|reflexivity].
  unfold findConnection. hub_simpl. apply find_withoutName. exact Hne.
Qed.

(** An entry of another name leaves the connection of [n] as it is. *)
Lemma updateEntry_frame hub m c n :
  n <> m -> findConnection (updateEntry hub (m, c)) n = findConnection hub n.
Proof.
  intros Hne. unfold updateEntry.
  destruct (findConnection hub m) as [conn|].
  - destruct (negb _); [|reflexivity].
    destruct (connectToServer_frame (deleteConnection hub m) m c) as (_ & _ & _ & Hf).
    rewrite (Hf n Hne). apply deleteConnection_frame, Hne.
  - destruct (connectToServer_frame hub m c) as (_ & _ & _ & Hf). apply Hf, Hne.
Qed.

Lemma foldl_updateEntry_frame entries hub n :
  n ∉ entries.*1 -> findConnection (foldl updateEntry hub entries) n = findConnection hub n.
Proof.
  revert hub. induction entries as [|[m c] entries IH]; intros hub Hn; [reflexivity|].
  rewrite fmap_cons in Hn. apply not_elem_of_cons in Hn. destruct Hn as [Hne Hn].
  cbn [foldl]. rewrite (IH _ Hn). apply updateEntry_frame. exact Hne.
Qed.

Lemma foldl_delete_absent (newNames names : list string) hub n :
  findConnection hub n = None ->
  findConnection
    (foldl (fun hub k => if bool_decide (k ∈ newNames) then hub else deleteConnection hub k)
           hub names) n = None.
Proof.
  revert hub. induction names as [|k names IH]; intros hub Hnone; [exact Hnone|].
  cbn [foldl]. apply IH. destruct (bool_decide _); [exact Hnone|].
  destruct (String.eqb_spec n k) as [-> | Hne].
  - unfold deleteConnection. rewrite Hnone. exact Hnone.
  - rewrite deleteConnection_frame by exact Hne. exact Hnone.
Qed.

Lemma appendErrors_setStatus (s : McpServer) (st : Status) (msgs : list string) :
  foldl appendErrorMessage (setStatus s st) msgs
  = setStatus (foldl appendErrorMessage s msgs) st.
Proof.
  revert s. induction msgs as [|m msgs IH]; intros s; [reflexivity|].
  cbn [foldl]. rewrite <- IH. reflexivity.
Qed.

Lemma appendErrors_kept (s : McpServer) (msgs : list string) :
  name (foldl appendErrorMessage s msgs) = name s /\
  config (foldl appendErrorMessage s msgs) = config s.
Proof.
  revert s. induction msgs as [|m msgs IH]; intros s; [auto|].
  cbn [foldl]. destruct (IH (appendErrorMessage s m)) as [-> ->]. auto.
Qed.

(** The server of a connection after the events a transport reported,
    up to its status: the messages of the errors are appended. *)
Lemma transportEvents_server n closeHandled events :
  forall conn,
    name (server conn) = n ->
    exists conn',
      foldl (transportEvent n closeHandled) [conn] events = [conn'] /\
      setStatus (server conn') disconnected
      = setStatus (foldl appendErrorMessage (server conn) (reportedErrors events))
                  disconnected.
Proof.
  induction events as [|event events IH]; intros conn Hname; [exists conn; auto|].
  assert (Hn : nameIs n conn = true) by (apply nameIs_true; exact Hname).
  cbn [foldl]. destruct event as [message|]; cbn [transportEvent markFailed updateFirst].
  - rewrite Hn.
    edestruct IH as (conn' & -> & Hserver); [|exists conn'].
    { cbn. exact Hname. }
    split; [reflexivity|]. rewrite Hserver. cbn [server reportedErrors omap list_omap foldl].
    change (appendErrorMessage (setStatus (server conn) disconnected) message)
      with (setStatus (appendErrorMessage (server conn) message) disconnected).
    rewrite appendErrors_setStatus. reflexivity.
  - destruct closeHandled.
    + rewrite Hn.
      edestruct IH as (conn' & -> & Hserver); [|exists conn'].
      { cbn. exact Hname. }
      split; [reflexivity|]. rewrite Hserver. cbn [server].
      rewrite appendErrors_setStatus. reflexivity.
    + apply IH, Hname.
Qed.

(** X17. A server that is new in the settings and enabled, whose
    transport can be set up and to which the connect succeeds, has after
    [updateServerConnections] a connection in state connected, with an
    empty error, the serialised configuration and the tools the server
    listed, each with [autoApprove] false, or no tools when the request
    for them fails or the response has none; [getServers] lists it. This
    is so when the transport reports nothing between the connect and the
    return of [connectToServer]. The connect is made on a started
    transport exactly for the type stdio. *)
Theorem new_server_is_connected hub (newServers : list (string * McpServerConfig))
    (n : string) (c : McpServerConfig) (started : bool) :
  NoDup (newServers.*1) ->
  (n, c) ∈ newServers ->
  findConnection hub n = None ->
  isTrue (cfgDisabled c) = false ->
  setupTransport n c = inr started ->
  rejection (clientConnect n c started) = None ->
  firedAfter (clientConnect n c started) = [] ->
  started = String.eqb (cfgType c) "stdio" /\
  exists conn,
    findConnection (updateServerConnections hub newServers) n = Some conn /\
    status (server conn) = connected /\
    error (server conn) = Some EmptyString /\
    config (server conn) = JSON_stringify_config c /\
    tools (server conn)
    = Some match toolsListRequest n (JSON_stringify_config c) with
           | inl (Some listed) =>
               (fun tool => {| toolName := toolName tool; autoApprove := false |}) <$> listed
           | inl None => []
           | inr _ => []
           end /\
    server conn ∈ getServers (updateServerConnections hub newServers).
Proof.
  intros Hnodup Hin Hnone Henabled Hsetup Hconnect Hquiet.
  split.
  { unfold setupTransport in Hsetup.
    destruct (String.eqb (cfgType c) "stdio").
    - destruct (transportStart n c); congruence.
    - destruct (String.eqb (cfgType c) "sse"); [destruct (newTransport c); congruence|].
      destruct (String.eqb (cfgType c) "http"); [destruct (newTransport c); congruence|].
      discriminate. }
  unfold updateServerConnections.
  set (hub1 := foldl _ (setIsConnecting hub true) _).
  assert (H1 : findConnection hub1 n = None).
  { subst hub1. apply foldl_delete_absent. exact Hnone. }
  clearbody hub1.
  apply list_elem_of_split in Hin. destruct Hin as (l1 & l2 & ->).
  rewrite fmap_app, fmap_cons in Hnodup. cbn [fst] in Hnodup.
  apply NoDup_app in Hnodup. destruct Hnodup as (_ & Hl1 & Hl2%NoDup_cons).
  destruct Hl2 as [Hn2 _].
  assert (Hn1 : n ∉ l1.*1) by (intros Hin1; apply (Hl1 n Hin1); left).
  rewrite foldl_app. cbn [foldl].
  set (hub2 := foldl updateEntry hub1 l1).
  assert (H2 : findConnection hub2 n = None).
  { subst hub2. rewrite foldl_updateEntry_frame by exact Hn1. exact H1. }
  clearbody hub2.
  assert (Hnew : exists conn,
             connections (snd (connectToServer newHub n c)) = [conn] /\
             name (server conn) = n /\
             status (server conn) = connected /\
             error (server conn) = Some EmptyString /\
             config (server conn) = JSON_stringify_config c /\
             disabled (server conn) = cfgDisabled c /\
             tools (server conn)
             = Some match toolsListRequest n (JSON_stringify_config c) with
                    | inl (Some listed) =>
                        (fun tool => {| toolName := toolName tool; autoApprove := false |})
                          <$> listed
                    | inl None => []
                    | inr _ => []
                    end).
  { unfold connectToServer, newHub. hub_simpl. cbn [withoutName List.filter app].
    rewrite Henabled, Hsetup. hub_simpl.
    set (connection := {| server := _; hasClient := true; hasTransport := true |}).
    assert (H0 : connectionOf n (JSON_stringify_config c) (cfgDisabled c) connection)
      by (repeat split).
    destruct (transportEvents_single n (JSON_stringify_config c) (cfgDisabled c)
                (String.eqb (cfgType c) "stdio")
                (fired (clientConnect n c started)) connection H0) as (conn1 & -> & H1').
    rewrite Hconnect, Hquiet. hub_simpl. cbn [foldl].
    destruct (updateFirst_single n (JSON_stringify_config c) (cfgDisabled c)
                (fun s => setError (setStatus s connected) (Some EmptyString)) conn1)
      as (conn2 & -> & Hs2 & H2'); [intros s; repeat split | exact H1' |].
    assert (Hfetch : forall h, connections h = [conn2] ->
               fetchToolsList h n
               = match toolsListRequest n (JSON_stringify_config c) with
                 | inl (Some listed) =>
                     (fun tool => {| toolName := toolName tool; autoApprove := false |})
                       <$> listed
                 | inl None => []
                 | inr _ => []
                 end).
    { intros h Hh. unfold fetchToolsList, findConnection. rewrite Hh. cbn [List.find].
      destruct H2' as (Hn & Hc & Hd & Hcl).
      assert (Hname : nameIs n conn2 = true) by (apply nameIs_true; exact Hn).
      rewrite Hname, Hd, Henabled, Hcl, Hc. reflexivity. }
    rewrite Hfetch by reflexivity.
    match goal with |- context [setTools _ ?l] => set (listed := l) end.
    destruct (updateFirst_single n (JSON_stringify_config c) (cfgDisabled c)
                (fun s => setTools s listed) conn2)
      as (conn3 & -> & Hs3 & (Hn & Hc & Hd & _)); [intros s; repeat split | exact H2' |].
    exists conn3. split; [reflexivity|]. rewrite Hs3, Hs2. cbn.
    destruct H1' as (? & ? & ? & _). repeat split; assumption. }
  destruct Hnew as (conn & Hconn & Hname & Hstatus & Herror & Hconfig & Hdisabled & Htools).
  assert (H3 : findConnection (updateEntry hub2 (n, c)) n = Some conn).
  { unfold updateEntry. rewrite H2.
    destruct (connectToServer_connections hub2 n c) as (Hconns & _).
    unfold findConnection. rewrite Hconns, Hconn.
    apply find_app_last; [apply find_withoutName_same | apply nameIs_true; exact Hname]. }
  set (hub3 := updateEntry hub2 (n, c)) in *. clearbody hub3.
  assert (H4 : findConnection (foldl updateEntry hub3 l2) n = Some conn).
  { rewrite foldl_updateEntry_frame by exact Hn2. exact H3. }
  set (hub4 := foldl updateEntry hub3 l2) in *. clearbody hub4.
  exists conn. split; [exact H4|]. repeat split; try assumption.
  unfold getServers. apply list_elem_of_fmap. exists conn. split; [reflexivity|].
  apply list_elem_of_In, List.filter_In. split.
  - unfold findConnection in H4. apply List.find_some in H4. apply H4.
  - rewrite Hdisabled, Henabled. reflexivity.
Qed.

(** X18. The hub never holds two connections of one name: the names of
    the connections are pairwise distinct after [updateServerConnections]
    whenever they were before, as they are in a new hub. *)
Theorem hub_names_stay_unique hub (newServers : list (string * McpServerConfig)) :
  NoDup (connectionNames hub) ->
  NoDup (connectionNames (updateServerConnections hub newServers)).
Proof.
  intros Hnd. unfold updateServerConnections.
  change (connectionNames (setIsConnecting ?h false)) with (connectionNames h).
  set (hub0 := setIsConnecting hub true).
  assert (H0 : NoDup (connectionNames hub0)) by exact Hnd.
  clearbody hub0.
  generalize (setOf ((fun conn => name (server conn)) <$> connections hub0)) as currentNames.
  intros currentNames.
  assert (Hdel : NoDup (connectionNames
            (foldl (fun hub n => if bool_decide (n ∈ newServers.*1) then hub
                                 else deleteConnection hub n) hub0 currentNames))).
  { revert hub0 H0. induction currentNames as [|n names IH]; intros hub0 H0; [exact H0|].
    cbn [foldl]. apply IH. destruct (bool_decide _); [exact H0|].
    apply deleteConnection_unique, H0. }
  revert Hdel. generalize (foldl (fun hub n => if bool_decide (n ∈ newServers.*1) then hub
                                  else deleteConnection hub n) hub0 currentNames) as hub1.
  induction newServers as [|entry entries IH]; intros hub1 H1; [exact H1|].
  cbn [foldl]. apply IH. apply updateEntry_unique, H1.
Qed.

Lemma updateEntry_names hub n c m :
  m ∈ connectionNames (updateEntry hub (n, c)) -> m ∈ connectionNames hub \/ m = n.
Proof.
  unfold updateEntry.
  assert (Hconnect : forall hub', m ∈ connectionNames (snd (connectToServer hub' n c)) ->
                                  m ∈ connectionNames hub' \/ m = n).
  { intros hub' Hm. destruct (connectToServer_names hub' n c) as [Heq | Heq];
      rewrite Heq in Hm.
    - left. apply (withoutName_names_subset n m _ Hm).
    - apply elem_of_app in Hm. destruct Hm as [Hm | Hm%list_elem_of_singleton].
      + left. apply (withoutName_names_subset n m _ Hm).
      + right. exact Hm. }
  destruct (findConnection hub n) as [conn|]; [|apply Hconnect].
  destruct (negb _); [|left; assumption].
  intros Hm. destruct (Hconnect _ Hm) as [Hin | ->]; [left | right; reflexivity].
  rewrite deleteConnection_names in Hin. apply (withoutName_names_subset n m _ Hin).
Qed.

(** X19. After [updateServerConnections] every connection of the hub
    belongs to a server of the new settings: the connections of the
    servers that are no longer configured are gone. *)
Theorem update_keeps_configured_servers_only hub
    (newServers : list (string * McpServerConfig)) (m : string) :
  m ∈ connectionNames (updateServerConnections hub newServers) -> m ∈ newServers.*1.
Proof.
  unfold updateServerConnections.
  change (connectionNames (setIsConnecting ?h false)) with (connectionNames h).
  set (hub0 := setIsConnecting hub true).
  set (del := fun hub n => if bool_decide (n ∈ newServers.*1) then hub
                          else deleteConnection hub n).
  assert (Hdel : forall names hub1,
             (forall k, k ∈ connectionNames (foldl del hub1 names) -> k ∈ connectionNames hub1) /\
             (forall k, k ∈ names -> k ∉ newServers.*1 ->
                        k ∉ connectionNames (foldl del hub1 names))).
  { induction names as [|n names IH]; intros hub1.
    - split; [trivial | intros k []%elem_of_nil].
    - cbn [foldl]. destruct (IH (del hub1 n)) as [Hsub Hgone].
      assert (Hstep : forall k, k ∈ connectionNames (del hub1 n) ->
                                k ∈ connectionNames hub1 /\ (n ∉ newServers.*1 -> k <> n)).
      { intros k Hk. unfold del in Hk. destruct (bool_decide_reflect (n ∈ newServers.*1)).
        - split; [exact Hk | contradiction].
        - rewrite deleteConnection_names in Hk.
          destruct (withoutName_names_subset n k _ Hk) as [Hin Hne]. split; [exact Hin | auto]. }
      split.
      + intros k Hk. apply Hstep, Hsub, Hk.
      + intros k [-> | Hin]%elem_of_cons Hnew.
        * intros Hk. apply Hsub, Hstep in Hk. destruct Hk as [_ Hne]. apply (Hne Hnew eq_refl).
        * apply Hgone; assumption. }
  destruct (Hdel (setOf ((fun conn => name (server conn)) <$> connections hub0)) hub0)
    as [Hsub Hgone].
  assert (H1 : forall k, k ∈ connectionNames
                 (foldl del hub0 (setOf ((fun conn => name (server conn)) <$> connections hub0)))
               -> k ∈ newServers.*1).
  { intros k Hk. destruct (decide (k ∈ newServers.*1)) as [|Hnot]; [assumption|].
    exfalso. apply (Hgone k); [|exact Hnot | exact Hk].
    apply setOf_complete, Hsub, Hk. }
  clear Hdel Hsub Hgone. revert H1.
  generalize (foldl del hub0 (setOf ((fun conn => name (server conn)) <$> connections hub0)))
    as hub1.
  clearbody hub0. clear hub0.
  assert (Hgen : forall entries (allowed : list string) hub1,
             (forall k, k ∈ connectionNames hub1 -> k ∈ allowed) ->
             (forall k, k ∈ entries.*1 -> k ∈ allowed) ->
             forall k, k ∈ connectionNames (foldl updateEntry hub1 entries) -> k ∈ allowed).
  { induction entries as [|[n c] entries IH]; intros allowed hub1 H1 Hentries k Hk;
      [apply H1, Hk|].
    cbn [foldl] in Hk. apply (IH allowed (updateEntry hub1 (n, c))); [| |exact Hk].
    - intros k' Hk'. destruct (updateEntry_names hub1 n c k' Hk') as [Hin | ->].
      + apply H1, Hin.
      + apply Hentries. rewrite fmap_cons. left.
    - intros k' Hk'. apply Hentries. rewrite fmap_cons. right. exact Hk'. }
  intros hub1 H1. apply (Hgen newServers (newServers.*1) hub1 H1). trivial.
Qed.

(** X20. [dispose] closes the connection of every server, once and in
    the order of the connections, and leaves the hub without connections. *)
Theorem dispose_closes_every_connection hub :
  NoDup (connectionNames hub) ->
  connections (dispose hub) = [] /\
  actions (dispose hub) = actions hub ++ (Closed <$> connectionNames hub).
Proof.
  intros Hnd. unfold dispose. split; [reflexivity|].
  change (actions (setConnections ?h [])) with (actions h).
  assert (Hgen : forall conns hub1,
             connections hub1 = conns ->
             NoDup ((fun conn => name (server conn)) <$> conns) ->
             actions (foldl (fun hub connection =>
                               deleteConnection hub (name (server connection))) hub1 conns)
             = actions hub1 ++ (Closed <$> ((fun conn => name (server conn)) <$> conns))).
  { induction conns as [|c conns IH]; intros hub1 Hconns Hnodup.
    - cbn. symmetry. apply app_nil_r.
    - rewrite fmap_cons in Hnodup. apply NoDup_cons in Hnodup. destruct Hnodup as [Hc Hrest].
      cbn [foldl]. unfold deleteConnection at 2. unfold findConnection. rewrite Hconns.
      cbn [List.find]. unfold nameIs at 1. rewrite String.eqb_refl.
      rewrite IH.
      + hub_simpl. rewrite !fmap_cons, <- app_assoc. reflexivity.
      + hub_simpl. cbn [withoutName List.filter]. unfold nameIs at 1.
        rewrite String.eqb_refl. cbn [negb]. apply withoutName_absent. exact Hc.
      + exact Hrest. }
  apply (Hgen (connections hub) hub eq_refl Hnd).
Qed.

(** X21. A server whose configuration is disabled is kept as a
    placeholder without client: [connectToServer] succeeds, the
    connection can be found under its name, [getServers] does not list
    it, and [callTool] refuses it without a request. *)
Theorem disabled_server_is_kept_but_unusable hub (n : string) (c : McpServerConfig)
    (tool : string) (args : Json) (w : World) :
  isTrue (cfgDisabled c) = true ->
  let hub' := snd (connectToServer hub n c) in
  fst (connectToServer hub n c) = None /\
  (exists conn, findConnection hub' n = Some conn /\
                hasClient conn = false /\ status (server conn) = disconnected) /\
  (forall s, s ∈ getServers hub' -> name s <> n) /\
  callTool hub' n tool args w
  = (inr {| errName := "Error";
            errMessage := "Server " +:+ JsString.quote +:+ n +:+ JsString.quote
                          +:+ " is disabled and cannot be used" |}, w).
Proof.
  intros Hdisabled hub'. subst hub'. unfold connectToServer. rewrite Hdisabled.
  hub_simpl.
  set (placeholder := {| server := {| name := n; config := JSON_stringify_config c;
                                      status := disconnected; disabled := Some true;
                                      error := None; tools := None |};
                         hasClient := false; hasTransport := false |}).
  assert (Hfind : findConnection
                    (setConnections
                       (setConnections (record hub (Connecting n c))
                          (withoutName n (connections hub)))
                       (withoutName n (connections hub) ++ [placeholder])) n
                  = Some placeholder).
  { unfold findConnection. hub_simpl. apply find_app_last.
    - apply find_withoutName_same.
    - apply nameIs_true. reflexivity. }
  split; [reflexivity|]. split; [exists placeholder; auto|]. split.
  - intros s Hs. unfold getServers in Hs. cbn [connections setConnections] in Hs.
    apply list_elem_of_fmap in Hs. destruct Hs as (conn & -> & Hconn).
    apply list_elem_of_In, List.filter_In in Hconn. destruct Hconn as [Hin Henabled].
    apply List.in_app_or in Hin. destruct Hin as [Hin | [<- | []]].
    + apply List.filter_In in Hin. destruct Hin as [_ Hne].
      apply negb_true_iff, nameIs_false in Hne. exact Hne.
    + discriminate.
  - unfold callTool. rewrite Hfind. reflexivity.
Qed.

(** X22. What a failure leaves decides whether a later update tries
    again. When [client.connect] rejects, the connection stays, marked
    disconnected, and its error holds the messages the transport reported
    to [onerror] while the connect was pending and then the message of the
    rejection: when the transport reported the error the connect rejects
    with, the message is there twice. An update with the same settings
    then does nothing for the server. When the transport cannot be set
    up no connection is kept, and the same update connects again. *)
Theorem failed_connect_is_not_retried (n : string) (c : McpServerConfig) (started : bool)
    (events : list TransportEvent) (e : JsError) :
  isTrue (cfgDisabled c) = false ->
  JSON_parse_config (JSON_stringify_config c) = c ->
  let once := updateServerConnections newHub [(n, c)] in
  let twice := updateServerConnections once [(n, c)] in
  let pushed := {| name := n; config := JSON_stringify_config c; status := connecting;
                   disabled := cfgDisabled c; error := None; tools := None |} in
  (setupTransport n c = inr started ->
   fired (clientConnect n c started) = events ->
   rejection (clientConnect n c started) = Some e ->
   (exists conn,
      findConnection once n = Some conn /\
      server conn
      = setStatus (foldl appendErrorMessage pushed (reportedErrors events ++ [errMessage e]))
                  disconnected /\
      (events = [] -> error (server conn) = Some (errMessage e)) /\
      (events = [TransportError (errMessage e)] -> JsString.isEmpty (errMessage e) = false ->
       error (server conn)
       = Some (errMessage e +:+ String "010" (errMessage e)))) /\
   actions once = [Connecting n c] /\
   twice = once) /\
  (setupTransport n c = inl e ->
   connections once = [] /\
   actions twice = [Connecting n c; Connecting n c]).
Proof.
  intros Hdisabled Hround once twice pushed.
  assert (Hfirst : once = setIsConnecting (snd (connectToServer (setIsConnecting newHub true) n c))
                            false).
  { reflexivity. }
  split.
  - intros Hsetup Hfired Hfails.
    assert (Hnew : exists conn,
               connections (snd (connectToServer (setIsConnecting newHub true) n c)) = [conn] /\
               server conn
               = setStatus (foldl appendErrorMessage pushed
                              (reportedErrors events ++ [errMessage e])) disconnected).
    { unfold connectToServer, newHub. hub_simpl. cbn [withoutName List.filter app].
      rewrite Hdisabled, Hsetup, Hfired, Hfails. hub_simpl.
      set (connection := {| server := _; hasClient := true; hasTransport := true |}).
      destruct (transportEvents_server n (String.eqb (cfgType c) "stdio") events connection
                  eq_refl) as (conn1 & -> & Hserver).
      assert (Hn1 : nameIs n conn1 = true).
      { apply nameIs_true. change (name (server conn1))
          with (name (setStatus (server conn1) disconnected)). rewrite Hserver.
        apply (appendErrors_kept pushed). }
      cbn [markFailed]. rewrite Hn1. eexists. split; [reflexivity|].
      cbn [server]. rewrite foldl_app. cbn [foldl]. rewrite Hserver.
      change (appendErrorMessage (setStatus ?s disconnected) ?m)
        with (setStatus (appendErrorMessage s m) disconnected).
      reflexivity. }
    destruct Hnew as (conn & Hconn & Hserver).
    assert (Hactions : actions once = [Connecting n c]).
    { destruct (connectToServer_connections (setIsConnecting newHub true) n c)
        as (_ & _ & Ha & _).
      rewrite Hfirst. change (actions (setIsConnecting ?h false)) with (actions h).
      rewrite Ha. reflexivity. }
    assert (Hname : name (server conn) = n).
    { rewrite Hserver. apply (appendErrors_kept pushed). }
    assert (Hconfig : config (server conn) = JSON_stringify_config c).
    { rewrite Hserver. apply (appendErrors_kept pushed). }
    assert (Hfind : findConnection once n = Some conn).
    { rewrite Hfirst. unfold findConnection. hub_simpl. rewrite Hconn. cbn [List.find].
      assert (Hn : nameIs n conn = true) by (apply nameIs_true; exact Hname).
      rewrite Hn. reflexivity. }
    split.
    { exists conn. split; [exact Hfind|]. split; [exact Hserver|]. split.
      - intros ->. rewrite Hserver. reflexivity.
      - intros -> Hne. rewrite Hserver. cbn. rewrite Hne. reflexivity. }
    split; [exact Hactions|].
    subst twice. unfold updateServerConnections.
    assert (Hnames : setOf ((fun conn => name (server conn))
                              <$> connections (setIsConnecting once true)) = [n]).
    { rewrite Hfirst. hub_simpl. rewrite Hconn. cbn. rewrite Hname. reflexivity. }
    rewrite Hnames. cbn [foldl fmap list_fmap fst].
    rewrite bool_decide_eq_true_2 by (left).
    rewrite (updateEntry_same (setIsConnecting once true) n c conn).
    + rewrite Hfirst. reflexivity.
    + exact Hfind.
    + rewrite Hconfig, Hround. unfold deepEqual. apply bool_decide_eq_true_2. reflexivity.
  - intros Hfails.
    assert (Honce : once = {| connections := []; isConnecting := false;
                              actions := [Connecting n c] |}).
    { rewrite Hfirst. unfold connectToServer. rewrite Hdisabled, Hfails. reflexivity. }
    split; [rewrite Honce; reflexivity|].
    subst twice. rewrite Honce. unfold updateServerConnections. cbn [foldl fmap list_fmap
      connections setIsConnecting setOf updateEntry findConnection List.find].
    unfold connectToServer. rewrite Hdisabled, Hfails. reflexivity.
Qed.
End WithRuntime.

Lemma new_server_is_connected_witness :
  exists conn,
    findConnection (@updateServerConnections Demo.runtime Demo.twoServerHub
                      [("fs", Demo.sse "http://localhost:3001/sse");
                       ("web", Demo.sse "http://localhost:3003/sse")]) "web"
    = Some conn /\
    status (server conn) = connected /\
    tools (server conn) = Some [ {| toolName := "search"; autoApprove := false |} ].
Proof.
  destruct (@new_server_is_connected Demo.runtime Demo.twoServerHub
              [("fs", Demo.sse "http://localhost:3001/sse");
               ("web", Demo.sse "http://localhost:3003/sse")]
              "web" (Demo.sse "http://localhost:3003/sse") false)
    as (_ & conn & Hfind & Hstatus & _ & _ & Htools & _);
    try reflexivity; try compute_done.
  exists conn. split; [exact Hfind|]. split; [exact Hstatus | exact Htools].
Defined.
Lemma hub_names_stay_unique_witness :
  NoDup (connectionNames Demo.twoServerHub) /\
  NoDup (connectionNames
           (@updateServerConnections Demo.runtime Demo.twoServerHub
              [("fs", Demo.sse "http://localhost:3001/v2"); ("web", Demo.sse "http://localhost:3003/sse")])).
Proof.
  assert (Hnd : NoDup (connectionNames Demo.twoServerHub)) by compute_done.
  split; [exact Hnd|].
  apply (@hub_names_stay_unique Demo.runtime Demo.twoServerHub). exact Hnd.
Defined.

Lemma dispose_closes_every_connection_witness :
  connections (dispose Demo.twoServerHub) = [] /\
  actions (dispose Demo.twoServerHub) = [Closed "fs"; Closed "git"].
Proof.
  apply (dispose_closes_every_connection Demo.twoServerHub). compute_done.
Defined.

Lemma update_keeps_configured_servers_only_witness :
  let hub' := @updateServerConnections Demo.runtime Demo.twoServerHub
                [("git", Demo.sse "http://localhost:3002/sse")] in
  connectionNames hub' = ["git"] /\ "git" ∈ [("git", Demo.sse "http://localhost:3002/sse")].*1.
Proof.
  intros hub'. split; [reflexivity|].
  apply (@update_keeps_configured_servers_only Demo.runtime Demo.twoServerHub
           [("git", Demo.sse "http://localhost:3002/sse")] "git").
  compute_done.
Defined.

Lemma disabled_server_is_kept_but_unusable_witness :
  let hub' := snd (@connectToServer Demo.runtime Demo.emptyHub "fs" Demo.disabledServer) in
  getServers hub' = [] /\
  @callTool Demo.runtime hub' "fs" "read" JNull []
  = (inr {| errName := "Error";
            errMessage := "Server " +:+ JsString.quote +:+ "fs" +:+ JsString.quote
                          +:+ " is disabled and cannot be used" |}, []).
Proof.
  intros hub'. split; [reflexivity|].
  apply (@disabled_server_is_kept_but_unusable Demo.runtime Demo.emptyHub "fs"
           Demo.disabledServer "read" JNull []).
  reflexivity.
Defined.

Lemma failed_connect_is_not_retried_witness :
  let once := @updateServerConnections Demo.offline newHub
                [("fs", Demo.sse "http://localhost:3001/sse")] in
  (exists conn,
     findConnection once "fs" = Some conn /\
     error (server conn)
     = Some ("connect ECONNREFUSED" +:+ String "010" "connect ECONNREFUSED")) /\
  actions once = [Connecting "fs" (Demo.sse "http://localhost:3001/sse")] /\
  @updateServerConnections Demo.offline once [("fs", Demo.sse "http://localhost:3001/sse")]
  = once.
Proof.
  intros once.
  destruct (@failed_connect_is_not_retried Demo.offline "fs"
              (Demo.sse "http://localhost:3001/sse") false
              [TransportError "connect ECONNREFUSED"] Demo.refused)
    as [Hkept _]; try reflexivity.
  destruct (Hkept eq_refl eq_refl eq_refl)
    as ((conn & Hfind & _ & _ & Htwice) & Hactions & Hsame).
  split; [|split; [exact Hactions | exact Hsame]].
  exists conn. split; [exact Hfind | exact (Htwice eq_refl eq_refl)].
Defined.

End HubStateFacts.

(** ** The tools *)

Module SanitizeFacts.
Import JsString JsReplace CommandExecution StringFacts.

Implicit Types (s t : string) (c d : ascii).

Lemma removeAll_length P s : (String.length (removeAll P s) <= String.length s)%nat.
Proof. induction s as [|c s IH]; cbn; [lia|]. destruct (P c); cbn; lia. Qed.

Lemma removeAll_idem P s : removeAll P (removeAll P s) = removeAll P s.
Proof.
  induction s as [|c s IH]; [reflexivity|]. cbn [removeAll].
  destruct (P c) eqn:Hc; [exact IH|]. cbn [removeAll]. rewrite Hc, IH. reflexivity.
Qed.

(** A string the removal leaves alone has no character of the class, and
    so have its pieces. *)
Lemma removeAll_fixed_cons P c s :
  removeAll P (String c s) = String c s -> P c = false /\ removeAll P s = s.
Proof.
  cbn [removeAll]. destruct (P c).
  - intros Heq. exfalso. pose proof (removeAll_length P s) as Hlen.
    rewrite Heq in Hlen. cbn in Hlen. lia.
  - intros Heq. injection Heq as Heq. auto.
Qed.

Lemma collapse_length s : (String.length (collapseWhiteSpace s) <= String.length s)%nat.
Proof.
  induction s as [|c s IH]; cbn [collapseWhiteSpace String.length]; [lia|].
  destruct (isWhiteSpace c); [|cbn; lia].
  destruct s as [|d s]; [cbn; lia|]. destruct (isWhiteSpace d); cbn [String.length] in *; lia.
Qed.

(** What a fixed point of the collapse looks like at its head. *)
Lemma collapse_fixed_cons c s :
  collapseWhiteSpace (String c s) = String c s ->
  collapseWhiteSpace s = s /\
  (isWhiteSpace c = true ->
   c = " "%char /\ match s with String d _ => isWhiteSpace d = false | EmptyString => True end).
Proof.
  cbn [collapseWhiteSpace]. destruct (isWhiteSpace c) eqn:Hc.
  - destruct s as [|d s].
    + intros Heq. injection Heq as <-. auto.
    + destruct (isWhiteSpace d) eqn:Hd.
      * intros Heq. exfalso. pose proof (collapse_length (String d s)) as Hlen.
        rewrite Heq in Hlen. cbn in Hlen. lia.
      * intros Heq. injection Heq as <- Heq. auto.
  - intros Heq. injection Heq as Heq. split; [exact Heq | discriminate].
Qed.

Lemma collapse_fixed_intro c s :
  collapseWhiteSpace s = s ->
  (isWhiteSpace c = true ->
   c = " "%char /\ match s with String d _ => isWhiteSpace d = false | EmptyString => True end) ->
  collapseWhiteSpace (String c s) = String c s.
Proof.
  intros Hs Hc. cbn [collapseWhiteSpace]. destruct (isWhiteSpace c) eqn:Hw.
  - destruct (Hc eq_refl) as [-> Hnext]. destruct s as [|d s]; [reflexivity|].
    rewrite Hnext, Hs. reflexivity.
  - rewrite Hs. reflexivity.
Qed.

(** The collapse yields a fixed point of itself. *)
Lemma collapse_idem s : collapseWhiteSpace (collapseWhiteSpace s) = collapseWhiteSpace s.
Proof.
  induction s as [|c s IH]; [reflexivity|].
  cbn [collapseWhiteSpace]. destruct (isWhiteSpace c) eqn:Hc.
  - destruct s as [|d s]; [reflexivity|].
    destruct (isWhiteSpace d) eqn:Hd; [exact IH|].
    apply collapse_fixed_intro; [exact IH|]. intros _. split; [reflexivity|].
    cbn [collapseWhiteSpace]. rewrite Hd. exact Hd.
  - apply collapse_fixed_intro; [exact IH|]. congruence.
Qed.

(** The collapse keeps a string without characters of a class that has
    no space in it so. *)
Lemma collapse_keeps_class P s :
  P " "%char = false -> removeAll P s = s ->
  removeAll P (collapseWhiteSpace s) = collapseWhiteSpace s.
Proof.
  intros Hspace. induction s as [|c s IH]; [reflexivity|].
  intros Hfix. apply removeAll_fixed_cons in Hfix. destruct Hfix as [Hc Hs].
  cbn [collapseWhiteSpace]. destruct (isWhiteSpace c).
  - destruct s as [|d s]; [cbn [removeAll]; rewrite Hspace; reflexivity|].
    destruct (isWhiteSpace d); [exact (IH Hs)|].
    cbn [removeAll]. rewrite Hspace, (IH Hs). reflexivity.
  - cbn [removeAll]. rewrite Hc, (IH Hs). reflexivity.
Qed.

(** [trimStart] gives a suffix, and both properties go to suffixes. *)
Lemma trimStart_keeps_class P s : removeAll P s = s -> removeAll P (trimStart s) = trimStart s.
Proof.
  induction s as [|c s IH]; [reflexivity|]. intros Hfix.
  cbn [trimStart]. destruct (isWhiteSpace c); [|exact Hfix].
  apply IH. apply (removeAll_fixed_cons P c s Hfix).
Qed.

Lemma trimStart_keeps_collapsed s :
  collapseWhiteSpace s = s -> collapseWhiteSpace (trimStart s) = trimStart s.
Proof.
  induction s as [|c s IH]; [reflexivity|]. intros Hfix.
  cbn [trimStart]. destruct (isWhiteSpace c); [|exact Hfix].
  apply IH. apply (collapse_fixed_cons c s Hfix).
Qed.

Lemma trimStart_head s :
  match trimStart s with String c _ => isWhiteSpace c = false | EmptyString => True end.
Proof.
  induction s as [|c s IH]; [exact I|]. cbn [trimStart].
  destruct (isWhiteSpace c) eqn:Hc; [exact IH | exact Hc].
Qed.

Lemma trimStart_fixed s :
  match s with String c _ => isWhiteSpace c = false | EmptyString => True end ->
  trimStart s = s.
Proof. destruct s as [|c s]; [reflexivity|]. cbn [trimStart]. intros ->. reflexivity. Qed.

(** [trimEnd] gives a prefix. *)
Lemma trimEnd_cons c s :
  trimEnd (String c s)
  = match trimEnd s with
    | EmptyString => if isWhiteSpace c then EmptyString else String c EmptyString
    | t => String c t
    end.
Proof. reflexivity. Qed.

Lemma trimEnd_keeps_class P s : removeAll P s = s -> removeAll P (trimEnd s) = trimEnd s.
Proof.
  induction s as [|c s IH]; [reflexivity|]. intros Hfix.
  apply removeAll_fixed_cons in Hfix. destruct Hfix as [Hc Hs].
  rewrite trimEnd_cons. specialize (IH Hs).
  destruct (trimEnd s) as [|d t].
  - destruct (isWhiteSpace c); [reflexivity|]. cbn [removeAll]. rewrite Hc. reflexivity.
  - cbn [removeAll] in *. rewrite Hc. rewrite IH. reflexivity.
Qed.

Lemma trimEnd_head s :
  match s with String c _ => isWhiteSpace c = false | EmptyString => True end ->
  match trimEnd s with String c _ => isWhiteSpace c = false | EmptyString => True end.
Proof.
  destruct s as [|c s]; [trivial|]. intros Hc. rewrite trimEnd_cons.
  destruct (trimEnd s); [rewrite Hc|]; exact Hc.
Qed.

Lemma trimEnd_first s d t :
  trimEnd s = String d t -> exists s', s = String d s'.
Proof.
  destruct s as [|c s]; [discriminate|]. rewrite trimEnd_cons.
  destruct (trimEnd s).
  - destruct (isWhiteSpace c); [discriminate|]. intros Heq. injection Heq as -> _. eauto.
  - intros Heq. injection Heq as -> _. eauto.
Qed.

Lemma trimEnd_keeps_collapsed s :
  collapseWhiteSpace s = s -> collapseWhiteSpace (trimEnd s) = trimEnd s.
Proof.
  induction s as [|c s IH]; [reflexivity|]. intros Hfix.
  apply collapse_fixed_cons in Hfix. destruct Hfix as [Hs Hc].
  rewrite trimEnd_cons. specialize (IH Hs).
  destruct (trimEnd s) as [|d t] eqn:Ht.
  - destruct (isWhiteSpace c) eqn:Hw; [reflexivity|].
    cbn [collapseWhiteSpace]. rewrite Hw. reflexivity.
  - apply collapse_fixed_intro; [exact IH|]. intros Hw.
    destruct (Hc Hw) as [-> Hnext]. split; [reflexivity|].
    destruct (trimEnd_first s d t Ht) as [s' ->]. exact Hnext.
Qed.

Lemma trimEnd_idem s : trimEnd (trimEnd s) = trimEnd s.
Proof.
  induction s as [|c s IH]; [reflexivity|]. rewrite trimEnd_cons.
  destruct (trimEnd s) as [|d t] eqn:Ht.
  - destruct (isWhiteSpace c) eqn:Hc; [reflexivity|]. cbn [trimEnd]. rewrite Hc. reflexivity.
  - rewrite trimEnd_cons, IH. reflexivity.
Qed.

Lemma trim_idem s : trim (trim s) = trim s.
Proof.
  unfold trim. rewrite (trimStart_fixed (trimEnd (trimStart s))).
  - apply trimEnd_idem.
  - apply trimEnd_head, trimStart_head.
Qed.

(** X23. What [sanitizeCommand] returns is clean: it holds none of the
    shell metacharacters, its white space is single spaces, none at either
    end; so sanitising it again changes nothing. *)
Theorem sanitized_command_is_clean (command : string) :
  let result := sanitizeCommand command in
  removeAll isShellMetacharacter result = result /\
  collapseWhiteSpace result = result /\
  trim result = result /\
  sanitizeCommand result = result.
Proof.
  intros result.
  assert (Hmeta : removeAll isShellMetacharacter result = result).
  { subst result. unfold sanitizeCommand, trim.
    apply trimEnd_keeps_class, trimStart_keeps_class, collapse_keeps_class;
      [reflexivity | apply removeAll_idem]. }
  assert (Hspace : collapseWhiteSpace result = result).
  { subst result. unfold sanitizeCommand, trim.
    apply trimEnd_keeps_collapsed, trimStart_keeps_collapsed, collapse_idem. }
  assert (Htrim : trim result = result).
  { subst result. unfold sanitizeCommand. apply trim_idem. }
  split; [exact Hmeta|]. split; [exact Hspace|]. split; [exact Htrim|].
  unfold sanitizeCommand. rewrite Hmeta, Hspace. exact Htrim.
Qed.

End SanitizeFacts.

Module ReplaceFacts.
Import JsString JsReplace FileOperations StringFacts.

Implicit Types (s sub before after : string).

Lemma prefix_dropStr sub s :
  String.prefix sub s = true -> s = sub +:+ dropStr (String.length sub) s.
Proof.
  revert s. induction sub as [|a sub IH]; intros s Hp; [destruct s; reflexivity|].
  destruct s as [|b s]; [discriminate|]. cbn [String.prefix] in Hp.
  destruct (ascii_dec a b) as [<-|]; [|discriminate].
  app_literal. cbn [String.length dropStr]. f_equal. apply IH, Hp.
Qed.

(** [cut] finds an occurrence, and it finds one exactly when [includes]
    says there is one. *)
Lemma cut_spec sub s before after :
  cut sub s = Some (before, after) -> s = before +:+ sub +:+ after.
Proof.
  revert before. induction s as [|c s IH]; intros before; cbn [cut].
  - destruct (String.prefix sub EmptyString) eqn:Hp; [|discriminate].
    intros Heq. injection Heq as <- <-. app_literal. apply prefix_dropStr, Hp.
  - destruct (String.prefix sub (String c s)) eqn:Hp.
    + intros Heq. injection Heq as <- <-. app_literal. apply prefix_dropStr, Hp.
    + destruct (cut sub s) as [[b a]|]; [|discriminate].
      intros Heq. injection Heq as <- <-. app_literal. f_equal. apply IH. reflexivity.
Qed.

Lemma cut_includes sub s : includes s sub = true <-> is_Some (cut sub s).
Proof.
  induction s as [|c s IH]; cbn [includes cut].
  - rewrite orb_false_r. destruct (String.prefix sub EmptyString).
    + split; [eauto | reflexivity].
    + split; [discriminate | intros [x Hx]; discriminate].
  - destruct (String.prefix sub (String c s)); cbn [orb].
    + split; [eauto | reflexivity].
    + rewrite IH. destruct (cut sub s) as [[b a]|].
      * split; eauto.
      * split; intros [x Hx]; discriminate.
Qed.

(** A replacement text without dollar sign stands for itself. *)
Lemma getSubstitution_plain matched before after replacement :
  includes replacement "$" = false ->
  getSubstitution matched before after replacement = replacement.
Proof.
  induction replacement as [|c r IH]; [reflexivity|].
  rewrite includes_char_cons. intros [Hc Hr]%orb_false_elim.
  assert (Hstep : getSubstitution matched before after (String c r)
                  = String c (getSubstitution matched before after r)).
  { destruct c as [[] [] [] [] [] [] [] []]; try reflexivity. discriminate. }
  rewrite Hstep, (IH Hr). reflexivity.
Qed.

Section WithFileSystem.
Context `{FileSystem}.
Variable workingDirectory : string.

(** X24. [replaceInFile] on a file that can be read: when the content
    does not hold the search text it reports that and writes nothing;
    when it does, it writes the file with the first occurrence replaced,
    and only that one: for a replacement text without dollar sign the new
    content is the text before the first occurrence, the replacement,
    and the text after. *)
Theorem replace_in_file_rewrites_first_occurrence (filePath searchText replaceText : string)
    (disk : Disk) (content : string) :
  fs_readFile (resolveFilePath workingDirectory filePath) disk = inl content ->
  match cut searchText content with
  | None =>
      includes content searchText = false /\
      replaceInFile workingDirectory filePath searchText replaceText disk
      = ({| success := false;
            resultContent := "Search text not found in file " +:+ filePath |}, disk)
  | Some (before, after) =>
      content = before +:+ searchText +:+ after /\
      (includes replaceText "$" = false ->
       replaceInFile workingDirectory filePath searchText replaceText disk
       = match fs_writeFile (resolveFilePath workingDirectory filePath)
               (before +:+ replaceText +:+ after) disk with
         | (Some error, disk') =>
             ({| success := false;
                 resultContent := "Error replacing text in file " +:+ filePath +:+ ": "
                                  +:+ errMessage error |}, disk')
         | (None, disk') =>
             ({| success := true;
                 resultContent := "Successfully replaced text in file " +:+ filePath |}, disk')
         end)
  end.
Proof.
  intros Hread. destruct (cut searchText content) as [[before after]|] eqn:Hcut.
  - split; [apply cut_spec, Hcut|]. intros Hplain.
    unfold replaceInFile. rewrite Hread.
    assert (Hin : includes content searchText = true) by (apply cut_includes; eauto).
    rewrite Hin. cbn [negb]. unfold replace. rewrite Hcut.
    rewrite (getSubstitution_plain _ _ _ _ Hplain). reflexivity.
  - assert (Hnot : includes content searchText = false).
    { destruct (includes content searchText) eqn:Hin; [|reflexivity].
      apply cut_includes in Hin. rewrite Hcut in Hin. destruct Hin as [x Hx]. discriminate. }
    split; [exact Hnot|]. unfold replaceInFile. rewrite Hread, Hnot. reflexivity.
Qed.

(** X25. The replacement text is a pattern, not a literal: [$&] stands
    for the matched text, so replacing by it writes the file back as it
    was, and replacing by [$$] writes a single dollar sign. *)
Theorem replacement_patterns_are_expanded (filePath searchText : string)
    (disk : Disk) (content before after : string) :
  fs_readFile (resolveFilePath workingDirectory filePath) disk = inl content ->
  cut searchText content = Some (before, after) ->
  let written (newContent : string) :=
    match fs_writeFile (resolveFilePath workingDirectory filePath) newContent disk with
    | (Some error, disk') =>
        ({| success := false;
            resultContent := "Error replacing text in file " +:+ filePath +:+ ": "
                             +:+ errMessage error |}, disk')
    | (None, disk') =>
        ({| success := true;
            resultContent := "Successfully replaced text in file " +:+ filePath |}, disk')
    end in
  replaceInFile workingDirectory filePath searchText "$&" disk = written content /\
  replaceInFile workingDirectory filePath searchText "$$" disk
  = written (before +:+ "$" +:+ after).
Proof.
  intros Hread Hcut written.
  assert (Hin : includes content searchText = true) by (apply cut_includes; eauto).
  pose proof (cut_spec _ _ _ _ Hcut) as Hcontent.
  unfold replaceInFile. rewrite Hread, Hin. cbn [negb]. unfold replace. rewrite Hcut.
  split.
  - change (getSubstitution searchText before after "$&")
      with (searchText +:+ EmptyString).
    rewrite str_app_nil_r, <- Hcontent. reflexivity.
  - reflexivity.
Qed.
End WithFileSystem.

Lemma replace_in_file_rewrites_first_occurrence_witness :
  let disk : gmap string string := {[ "/srv/notes.txt" := "a-b-a-b" ]} in
  snd (@replaceInFile Demo.mapFs "/srv" "notes.txt" "b" "c" disk) !! "/srv/notes.txt"
  = Some "a-c-a-b" /\
  @replaceInFile Demo.mapFs "/srv" "notes.txt" "x" "c" disk
  = ({| success := false; resultContent := "Search text not found in file notes.txt" |}, disk).
Proof.
  intros disk.
  pose proof (@replace_in_file_rewrites_first_occurrence Demo.mapFs "/srv" "notes.txt" "b" "c"
                disk "a-b-a-b" eq_refl) as Hfound.
  pose proof (@replace_in_file_rewrites_first_occurrence Demo.mapFs "/srv" "notes.txt" "x" "c"
                disk "a-b-a-b" eq_refl) as Habsent.
  split; [|exact (proj2 Habsent)].
  destruct Hfound as [_ Hwrite]. rewrite (Hwrite eq_refl). vm_compute. reflexivity.
Defined.

Lemma replacement_patterns_are_expanded_witness :
  let disk : gmap string string := {[ "/srv/price.txt" := "cost: N" ]} in
  snd (@replaceInFile Demo.mapFs "/srv" "price.txt" "N" "$&" disk) !! "/srv/price.txt"
  = Some "cost: N" /\
  snd (@replaceInFile Demo.mapFs "/srv" "price.txt" "N" "$$" disk) !! "/srv/price.txt"
  = Some "cost: $".
Proof.
  intros disk.
  destruct (@replacement_patterns_are_expanded Demo.mapFs "/srv" "price.txt" "N"
              disk "cost: N" "cost: " EmptyString) as [-> ->]; try reflexivity.
  split; vm_compute; reflexivity.
Defined.
End ReplaceFacts.

Module RegistryFacts.
Import ToolRegistry.

Section WithRuntime.
Context `{Runtime}.

(** The registry a task is built with knows six tools and no
    other: a name is found exactly when it is one of them, and the tool
    found has that name. *)
Theorem builtin_tools_are_six (n : string) :
  match getTool registerBuiltinTools n with
  | Some tool =>
      name tool = n /\
      n ∈ ["read_file"; "write_to_file"; "replace_in_file"; "list_files";
           "execute_command"; "attempt_completion"]
  | None =>
      n ∉ ["read_file"; "write_to_file"; "replace_in_file"; "list_files";
           "execute_command"; "attempt_completion"]
  end.
Proof.
  unfold getTool, registerBuiltinTools. cbn [foldl]. unfold registerTool, builtin. cbn [name].
  repeat match goal with
         | |- context [(<[?k := _]> _) !! n] =>
             destruct (decide (n = k)) as [-> | ?];
             [rewrite lookup_insert_eq; split; [reflexivity | compute_done]
             | rewrite lookup_insert_ne by congruence]
         end.
  rewrite lookup_empty. intros Hin.
  repeat (apply elem_of_cons in Hin; destruct Hin as [-> | Hin]; [congruence|]).
  apply elem_of_nil in Hin. exact Hin.
Qed.
End WithRuntime.
End RegistryFacts.

(** ** The provider *)

Module ApiFacts.
Import JsString StringFacts.

(** X26. For every model id that is not the name of a property of
    [Object.prototype], known to the table or not, the context window is
    200000 tokens and the size from which the loop compacts is 160000. For
    a model id that is such a name ([constructor], [toString],
    [__proto__], ...) the lookup in the table returns the inherited
    member: the context window is undefined and the size is NaN. *)
Theorem window_is_200000_unless_inherited (modelId : string) :
  Api.getContextWindowInfo (Api.getModelInfo modelId)
  = if existsb (String.eqb modelId) Api.objectPrototypeMembers then (None, None)
    else (Some 200000, Some 160000).
Proof.
  unfold Api.getModelInfo.
  destruct (String.eqb_spec modelId "claude-3-5-sonnet-20241022") as [-> | _];
    [vm_compute; reflexivity|].
  destruct (String.eqb_spec modelId "claude-3-5-haiku-20241022") as [-> | _];
    [vm_compute; reflexivity|].
  destruct (String.eqb_spec modelId "claude-3-opus-20240229") as [-> | _];
    [vm_compute; reflexivity|].
  destruct (existsb (String.eqb modelId) Api.objectPrototypeMembers); vm_compute; reflexivity.
Qed.

Section Numbers.
Context (parseInt : string -> option Z) (Number_toString : Z -> string).

(** X27. The loop recognises a full context window by the text of the
    message: for every error of the SDK that is not a rate limit (status
    429), whatever its status, the error [handleError] makes of it is
    taken for a context-window error exactly when its message holds
    "maximum context length" or "context window". *)
Theorem overflow_is_recognised_by_message (configModel : string) (status : option Z)
    (errorMessage : string) (retryAfter : option string) :
  status <> Some 429 ->
  exists e,
    Api.handleError parseInt Number_toString configModel
      (Api.APIError status errorMessage retryAfter) = inl e /\
    Task.isContextWindowExceededError (Api.toJsError e)
    = (let message := if isEmpty errorMessage then "Unknown API error" else errorMessage in
       includes message "maximum context length" || includes message "context window").
Proof.
  intros Hstatus. cbn [Api.handleError].
  set (message := if isEmpty errorMessage then _ else errorMessage).
  assert (Hne : isEmpty message = false).
  { subst message. destruct errorMessage; reflexivity. }
  destruct (bool_decide (status = Some 400) && includes message "maximum context length")
    eqn:Hfull.
  - eexists. split; [reflexivity|].
    apply andb_prop in Hfull. destruct Hfull as [_ ->]. reflexivity.
  - rewrite bool_decide_eq_false_2 by exact Hstatus.
    eexists. split; [reflexivity|].
    unfold Task.isContextWindowExceededError, Api.toJsError, Api.newApiError.
    cbn [errName errMessage Api.name Api.message]. rewrite Hne. reflexivity.
Qed.

(** What [createMessage] throws is an error of the [ApiError]
    family made for the provider anthropic, unless the value thrown to it
    is [null] or [undefined], in which case reading its message throws a
    [TypeError]. *)
Theorem createMessage_throws_api_errors (configModel : string)
    (events : list Api.StreamEvent) (failure : Api.Thrown) :
  match snd (Api.createMessage parseInt Number_toString configModel events (Some failure)) with
  | Some (inl e) =>
      (forall b, failure <> Api.Nullish b) /\
      Api.name e ∈ ["ApiError"; "ContextWindowExceededError"; "RateLimitError"] /\
      Api.provider e = Some "anthropic"
  | Some (inr e) => (exists b, failure = Api.Nullish b) /\ errName e = "TypeError"
  | None => False
  end.
Proof.
  unfold Api.createMessage. cbn [snd fmap option_fmap option_map].
  destruct failure as [status msg hdr | msg | b]; cbn [Api.handleError].
  - destruct (_ && _); [|destruct (bool_decide _)];
      (split; [discriminate|]); (split; [|reflexivity]); cbn; set_solver.
  - split; [discriminate|]. split; [|reflexivity]. cbn. set_solver.
  - split; [eauto | reflexivity].
Qed.

(** The text deltas of a stream of events, in order. *)
Lemma yieldChunks_texts modelInfo events :
  forall inputTokens outputTokens,
    omap (fun c => match c with Api.text t => Some t | _ => None end)
         (Api.yieldChunks modelInfo inputTokens outputTokens events)
    = omap (fun event => match event with
                         | Api.content_block_delta (Api.text_delta t) => Some t
                         | _ => None
                         end) events.
Proof.
  induction events as [|event events IH]; intros i o; [reflexivity|].
  destruct event as [i' | [t|] | [o'|] | |]; cbn [Api.yieldChunks omap list_omap];
    rewrite ?IH; reflexivity.
Qed.

(** X28. The text the loop assembles is the text the provider sent:
    [createMessage] yields one text chunk per text delta, in order, and
    when the loop has read the stream its buffer is the concatenation of
    the deltas. *)
Theorem answer_is_the_text_deltas `{Runtime} (configModel : string)
    (events : list Api.StreamEvent) (failure : option Api.Thrown) (st : Task.TaskState) :
  Task.abort st = false ->
  let deltas := omap (fun event => match event with
                                   | Api.content_block_delta (Api.text_delta t) => Some t
                                   | _ => None
                                   end) events in
  let stream := Api.toStreamScript
                  (Api.createMessage parseInt Number_toString configModel events failure) in
  omap (fun c => match c with TextChunk t => t | _ => None end) (chunks stream) = deltas /\
  snd (fst (Task.consumeChunks (chunks stream) (thrown stream) EmptyString st))
  = String.concat EmptyString deltas.
Proof.
  intros Habort deltas stream.
  assert (Hchunks : forall (f : ApiStreamChunk -> option string) g,
             (forall c, f (Api.toApiStreamChunk c) = g c) ->
             omap f (chunks stream) = omap g (Api.yieldChunks (Api.getModelInfo configModel) 0 0 events)).
  { intros f g Hfg. subst stream. unfold Api.toStreamScript, Api.createMessage.
    cbn [chunks fst]. generalize (Api.yieldChunks (Api.getModelInfo configModel) 0 0 events).
    intros l. induction l as [|c l IH]; [reflexivity|].
    rewrite fmap_cons. cbn [omap list_omap]. rewrite Hfg, IH. reflexivity. }
  split.
  - rewrite (Hchunks _ (fun c => match c with Api.text t => Some t | _ => None end))
      by (intros [t | i o cw cr cost]; reflexivity).
    apply yieldChunks_texts.
  - rewrite StreamFacts.consumeChunks_buffer by exact Habort. unfold Task.chunkTexts.
    rewrite (Hchunks _ (fun c => match c with Api.text t => Some t | _ => None end))
      by (intros [t | i o cw cr cost]; reflexivity).
    rewrite yieldChunks_texts. reflexivity.
Qed.

(** X29. One usage chunk per [message_stop]; each carries the input
    tokens of the last [message_start] and the output tokens of the last
    [message_delta] that had a usage, zero when there was none; the cache
    counters are always zero. *)
Theorem usage_chunk_reports_the_last_counters (configModel : string)
    (before after : list Api.StreamEvent) (input output : Z) :
  Forall (fun event => match event with
                       | Api.message_start _ | Api.message_delta (Some _) | Api.message_stop => False
                       | _ => True
                       end) after ->
  let events := before ++ [Api.message_start input] ++ after
                ++ [Api.message_delta (Some output); Api.message_stop] in
  exists earlier cost,
    fst (Api.createMessage parseInt Number_toString configModel events None)
    = earlier ++ [Api.usage input output 0 0 cost] /\
    Forall (fun c => match c with Api.usage _ _ cw cr _ => cw = 0 /\ cr = 0 | _ => True end)
           (fst (Api.createMessage parseInt Number_toString configModel events None)).
Proof.
  intros Hafter events. unfold Api.createMessage. cbn [fst].
  set (modelInfo := Api.getModelInfo configModel).
  assert (Hzero : forall evs i o,
             Forall (fun c => match c with Api.usage _ _ cw cr _ => cw = 0 /\ cr = 0 | _ => True end)
                    (Api.yieldChunks modelInfo i o evs)).
  { induction evs as [|event evs IH]; intros i o; [constructor|].
    destruct event as [i' | [t|] | [o'|] | |]; cbn [Api.yieldChunks];
      try apply IH; constructor; try apply IH; auto. }
  assert (Happ : forall evs1 evs2 i o, exists i' o',
             Api.yieldChunks modelInfo i o (evs1 ++ evs2)
             = Api.yieldChunks modelInfo i o evs1 ++ Api.yieldChunks modelInfo i' o' evs2).
  { induction evs1 as [|event evs1 IH]; intros evs2 i o; [exists i, o; reflexivity|].
    destruct event as [i' | [t|] | [o'|] | |]; cbn [Api.yieldChunks app].
    - apply IH.
    - destruct (IH evs2 i o) as (i1 & o1 & ->). eauto.
    - apply IH.
    - apply IH.
    - apply IH.
    - destruct (IH evs2 i o) as (i1 & o1 & ->). eauto.
    - apply IH. }
  assert (Hquiet : forall evs o evs2,
             Forall (fun event => match event with
                                  | Api.message_start _ | Api.message_delta (Some _)
                                  | Api.message_stop => False
                                  | _ => True
                                  end) evs ->
             exists texts,
               Api.yieldChunks modelInfo input o (evs ++ evs2)
               = texts ++ Api.yieldChunks modelInfo input o evs2).
  { induction evs as [|event evs IH]; intros o evs2 Hq; [exists []; reflexivity|].
    apply Forall_cons in Hq. destruct Hq as [Hevent Hq].
    destruct event as [i' | [t|] | [o'|] | |]; try contradiction; cbn [Api.yieldChunks app].
    - destruct (IH o evs2 Hq) as [texts ->]. exists (Api.text t :: texts). reflexivity.
    - apply IH, Hq.
    - apply IH, Hq.
    - apply IH, Hq. }
  assert (Hlast : exists earlier cost,
             Api.yieldChunks modelInfo 0 0 events
             = earlier ++ [Api.usage input output 0 0 cost]).
  { subst events. destruct (Happ before ([Api.message_start input] ++ after
      ++ [Api.message_delta (Some output); Api.message_stop]) 0 0) as (i0 & o0 & ->).
    cbn [app Api.yieldChunks].
    destruct (Hquiet after o0 [Api.message_delta (Some output); Api.message_stop] Hafter)
      as [texts ->].
    cbn [Api.yieldChunks]. eexists (_ ++ texts), _. rewrite <- app_assoc. reflexivity. }
  destruct Hlast as (earlier & cost & Hlast).
  exists earlier, cost. split; [exact Hlast | apply Hzero].
Qed.
End Numbers.

Lemma overflow_is_recognised_by_message_witness :
  exists e,
    Api.handleError (fun _ => None) (fun _ => EmptyString) "claude-3-opus-20240229"
      (Api.APIError (Some 500) "prompt exceeds the maximum context length" None) = inl e /\
    Task.isContextWindowExceededError (Api.toJsError e) = true.
Proof.
  apply (overflow_is_recognised_by_message (fun _ => None) (fun _ => EmptyString)
           "claude-3-opus-20240229" (Some 500)
           "prompt exceeds the maximum context length" None).
  discriminate.
Defined.

Lemma answer_is_the_text_deltas_witness :
  let events := [Api.message_start 12; Api.content_block_delta (Api.text_delta "Hel");
                 Api.other_event; Api.content_block_delta (Api.text_delta "lo");
                 Api.message_delta (Some 2); Api.message_stop] in
  let stream := Api.toStreamScript
                  (Api.createMessage (fun _ => None) (fun _ => EmptyString)
                     "claude-3-opus-20240229" events None) in
  snd (fst (@Task.consumeChunks Demo.runtime (chunks stream) (thrown stream) EmptyString
              (Demo.newTask None [])))
  = "Hello".
Proof.
  intros events stream.
  destruct (@answer_is_the_text_deltas (fun _ => None) (fun _ => EmptyString) Demo.runtime
              "claude-3-opus-20240229" events None (Demo.newTask None []) eq_refl)
    as [_ Hbuffer].
  exact Hbuffer.
Defined.

Lemma usage_chunk_reports_the_last_counters_witness :
  exists earlier cost,
    fst (Api.createMessage (fun _ => None) (fun _ => EmptyString) "claude-3-opus-20240229"
           ([] ++ [Api.message_start 12]
            ++ [Api.content_block_delta (Api.text_delta "Hello")]
            ++ [Api.message_delta (Some 2); Api.message_stop]) None)
    = earlier ++ [Api.usage 12 2 0 0 cost].
Proof.
  destruct (usage_chunk_reports_the_last_counters (fun _ => None) (fun _ => EmptyString)
              "claude-3-opus-20240229" [] [Api.content_block_delta (Api.text_delta "Hello")]
              12 2) as (earlier & cost & Hlast & _).
  - repeat constructor.
  - exists earlier, cost. exact Hlast.
Defined.
End ApiFacts.

Module HandlerFacts.
Import JsString.

(** [buildApiHandler] returns a handler for the provider anthropic
    with a non-empty key and for nothing else; the handler's model is the
    configured one, or claude-3-5-sonnet-20241022 when none is
    configured. Every other configuration throws a [ClineError]. *)
Theorem only_anthropic_with_a_key_builds (config : Api.ApiConfiguration) :
  match Api.buildApiHandler config with
  | inl handler =>
      Api.apiProvider config = "anthropic" /\
      Api.anthropicApiKey config = Some (Api.apiKey handler) /\
      Api.apiKey handler <> EmptyString /\
      Api.handlerModel handler
      = match Api.configuredModel config with
        | Some m => if isEmpty m then "claude-3-5-sonnet-20241022" else m
        | None => "claude-3-5-sonnet-20241022"
        end
  | inr error =>
      (Api.apiProvider config = "anthropic" ->
       Api.code error = "MISSING_API_KEY" /\
       (Api.anthropicApiKey config = None \/ Api.anthropicApiKey config = Some EmptyString)) /\
      (Api.apiProvider config <> "anthropic" ->
       Api.code error = "PROVIDER_NOT_IMPLEMENTED" \/ Api.code error = "UNSUPPORTED_PROVIDER")
  end.
Proof.
  unfold Api.buildApiHandler.
  destruct (String.eqb_spec (Api.apiProvider config) "anthropic") as [Hp | Hp].
  - destruct (Api.anthropicApiKey config) as [key|].
    + destruct key as [|c key]; cbn [isEmpty].
      * split; [auto | contradiction].
      * repeat split; [exact Hp | discriminate].
    + split; [auto | contradiction].
  - repeat destruct (String.eqb (Api.apiProvider config) _);
      (split; [contradiction | intros _; cbn; auto]).
Qed.
End HandlerFacts.
